(** * backup-tool: the snapshot store of [services/file.ts]

    A shallow embedding of the content-addressed snapshot store
    ([FileService]) in both of its variants, the synchronous one and the
    asynchronous one with its in-memory caches, and the properties of
    snapshot creation, reconstruction, restore, prune and size accounting.

    Conventions of the embedding:
    - the database directory is a record [Store]: [snapshots] holds the
      files [snapshots/<id>.json] keyed by the number in the file name,
      [blobs] holds the files [blobs/<h[0:2]>/<h[2:]>] keyed by the full
      digest [h];
    - a JS object used as a dictionary ([Flat], [added], [modified]) is a
      [gmap string string]; iteration over its entries follows the map's
      own enumeration order;
    - a JS number holding a snapshot id is a [Z]; [if (x)] on a number is
      [truthy x];
    - a thrown exception is the outcome [Throw e]; a loop that follows
      parent pointers takes fuel and yields [OutOfFuel] when it runs dry;
    - [new Date().toISOString()] is the argument [now] of [createSnapshot];
    - awaited calls run in program order, and the [saveSnapshot] that the
      asynchronous [pruneSnapshot] does not await has finished before the
      records are read again;
    - snapshot files hold well-formed records, and reads and writes fail
      only for a file that is missing. *)

From Stdlib Require Import ZArith Lia.
From Stdlib Require Import Strings.String Strings.Ascii Strings.Byte.
From stdpp Require Import base option list gmap strings fin_maps sorting.

Local Open Scope Z_scope.
#[local] Set Warnings "-clear-no-such-hyp".

(** ** SHA-256, the digest behind [crypto.createHash("sha256")] *)

Module SHA256.

Definition wrap32 (x : Z) : Z := x mod 2 ^ 32.
Definition add32 (x y : Z) : Z := wrap32 (x + y).
Definition rotr (n x : Z) : Z :=
  Z.lor (Z.shiftr x n) (wrap32 (Z.shiftl x (32 - n))).
Definition not32 (x : Z) : Z := Z.lxor x 4294967295.

Definition ch (x y z : Z) : Z := Z.lxor (Z.land x y) (Z.land (not32 x) z).
Definition maj (x y z : Z) : Z :=
  Z.lxor (Z.lxor (Z.land x y) (Z.land x z)) (Z.land y z).
Definition bsig0 (x : Z) : Z := Z.lxor (Z.lxor (rotr 2 x) (rotr 13 x)) (rotr 22 x).
Definition bsig1 (x : Z) : Z := Z.lxor (Z.lxor (rotr 6 x) (rotr 11 x)) (rotr 25 x).
Definition ssig0 (x : Z) : Z := Z.lxor (Z.lxor (rotr 7 x) (rotr 18 x)) (Z.shiftr x 3).
Definition ssig1 (x : Z) : Z := Z.lxor (Z.lxor (rotr 17 x) (rotr 19 x)) (Z.shiftr x 10).

(** The first 64 primes, by trial division. *)
Definition is_prime (n : Z) : bool :=
forallb (fun d => negb (n mod Z.of_nat d =? 0)) (seq 2 (Z.to_nat n - 2)).

Definition primes : list Z :=
Eval vm_compute in filter (fun n => is_prime n = true) (map Z.of_nat (seq 2 310)).

(** The integer cube root, by bisection between [lo] and [hi]. *)
Fixpoint cbrt_between (fuel : nat) (lo hi n : Z) : Z :=
match fuel with
| O => lo
| S fuel' =>
    if hi - lo <=? 1 then lo
    else let mid := (lo + hi) / 2 in
         if mid * mid * mid <=? n then cbrt_between fuel' mid hi n
         else cbrt_between fuel' lo mid n
end.

(** Round constants: the first 32 bits of the fractional parts of the cube
    roots of the first 64 primes. *)
Definition K : list Z :=
Eval vm_compute in
  map (fun p => wrap32 (cbrt_between 64 0 (2 ^ 36) (p * 2 ^ 96))) primes.

(** Initial hash value: the same for the square roots of the first 8 primes. *)
Definition H0 : list Z :=
Eval vm_compute in map (fun p => wrap32 (Z.sqrt (p * 2 ^ 64))) (firstn 8 primes).

(** Big-endian bytes of [x], [n] of them. *)
Fixpoint be_bytes (n : nat) (x : Z) : list Z :=
  match n with
  | O => []
  | S n' => (Z.shiftr x (8 * Z.of_nat n')) mod 256 :: be_bytes n' x
  end.

(** The message, the byte 0x80, zero bytes up to 56 modulo 64, and the
    length in bits on eight bytes. *)
Definition pad (msg : list Z) : list Z :=
  let len := Z.of_nat (length msg) in
  (msg ++ [128] ++ repeat 0 (Z.to_nat ((55 - len) mod 64)) ++ be_bytes 8 (8 * len)).

Fixpoint words (fuel : nat) (bs : list Z) : list Z :=
  match fuel, bs with
  | S fuel', b0 :: b1 :: b2 :: b3 :: rest =>
      (b0 * 16777216 + b1 * 65536 + b2 * 256 + b3) :: words fuel' rest
  | _, _ => []
  end.

Definition at_ (l : list Z) (i : nat) : Z := nth i l 0.

Definition schedule (block : list Z) : list Z :=
  fold_left
    (fun w t =>
       w ++ [add32 (add32 (ssig1 (at_ w (t - 2))) (at_ w (t - 7)))
                   (add32 (ssig0 (at_ w (t - 15))) (at_ w (t - 16)))])
    (seq 16 48) block.

Definition round (s : list Z) (kw : Z * Z) : list Z :=
  match s with
  | [a; b; c; d; e; f; g; h] =>
      let t1 := add32 (add32 (add32 h (bsig1 e)) (add32 (ch e f g) (fst kw))) (snd kw) in
      let t2 := add32 (bsig0 a) (maj a b c) in
      [add32 t1 t2; a; b; c; add32 d t1; e; f; g]
  | _ => s
  end.

Definition compress (hs : list Z) (block : list Z) : list Z :=
  let s := fold_left round (combine K (schedule block)) hs in
  map (fun p => add32 (fst p) (snd p)) (combine hs s).

Fixpoint blocks (fuel : nat) (ws : list Z) : list (list Z) :=
  match fuel, ws with
  | S fuel', _ :: _ => firstn 16 ws :: blocks fuel' (skipn 16 ws)
  | _, _ => []
  end.

Definition digest_words (msg : list Z) : list Z :=
  let bs := pad msg in
  let ws := words (length bs) bs in
  fold_left compress (blocks (length ws) ws) H0.

Definition hex_digit (d : Z) : ascii :=
  ascii_of_nat (Z.to_nat (if d <? 10 then 48 + d else 87 + d)).

Definition hex_byte (b : Z) : string :=
  String (hex_digit (b / 16)) (String (hex_digit (b mod 16)) EmptyString).

Definition hex (hs : list Z) : string :=
  fold_right (fun w acc => fold_right (fun b acc' => hex_byte b +:+ acc') acc (be_bytes 4 w))
             EmptyString hs.

Definition sha256_hex (content : list byte) : string :=
  hex (digest_words (map (fun b => Z.of_N (Byte.to_N b)) content)).

End SHA256.

(** ** Data model ([types/index.ts]) *)

Abbreviation Flat := (gmap string string).

Record SnapshotChanges := {
  added : gmap string string;
  modified : gmap string string;
  deleted : list string
}.

Record Snapshot := {
  id : Z;
  date : string;
  parent : option Z;
  changes : SnapshotChanges
}.

(** The database directory: [snapshots/<id>.json] and the blob files. *)
Record Store := {
  snapshots : gmap Z Snapshot;
  blobs : gmap string (list byte)
}.

(** A directory as [fs.readdirSync] and [fs.statSync] show it. *)
#[warnings="-register-all"]
Inductive Node :=
  | File (content : list byte)
  | Directory (entries : list (string * Node)).

(** ** Exceptions and the state-and-exception monad *)

Inductive Error :=
  | SnapshotDoesNotExist (sid : Z)
  | FailedToLoadSnapshot (sid : Z)
  | ENOENT (path : string)
  | EISDIR (path : string).

Inductive Res (A : Type) : Type :=
  | Ok (a : A)
  | Throw (e : Error)
  | OutOfFuel.
Arguments Ok {A} a.
Arguments Throw {A} e.
Arguments OutOfFuel {A}.

Definition M (S A : Type) : Type := S → Res A * S.

#[global] Instance M_ret {S} : MRet (M S) := λ A a s, (Ok a, s).
#[global] Instance M_bind {S} : MBind (M S) := λ A B k m s,
  match m s with
  | (Ok a, s') => k a s'
  | (Throw e, s') => (Throw e, s')
  | (OutOfFuel, s') => (OutOfFuel, s')
  end.

Definition throw {S A} (e : Error) : M S A := λ s, (Throw e, s).
Definition outOfFuel {S A} : M S A := λ s, (OutOfFuel, s).
Definition gets {S A} (f : S → A) : M S A := λ s, (Ok (f s), s).
Definition modify {S} (f : S → S) : M S () := λ s, (Ok (), f s).

(** [try { m } catch (error) { h }] *)
Definition tryCatch {S A} (m : M S A) (h : Error → M S A) : M S A := λ s,
  match m s with
  | (Throw e, s') => h e s'
  | r => r
  end.

(** A [for (const x of l)] loop that updates the local [b]. *)
Fixpoint foldM {S A B} (body : B → A → M S B) (b : B) (l : list A) : M S B :=
  match l with
  | [] => mret b
  | x :: l' => b' ← body b x; foldM body b' l'
  end.

(** ** Helpers shared by the two variants *)

Definition truthy (n : Z) : bool := negb (n =? 0).

Definition hashContent (content : list byte) : string := SHA256.sha256_hex content.
Arguments hashContent : simpl never.

(** The bytes Node hashes when [hashContent] is given a string. *)
Definition utf8 (s : string) : list byte := list_byte_of_string s.

Definition DB_DIR : string := ".mydb".
Definition BLOBS_DIR : string := DB_DIR +:+ "/blobs".
Definition SNAP_DIR : string := DB_DIR +:+ "/snapshots".

Definition blobPath (hash : string) : string :=
  BLOBS_DIR +:+ "/" +:+ substring 0 2 hash +:+ "/"
            +:+ substring 2 (String.length hash - 2) hash.

Definition emptyChanges : SnapshotChanges :=
  {| added := ∅; modified := ∅; deleted := [] |}.

(** The record [loadSnapshot] makes up for a file that does not exist. *)
Definition sentinel (sid : Z) : Snapshot :=
  {| id := sid; date := ""; parent := None; changes := emptyChanges |}.

Definition set_parent (p : option Z) (s : Snapshot) : Snapshot :=
  {| id := id s; date := date s; parent := p; changes := changes s |}.
Definition set_id (n : Z) (s : Snapshot) : Snapshot :=
  {| id := n; date := date s; parent := parent s; changes := changes s |}.
Definition set_changes (c : SnapshotChanges) (s : Snapshot) : Snapshot :=
  {| id := id s; date := date s; parent := parent s; changes := c |}.

Definition set_added (k h : string) (c : SnapshotChanges) : SnapshotChanges :=
  {| added := <[k := h]> (added c); modified := modified c; deleted := deleted c |}.
Definition set_modified (k h : string) (c : SnapshotChanges) : SnapshotChanges :=
  {| added := added c; modified := <[k := h]> (modified c); deleted := deleted c |}.
Definition push_deleted (k : string) (c : SnapshotChanges) : SnapshotChanges :=
  {| added := added c; modified := modified c; deleted := deleted c ++ [k] |}.

Definition set_snapshots (f : gmap Z Snapshot → gmap Z Snapshot) (st : Store) : Store :=
  {| snapshots := f (snapshots st); blobs := blobs st |}.
Definition set_blobs (f : gmap string (list byte) → gmap string (list byte))
    (st : Store) : Store :=
  {| snapshots := snapshots st; blobs := f (blobs st) |}.

(** [prefix ? `${prefix}/${entry}` : entry] *)
Definition relPathOf (prefix entry : string) : string :=
  match prefix with
  | EmptyString => entry
  | _ => prefix +:+ "/" +:+ entry
  end.

(** [Math.max(...files.map(f => parseInt(f)))], or [null] without files. *)
Definition maxId (files : list Z) : option Z :=
  match files with
  | [] => None
  | f :: rest => Some (foldl Z.max f rest)
  end.

(** [blobsInSnapshot]: the values of [added], then those of [modified]. *)
Definition blobsInSnapshot (snap : Snapshot) : list string :=
  (map_to_list (added (changes snap))).*2 ++ (map_to_list (modified (changes snap))).*2.

(** The three loops that replay one delta onto [flat]. *)
Definition applyChanges (c : SnapshotChanges) (flat : Flat) : Flat :=
  let flat := foldl (λ flat kh, <[kh.1 := kh.2]> flat) flat (map_to_list (added c)) in
  let flat := foldl (λ flat kh, <[kh.1 := kh.2]> flat) flat (map_to_list (modified c)) in
  foldl (λ flat key, delete key flat) flat (deleted c).

(** The loop that tracks deleted paths. *)
Definition trackDeleted (flat parentFlat : Flat) (c : SnapshotChanges) : SnapshotChanges :=
  foldl (λ c pathKey, match flat !! pathKey with
                      | None => push_deleted pathKey c
                      | Some _ => c
                      end) c (map_to_list parentFlat).*1.

(** The order of [sort((a, b) => a.id - b.id)]. *)
Definition byId (a b : Snapshot) : Prop := id a ≤ id b.
#[global] Instance byId_dec : RelDecision byId := λ a b, Z_le_dec (id a) (id b).

(** [const newId = lastId ? lastId + 1 : 1] *)
Definition newIdOf (lastId : option Z) : Z :=
  match lastId with
  | Some l => if truthy l then l + 1 else 1
  | None => 1
  end.

(** [parent?.id || null] *)
Definition parentIdOf (parent : option Snapshot) : option Z :=
  match parent with
  | Some p => if truthy (id p) then Some (id p) else None
  | None => None
  end.

(** The blob sweep of [pruneSnapshot]: every stored blob whose digest
    ([subdir + file]) is not in [usedBlobs] is unlinked. Removing a shard
    directory that has become empty leaves the set of blobs as it is. *)
Definition sweepBlobs (usedBlobs : gset string)
    (stored : gmap string (list byte)) : gmap string (list byte) :=
  filter (λ hc, hc.1 ∈ usedBlobs) stored.

(** Path resolution below a directory, for [fs.readFileSync]. *)
Fixpoint segments (p : string) : list string :=
  match p with
  | EmptyString => [EmptyString]
  | String c rest =>
      if Ascii.eqb c "/" then EmptyString :: segments rest
      else match segments rest with
           | [] => [String c EmptyString]
           | seg :: segs => String c seg :: segs
           end
  end.

Fixpoint resolve (segs : list string) (node : Node) : option Node :=
  match segs with
  | [] => Some node
  | seg :: rest =>
      match node with
      | File _ => None
      | Directory entries =>
          match List.find (λ en, String.eqb (fst en) seg) entries with
          | Some en => resolve rest (snd en)
          | None => None
          end
      end
  end.

(** [fs.readFileSync(path.join(dirPath, relPath))] *)
Definition readFileSync {S} (dirPath : list (string * Node)) (relPath : string)
    : M S (list byte) :=
  match resolve (segments relPath) (Directory dirPath) with
  | Some (File content) => mret content
  | Some (Directory _) => throw (EISDIR relPath)
  | None => throw (ENOENT relPath)
  end.

(** ** The synchronous variant *)

Module Sync.

Definition storeBlob (content : list byte) : M Store string := λ st,
  let hash := hashContent content in
  match blobs st !! hash with
  | Some _ => (Ok hash, st)
  | None => (Ok hash, set_blobs (insert hash content) st)
  end.

Definition loadContent (hash : string) : M Store (list byte) := λ st,
  match blobs st !! hash with
  | Some content => (Ok content, st)
  | None => (Throw (ENOENT (blobPath hash)), st)
  end.

Fixpoint flattenEntry (prefix : string) (flat : Flat) (entry : string) (node : Node)
    {struct node} : Flat :=
  let relPath := relPathOf prefix entry in
  match node with
  | Directory sub =>
      foldl (λ acc en, flattenEntry relPath acc (fst en) (snd en)) ∅ sub ∪ flat
  | File content => <[relPath := hashContent content]> flat
  end.

Definition flattenDir (dirPath : list (string * Node)) (prefix : string) : Flat :=
  foldl (λ flat en, flattenEntry prefix flat (fst en) (snd en)) ∅ dirPath.

Definition lastSnapshotId : M Store (option Z) :=
  gets (λ st, maxId (map_to_list (snapshots st)).*1).

Definition loadSnapshot (sid : Z) : M Store Snapshot := λ st,
  match snapshots st !! sid with
  | None => (Ok (sentinel sid), st)
  | Some snapshot => (Ok snapshot, st)
  end.

Definition saveSnapshot (snapshot : Snapshot) : M Store () :=
  modify (set_snapshots (insert (id snapshot) snapshot)).

Fixpoint reconstructSnapshot (fuel : nat) (sid : Z) : M Store Flat :=
  match fuel with
  | O => outOfFuel
  | S fuel' =>
      snap ← loadSnapshot sid;
      flat ← match parent snap with
             | Some p => if truthy p then reconstructSnapshot fuel' p else mret ∅
             | None => mret ∅
             end;
      mret (applyChanges (changes snap) flat)
  end.

Definition createSnapshot (fuel : nat) (dirPath : list (string * Node)) (now : string)
    : M Store Snapshot :=
  let flat := flattenDir dirPath "" in
  lastId ← lastSnapshotId;
  pp ← match lastId with
       | Some l =>
           if truthy l then
             parent ← loadSnapshot l;
             parentFlat ← reconstructSnapshot fuel (id parent);
             mret (Some parent, parentFlat)
           else mret (None, ∅)
       | None => mret (None, ∅)
       end;
  let parentFlat : Flat := snd pp in
  let newId := newIdOf lastId in
  let snapshot :=
    {| id := newId; parent := parentIdOf (fst pp); date := now;
       changes := {| added := ∅; modified := ∅; deleted := [""] |} |} in
  (* Track Added/modified *)
  changes ← foldM (λ changes kv,
      let pathKey : string := fst kv in
      content ← readFileSync dirPath pathKey;
      hash ← storeBlob content;
      match parentFlat !! pathKey with
      | None => mret (set_added pathKey hash changes)
      | Some parentHash =>
          let oldHash := hashContent (utf8 parentHash) in
          if decide (oldHash = hash) then mret changes
          else mret (set_modified pathKey hash changes)
      end) emptyChanges (map_to_list flat);
  (* Track Deleted *)
  let changes := trackDeleted flat parentFlat changes in
  let snapshot := set_changes changes snapshot in
  saveSnapshot snapshot;;
  mret snapshot.

Definition restoreSnapshot (fuel : nat) (sid : Z) (targetDir : gmap string (list byte))
    : M Store (gmap string (list byte)) :=
  flat ← reconstructSnapshot fuel sid;
  foldM (λ target kv,
      content ← loadContent (snd kv);
      mret (<[fst kv := content]> target)) targetDir (map_to_list flat).

Definition listSnapshots : M Store (list Snapshot) :=
  files ← gets (λ st, (map_to_list (snapshots st)).*1);
  l ← foldM (λ acc file,
        snapshot ← loadSnapshot file;
        mret (acc ++ [set_id file snapshot])) [] files;
  mret (merge_sort byId l).

Definition pruneSnapshot (sid : Z) : M Store () :=
  snapshot ← loadSnapshot sid;
  if decide (date snapshot = "") then throw (SnapshotDoesNotExist sid) else
  (* remap the next snapshot to point to the previous parent *)
  nextSnapshot ← loadSnapshot (sid + 1);
  (if decide (parent nextSnapshot = Some sid)
   then saveSnapshot (set_parent (parent snapshot) nextSnapshot)
   else mret ());;
  (* Remove the snapshot file *)
  modify (set_snapshots (delete sid));;
  (* Get blobs still in use *)
  allSnapshots ← listSnapshots;
  let usedBlobs : gset string :=
    foldl (λ used snap, foldl (λ used blobHash, used ∪ {[blobHash]}) used
                              (blobsInSnapshot snap)) ∅ allSnapshots in
  (* Remove unused blobs *)
  modify (set_blobs (sweepBlobs usedBlobs)).

Definition blobSize (hash : string) : M Store Z := λ st,
  match blobs st !! hash with
  | Some content => (Ok (Z.of_nat (length content)), st)
  | None => (Throw (ENOENT (blobPath hash)), st)
  end.

Definition dbSize : M Store Z :=
  gets (λ st, foldl (λ total kc, total + Z.of_nat (length (snd kc))) 0
                    (map_to_list (blobs st))).

Definition logicalSize (fuel : nat) (snapshotId : Z) : M Store Z :=
  flat ← reconstructSnapshot fuel snapshotId;
  foldM (λ total key, size ← blobSize key; mret (total + size)) 0
        (map_to_list flat).*2.

Fixpoint seenBeforeLoop (fuel : nat) (hash : string) (current : option Z)
    : M Store bool :=
  match current with
  | None => mret false
  | Some c =>
      if truthy c then
        match fuel with
        | O => outOfFuel
        | S fuel' =>
            par ← loadSnapshot c;
            if decide (hash ∈ blobsInSnapshot par) then mret true
            else seenBeforeLoop fuel' hash (parent par)
        end
      else mret false
  end.

Definition seenBefore (fuel : nat) (hash : string) (snapshot : Snapshot)
    : M Store bool :=
  seenBeforeLoop fuel hash (parent snapshot).

Definition physicalSize (fuel : nat) (snapshotId : Z) : M Store Z :=
  snap ← loadSnapshot snapshotId;
  foldM (λ total hash,
      seen ← seenBefore fuel hash snap;
      if (seen : bool) then mret total
      else size ← blobSize hash; mret (total + size)) 0 (blobsInSnapshot snap).

End Sync.

(** ** The asynchronous variant, with its caches *)

Module Async.

Record FileWithContent := {
  path : string;
  content : list byte;
  hash : string
}.

(** The database directory and the four caches of a [FileService]. *)
Record Service := {
  db : Store;
  snapshotCache : gmap Z Snapshot;
  flatCache : gmap Z Flat;
  blobPresenceCache : gmap (string * Z) bool;
  blobSizeCache : gmap string Z
}.

Definition set_db (f : Store → Store) (sv : Service) : Service :=
  {| db := f (db sv); snapshotCache := snapshotCache sv; flatCache := flatCache sv;
     blobPresenceCache := blobPresenceCache sv; blobSizeCache := blobSizeCache sv |}.
Definition set_snapshotCache (sid : Z) (s : Snapshot) (sv : Service) : Service :=
  {| db := db sv; snapshotCache := <[sid := s]> (snapshotCache sv);
     flatCache := flatCache sv; blobPresenceCache := blobPresenceCache sv;
     blobSizeCache := blobSizeCache sv |}.
Definition set_flatCache (sid : Z) (flat : Flat) (sv : Service) : Service :=
  {| db := db sv; snapshotCache := snapshotCache sv;
     flatCache := <[sid := flat]> (flatCache sv);
     blobPresenceCache := blobPresenceCache sv; blobSizeCache := blobSizeCache sv |}.
Definition set_blobPresenceCache (key : string * Z) (b : bool) (sv : Service)
    : Service :=
  {| db := db sv; snapshotCache := snapshotCache sv; flatCache := flatCache sv;
     blobPresenceCache := <[key := b]> (blobPresenceCache sv);
     blobSizeCache := blobSizeCache sv |}.
Definition set_blobSizeCache (h : string) (size : Z) (sv : Service) : Service :=
  {| db := db sv; snapshotCache := snapshotCache sv; flatCache := flatCache sv;
     blobPresenceCache := blobPresenceCache sv;
     blobSizeCache := <[h := size]> (blobSizeCache sv) |}.

(** [new FileService()] over an existing database directory. *)
Definition newService (st : Store) : Service :=
  {| db := st; snapshotCache := ∅; flatCache := ∅; blobPresenceCache := ∅;
     blobSizeCache := ∅ |}.

(** [writeFileSync] with the flag [wx]; [EEXIST] is swallowed. *)
Definition storeBlob (content : list byte) : M Service string := λ sv,
  let hash := hashContent content in
  match blobs (db sv) !! hash with
  | Some _ => (Ok hash, sv)
  | None => (Ok hash, set_db (set_blobs (insert hash content)) sv)
  end.

Definition loadContent (hash : string) : M Service (list byte) := λ sv,
  match blobs (db sv) !! hash with
  | Some content => (Ok content, sv)
  | None => (Throw (ENOENT (blobPath hash)), sv)
  end.

Fixpoint flattenEntryWithContent (prefix : string)
    (acc : Flat * list FileWithContent) (entry : string) (node : Node)
    {struct node} : Flat * list FileWithContent :=
  let relPath := relPathOf prefix entry in
  match node with
  | Directory sub =>
      let r := foldl (λ acc' en, flattenEntryWithContent relPath acc' (fst en) (snd en))
                     (∅, []) sub in
      (fst r ∪ fst acc, snd acc ++ snd r)
  | File content =>
      let hash := hashContent content in
      (<[relPath := hash]> (fst acc),
       snd acc ++ [{| path := relPath; content := content; hash := hash |}])
  end.

Definition flattenDirWithContent (dirPath : list (string * Node)) (prefix : string)
    : Flat * list FileWithContent :=
  foldl (λ acc en, flattenEntryWithContent prefix acc (fst en) (snd en)) (∅, []) dirPath.

Definition flattenDir (dirPath : list (string * Node)) (prefix : string) : Flat :=
  fst (flattenDirWithContent dirPath prefix).

Definition lastSnapshotId : M Service (option Z) :=
  gets (λ sv, maxId (map_to_list (snapshots (db sv))).*1).

Definition loadSnapshot (sid : Z) : M Service Snapshot := λ sv,
  match snapshots (db sv) !! sid with
  | None => (Ok (sentinel sid), sv)
  | Some snapshot => (Ok snapshot, sv)
  end.

Definition saveSnapshot (snapshot : Snapshot) : M Service () :=
  modify (set_db (set_snapshots (insert (id snapshot) snapshot))).

Definition loadSnapshotWithCache (sid : Z) : M Service Snapshot := λ sv,
  match snapshotCache sv !! sid with
  | Some snapshot => (Ok snapshot, sv)
  | None =>
      match snapshots (db sv) !! sid with
      | Some snapshot => (Ok snapshot, set_snapshotCache sid snapshot sv)
      | None => (Throw (FailedToLoadSnapshot sid), sv)
      end
  end.

(** The loop that builds the snapshot chain, oldest first. *)
Fixpoint buildChain (fuel : nat) (currentId : option Z) (snapshotChain : list Snapshot)
    : M Service (list Snapshot) :=
  match currentId with
  | None => mret snapshotChain
  | Some c =>
      match fuel with
      | O => outOfFuel
      | S fuel' =>
          snap ← loadSnapshotWithCache c;
          buildChain fuel' (parent snap) (snap :: snapshotChain)
      end
  end.

Definition reconstructSnapshot (fuel : nat) (sid : Z) : M Service Flat :=
  cached ← gets (λ sv, flatCache sv !! sid);
  match cached with
  | Some flat => mret flat
  | None =>
      snapshotChain ← buildChain fuel (Some sid) [];
      foldM (λ flat snap,
          let flat := applyChanges (changes snap) flat in
          modify (set_flatCache (id snap) flat);;
          mret flat) ∅ snapshotChain
  end.

Definition createSnapshot (fuel : nat) (dirPath : list (string * Node)) (now : string)
    : M Service Snapshot :=
  let ff := flattenDirWithContent dirPath "" in
  let flat : Flat := fst ff in
  lastId ← lastSnapshotId;
  pp ← match lastId with
       | Some l =>
           if truthy l then
             parent ← loadSnapshot l;
             parentFlat ← reconstructSnapshot fuel (id parent);
             mret (Some parent, parentFlat)
           else mret (None, ∅)
       | None => mret (None, ∅)
       end;
  let parentFlat : Flat := snd pp in
  let newId := newIdOf lastId in
  let snapshot :=
    {| id := newId; parent := parentIdOf (fst pp); date := now;
       changes := emptyChanges |} in
  (* Process added and modified files *)
  changes ← foldM (λ changes file,
      let pathKey := path file in
      exists_ ← gets (λ sv, bool_decide (is_Some (blobs (db sv) !! hash file)));
      (if (exists_ : bool) then mret (hash file) else storeBlob (content file));;
      match parentFlat !! pathKey with
      | None => mret (set_added pathKey (hash file) changes)
      | Some parentHash =>
          if decide (parentHash = hash file) then mret changes
          else mret (set_modified pathKey (hash file) changes)
      end) emptyChanges (snd ff);
  (* Track Deleted *)
  let changes := trackDeleted flat parentFlat changes in
  let snapshot := set_changes changes snapshot in
  saveSnapshot snapshot;;
  mret snapshot.

Definition restoreSnapshot (fuel : nat) (sid : Z) (targetDir : gmap string (list byte))
    : M Service (gmap string (list byte)) :=
  flat ← reconstructSnapshot fuel sid;
  foldM (λ target kv,
      tryCatch (content ← loadContent (snd kv);
                mret (<[fst kv := content]> target))
               (λ error, throw error)) targetDir (map_to_list flat).

Definition listSnapshots : M Service (list Snapshot) :=
  files ← gets (λ sv, (map_to_list (snapshots (db sv))).*1);
  l ← foldM (λ acc file,
        snapshot ← loadSnapshot file;
        mret (acc ++ [set_id file snapshot])) [] files;
  mret (merge_sort byId l).

Definition getAllUsedBlobs : M Service (list string) :=
  files ← gets (λ sv, (map_to_list (snapshots (db sv))).*1);
  foldM (λ yielded file,
      snapshot ← loadSnapshot file;
      mret (yielded ++ blobsInSnapshot snapshot)) [] files.

Definition pruneSnapshot (sid : Z) : M Service () :=
  snapshot ← loadSnapshot sid;
  if decide (date snapshot = "") then throw (SnapshotDoesNotExist sid) else
  (* Remap the next snapshot to point to the previous parent *)
  nextSnapshot ← loadSnapshot (sid + 1);
  (if decide (parent nextSnapshot = Some sid)
   then saveSnapshot (set_parent (parent snapshot) nextSnapshot)
   else mret ());;
  (* Remove the snapshot file *)
  modify (set_db (set_snapshots (delete sid)));;
  (* Process blobs in use *)
  yielded ← getAllUsedBlobs;
  let usedBlobs : gset string := foldl (λ used h, used ∪ {[h]}) ∅ yielded in
  (* Process blob directories *)
  modify (set_db (set_blobs (sweepBlobs usedBlobs))).

Definition blobSize (hash : string) : M Service Z := λ sv,
  match blobSizeCache sv !! hash with
  | Some size => (Ok size, sv)
  | None =>
      match blobs (db sv) !! hash with
      | Some content =>
          let size := Z.of_nat (length content) in
          (Ok size, set_blobSizeCache hash size sv)
      | None => (Ok 0, sv) (* Return 0 for missing blobs *)
      end
  end.

Definition dbSize : M Service Z :=
  gets (λ sv, foldl (λ total kc, total + Z.of_nat (length (snd kc))) 0
                    (map_to_list (blobs (db sv)))).

Definition logicalSize (fuel : nat) (snapshotId : Z) : M Service Z :=
  flat ← reconstructSnapshot fuel snapshotId;
  foldM (λ total key, size ← blobSize key; mret (total + size)) 0
        (map_to_list flat).*2.

(** The loop of [seenBefore] over the parent chain. *)
Fixpoint seenBeforeLoop (fuel : nat) (hash : string) (cacheKey : string * Z)
    (current : option Z) : M Service bool :=
  match current with
  | None => modify (set_blobPresenceCache cacheKey false);; mret false
  | Some c =>
      if truthy c then
        match fuel with
        | O => outOfFuel
        | S fuel' =>
            par ← loadSnapshotWithCache c;
            let isPresent := bool_decide (hash ∈ blobsInSnapshot par) in
            modify (set_blobPresenceCache (hash, id par) isPresent);;
            if isPresent then modify (set_blobPresenceCache cacheKey true);; mret true
            else seenBeforeLoop fuel' hash cacheKey (parent par)
        end
      else modify (set_blobPresenceCache cacheKey false);; mret false
  end.

Definition seenBefore (fuel : nat) (hash : string) (snapshot : Snapshot)
    : M Service bool :=
  let cacheKey := (hash, id snapshot) in
  cached ← gets (λ sv, blobPresenceCache sv !! cacheKey);
  match cached with
  | Some b => mret b
  | None =>
      if decide (hash ∈ blobsInSnapshot snapshot)
      then modify (set_blobPresenceCache cacheKey true);; mret true
      else seenBeforeLoop fuel hash cacheKey (parent snapshot)
  end.

(** The inner loop of [physicalSize]: is [hash] in no ancestor? *)
Fixpoint isUniqueLoop (fuel : nat) (hash : string) (currentSnap : Snapshot)
    : M Service bool :=
  match parent currentSnap with
  | None => mret true
  | Some p =>
      match fuel with
      | O => outOfFuel
      | S fuel' =>
          par ← loadSnapshot p;
          if decide (hash ∈ blobsInSnapshot par) then mret false
          else isUniqueLoop fuel' hash par
      end
  end.

Definition physicalSize (fuel : nat) (snapshotId : Z) : M Service Z :=
  tryCatch
    (snap ← loadSnapshot snapshotId;
     foldM (λ totalSize hash,
         isUnique ← isUniqueLoop fuel hash snap;
         if (isUnique : bool) then size ← blobSize hash; mret (totalSize + size)
         else mret totalSize) 0 (blobsInSnapshot snap))
    (λ error, mret 0).

End Async.

(** ** The specification's side of the comparisons *)

(** The files of a directory tree: relative path and byte content. *)
Fixpoint filesOfEntry (prefix : string) (acc : gmap string (list byte))
    (entry : string) (node : Node) {struct node} : gmap string (list byte) :=
  let relPath := relPathOf prefix entry in
  match node with
  | Directory sub => foldl (λ acc' en, filesOfEntry relPath acc' (fst en) (snd en)) acc sub
  | File content => <[relPath := content]> acc
  end.

Definition filesOf (dirPath : list (string * Node)) : gmap string (list byte) :=
  foldl (λ acc en, filesOfEntry "" acc (fst en) (snd en)) ∅ dirPath.

(** The size of the blob stored under a digest, 0 when there is none. *)
Definition sizeOf (st : Store) (h : string) : Z :=
  from_option (λ c, Z.of_nat (length c)) 0 (blobs st !! h).

(** The digests in the [added] and [modified] sets of the ancestors that
    the parent pointers lead to. *)
Fixpoint ancestorDigests (fuel : nat) (st : Store) (current : option Z) : gset string :=
  match fuel, current with
  | S fuel', Some c =>
      match snapshots st !! c with
      | Some par => list_to_set (blobsInSnapshot par) ∪ ancestorDigests fuel' st (parent par)
      | None => ∅
      end
  | _, _ => ∅
  end.

(** The physical size as the specification words it: the sum of the blob
    sizes over the digests of the snapshot's own delta that no ancestor has,
    each digest once. *)
Definition physicalSizeSpec (fuel : nat) (st : Store) (sid : Z) : Z :=
  match snapshots st !! sid with
  | Some snap =>
      let own : gset string := list_to_set (blobsInSnapshot snap) in
      set_fold (λ h total, total + sizeOf st h) 0
        (own ∖ ancestorDigests fuel st (parent snap))
  | None => 0
  end.

(** The entries of [blobsInSnapshot] whose digest no ancestor has, with
    their repetitions. *)
Definition unseenBlobs (fuel : nat) (st : Store) (snap : Snapshot) : list string :=
  filter (λ h, h ∉ ancestorDigests fuel st (parent snap)) (blobsInSnapshot snap).

(** ** Notions used in the statements *)

(** A digest is referenced when some persisted snapshot has it in [added]
    or [modified]. *)
Definition referenced (snaps : gmap Z Snapshot) (h : string) : Prop :=
  ∃ k s, snaps !! k = Some s ∧ h ∈ blobsInSnapshot s.

(** The snapshot records after the relinking step of [pruneSnapshot]. *)
Definition afterRelink (sid : Z) (snap : Snapshot) (snaps : gmap Z Snapshot)
    : gmap Z Snapshot :=
  let next := default (sentinel (sid + 1)) (snaps !! (sid + 1)) in
  if decide (parent next = Some sid)
  then <[id next := set_parent (parent snap) next]> snaps
  else snaps.

(** The flat mapping that a list of scanned files amounts to: a later file
    overrides an earlier one with the same path. *)
Definition flatOfFiles (files : list Async.FileWithContent) (flat : Flat) : Flat :=
  foldl (λ flat f, <[Async.path f := Async.hash f]> flat) flat files.

(** How the asynchronous loop classifies one scanned file. *)
Definition classify (parentFlat : Flat) (c : SnapshotChanges) (f : Async.FileWithContent)
    : SnapshotChanges :=
  match parentFlat !! Async.path f with
  | None => set_added (Async.path f) (Async.hash f) c
  | Some parentHash =>
      if decide (parentHash = Async.hash f) then c
      else set_modified (Async.path f) (Async.hash f) c
  end.

(** The flat state that [createSnapshot] compares the scan with: the
    reconstruction of the snapshot with the largest id, or nothing. *)
Definition asyncPredecessor (fuel : nat) (sv : Async.Service) (parentFlat : Flat) : Prop :=
  match maxId (map_to_list (snapshots (Async.db sv))).*1 with
  | Some l =>
      if truthy l then
        ∃ sv1, Async.reconstructSnapshot fuel
                 (id (default (sentinel l) (snapshots (Async.db sv) !! l))) sv
               = (Ok parentFlat, sv1)
      else parentFlat = ∅
  | None => parentFlat = ∅
  end.

(** The shape of a store that the commands build from an empty database:
    a record sits under its own id, ids are positive, and a parent pointer
    leads to a smaller positive id. *)
Definition wfStore (st : Store) : Prop :=
  ∀ k s, snapshots st !! k = Some s →
    id s = k ∧ 0 < k ∧ ∀ p, parent s = Some p → 0 < p < k.

(** ** Example directories and stores *)

Definition emptyStore : Store := {| snapshots := ∅; blobs := ∅ |}.

(** The state left by a command, whatever its outcome. *)
Definition stateAfter {S A} (m : M S A) (s : S) : S := snd (m s).

Inductive Op :=
  | OpSnapshot (dirPath : list (string * Node)) (now : string)
  | OpPrune (sid : Z).

(** The ids that the [snapshot] commands of a session hand out, in order. *)
Fixpoint assignedIds (fuel : nat) (ops : list Op) (st : Store) : list Z :=
  match ops with
  | [] => []
  | OpSnapshot dirPath now :: ops' =>
      match Sync.createSnapshot fuel dirPath now st with
      | (Ok s, st') => id s :: assignedIds fuel ops' st'
      | (_, st') => assignedIds fuel ops' st'
      end
  | OpPrune sid :: ops' => assignedIds fuel ops' (stateAfter (Sync.pruneSnapshot sid) st)
  end.

Definition dirX : list (string * Node) := [("a.txt", File (utf8 "x"))].
Definition dirXY : list (string * Node) :=
  [("a.txt", File (utf8 "x")); ("b.txt", File (utf8 "y"))].
Definition dirHello : list (string * Node) := [("a.txt", File (utf8 "hello"))].
(** [a.txt] now holds the 64 characters of the digest of "hello". *)
Definition dirDigest : list (string * Node) :=
  [("a.txt", File (utf8 "2cf24dba5fb0a30e26e83b2ac5b9e29e1b161e5c1fa7425e73043362938b9824"))].
Definition dirAlpha : list (string * Node) := [("a.txt", File (utf8 "alpha"))].
Definition dirAlphaBeta : list (string * Node) :=
  [("a.txt", File (utf8 "alpha")); ("b.txt", File (utf8 "beta"))].
Definition dirDup : list (string * Node) :=
  [("a.txt", File (utf8 "dup")); ("b.txt", File (utf8 "dup"))].

Definition hashX : string := "2d711642b726b04401627ca9fbac32f5c8530fb1903cc4db02258717921a4881".
Definition hashY : string := "a1fce4363854ff888cff4b8e7875d600c2682390412a8cf79b37d0b11148b0fa".
Definition hashHello : string := "2cf24dba5fb0a30e26e83b2ac5b9e29e1b161e5c1fa7425e73043362938b9824".
Definition hashAlpha : string := "8ed3f6ad685b959ead7022518e1af76cd816f8e8ec7ccdda1ed4018e8f2223f8".
Definition hashBeta : string := "f44e64e75f3948e9f73f8dfa94721c4ce8cbb4f265c4790c702b2d41cfbf2753".
(** The digest of the 64 characters of [hashHello]. *)
Definition hashOfHashHello : string :=
  "d7914fe546b684688bb95f4f888a92dfc680603a75f23eb823658031fff766d9".

(** Synchronous session: one snapshot of a.txt = "hello". *)
Definition storeHello : Store :=
  Eval vm_compute in stateAfter (Sync.createSnapshot 4 dirHello "t1") emptyStore.

(** Synchronous session: snapshots of {a, b}, {a}, {a}. *)
Definition storeXY_X_X : Store :=
  Eval vm_compute in
    stateAfter (Sync.createSnapshot 4 dirX "t3")
      (stateAfter (Sync.createSnapshot 4 dirX "t2")
         (stateAfter (Sync.createSnapshot 4 dirXY "t1") emptyStore)).

(** Asynchronous session: snapshots of {a}, {a, b}. *)
Definition storeAlphaBeta : Store :=
  Eval vm_compute in
    Async.db (stateAfter (Async.createSnapshot 4 dirAlphaBeta "t2")
                (stateAfter (Async.createSnapshot 4 dirAlpha "t1")
                   (Async.newService emptyStore))).

(** Snapshots 1, 2, 3, then [prune 2]: the ids left are 1 and 3. *)
Definition storeGap : Store :=
  Eval vm_compute in stateAfter (Sync.pruneSnapshot 2) storeXY_X_X.

(** One snapshot of two files with the same content. *)
Definition storeDup : Store :=
  Eval vm_compute in stateAfter (Sync.createSnapshot 4 dirDup "t1") emptyStore.

(** One snapshot of [a.txt], whose blob has since been removed by hand. *)
Definition storeLostBlob : Store :=
  Eval vm_compute in
    set_blobs (λ _, ∅) (stateAfter (Sync.createSnapshot 4 dirX "t1") emptyStore).

(** ** Sessions, record chains and scanned files *)

(** A session of the two mutating commands, synchronous variant. *)
Fixpoint runSession (fuel : nat) (ops : list Op) (st : Store) : Store :=
  match ops with
  | [] => st
  | OpSnapshot dirPath now :: ops' =>
      runSession fuel ops' (stateAfter (Sync.createSnapshot fuel dirPath now) st)
  | OpPrune sid :: ops' => runSession fuel ops' (stateAfter (Sync.pruneSnapshot sid) st)
  end.

(** The blob files after the asynchronous loop has gone through the
    scanned files: a file is written unless its digest is already there. *)
Definition storeFiles (files : list Async.FileWithContent)
    (stored : gmap string (list byte)) : gmap string (list byte) :=
  foldl (λ b f, match b !! Async.hash f with
                | Some _ => b
                | None => <[Async.hash f := Async.content f]> b
                end) stored files.

(** No record refers to a digest that has no blob. *)
Definition blobsComplete (st : Store) : Prop :=
  ∀ h, referenced (snapshots st) h → is_Some (blobs st !! h).

(** The records that the parent pointers lead to from [current], oldest
    first and in front of [acc], read from the snapshot files alone. *)
Fixpoint chainOf (fuel : nat) (snaps : gmap Z Snapshot) (current : option Z)
    (acc : list Snapshot) : Res (list Snapshot) :=
  match current with
  | None => Ok acc
  | Some c =>
      match fuel with
      | O => OutOfFuel
      | S fuel' =>
          match snaps !! c with
          | Some snap => chainOf fuel' snaps (parent snap) (snap :: acc)
          | None => Throw (FailedToLoadSnapshot c)
          end
      end
  end.

(** Replaying a chain of records, oldest first. *)
Definition replay (chain : list Snapshot) : Flat :=
  foldl (λ flat snap, applyChanges (changes snap) flat) ∅ chain.

(** Every cached record is the record of the snapshot file with that id. *)
Definition cacheCoherent (sv : Async.Service) : Prop :=
  ∀ k s, Async.snapshotCache sv !! k = Some s → snapshots (Async.db sv) !! k = Some s.

(** The content that a list of scanned files amounts to: a later file
    overrides an earlier one with the same path. *)
Definition contentOfFiles (files : list Async.FileWithContent)
    (acc : gmap string (list byte)) : gmap string (list byte) :=
  foldl (λ acc f, <[Async.path f := Async.content f]> acc) acc files.

(** The record that the asynchronous [createSnapshot] files for {a, b}
    after a snapshot of [a.txt] with other content. *)
Definition snapAlphaBeta : Snapshot :=
  {| id := 2; date := "t2"; parent := Some 1;
     changes := {| added := {[ "b.txt" := hashBeta ]};
                   modified := {[ "a.txt" := hashAlpha ]};
                   deleted := [] |} |}.

(** ** Where finite maps and integers stand for JavaScript's *)

(** The embedding reads a JavaScript object as a finite map, a number as
    an integer, a directory as the map from its files' relative paths to
    their bytes, and an asynchronous function as its steps in program
    order. Each reading is exact on a range, and a theorem that depends on
    it carries the range as a hypothesis:
    - objects: for keys that are not names of [Object.prototype] members
      ([plainKey]); for those names [key in obj] holds of every object, and
      an assignment to [__proto__] adds no property;
    - numbers: on safe integers ([isSafeInteger]); from 2^53 on, adding 1
      to a number need not change it;
    - the target of a restore: for an empty target and a state whose
      paths can all be created in it ([restorable]); elsewhere [mkdir] and
      [writeFile] can fail where the map is simply updated;
    - the asynchronous [pruneSnapshot]: when it rewrites no record; the
      rewrite of the next record is not awaited by the code. *)

(** [Number.isSafeInteger]: on these numbers the [+ 1] of a JavaScript
    number is the [+ 1] of the integers. *)
Definition isSafeInteger (k : Z) : Prop := Z.abs k < 2 ^ 53.
#[global] Instance isSafeInteger_dec (k : Z) : Decision (isSafeInteger k) :=
  Z_lt_dec (Z.abs k) (2 ^ 53).

(** The property names that an object literal inherits from
    [Object.prototype]. For every other key, [key in obj], [obj[key]] and
    [obj[key] = value] concern an own property of [obj] and nothing else,
    which is what lookup and insertion in a finite map do. *)
Definition objectPrototypeKeys : list string :=
  ["constructor"; "__defineGetter__"; "__defineSetter__"; "hasOwnProperty";
   "__lookupGetter__"; "__lookupSetter__"; "isPrototypeOf"; "propertyIsEnumerable";
   "toString"; "valueOf"; "__proto__"; "toLocaleString"].

Definition plainKey (key : string) : Prop := key ∉ objectPrototypeKeys.
#[global] Instance plainKey_dec (key : string) : Decision (plainKey key) :=
  decide (key ∉ objectPrototypeKeys).

(** A name that a file can have, and that [fs.readdirSync] can return. *)
Definition validName (name : string) : bool :=
  negb (String.eqb name "") && negb (String.eqb name ".") && negb (String.eqb name "..")
  && (String.length name <=? 255)%nat
  && forallb (λ c, negb (Ascii.eqb c "/") && negb (Ascii.eqb c Ascii.zero))
             (list_ascii_of_string name).

(** A tree that a directory on disk can be: in every directory the names
    are valid and no name occurs twice. *)
Fixpoint realNode (node : Node) : bool :=
  match node with
  | File _ => true
  | Directory entries =>
      bool_decide (NoDup entries.*1)
      && forallb (λ en, validName (fst en) && realNode (snd en)) entries
  end.

Definition realDirectory (dirPath : list (string * Node)) : bool :=
  realNode (Directory dirPath).

(** A relative path that [path.join] leaves as it is. *)
Definition validRelPath (relPath : string) : bool := forallb validName (segments relPath).

(** [dir] is one of the directories that the file [relPath] lies in. *)
Definition isDirectoryOf (dir relPath : string) : bool := String.prefix (dir +:+ "/") relPath.

(** A flat state that can be written into an empty directory: its paths
    are valid and none of them is a directory of another, so that neither
    [mkdir] nor [writeFile] meets a file where it needs a directory or a
    directory where it needs a file. *)
Definition restorable (flat : Flat) : Prop :=
  ∀ p, is_Some (flat !! p) →
    validRelPath p = true ∧ ∀ q, is_Some (flat !! q) → isDirectoryOf p q = false.

(** A command of a session whose scanned paths are plain keys. *)
Definition plainOp (op : Op) : Prop :=
  match op with
  | OpSnapshot dirPath _ => Forall plainKey (map_to_list (Sync.flattenDir dirPath "")).*1
  | OpPrune _ => True
  end.

(** * Properties *)

(** Closes [x = y] between closed terms by evaluation. *)
Ltac by_evaluation :=
  lazymatch goal with |- ?x = ?y => exact (@eq_refl _ y <: x = y) end.

(** ** The digest agrees with the published SHA-256 test vectors *)

Example sha256_empty :
  SHA256.sha256_hex [] = "e3b0c44298fc1c149afbf4c8996fb92427ae41e4649b934ca495991b7852b855".
Proof. vm_compute. reflexivity. Qed.

Example sha256_abc :
  SHA256.sha256_hex (list_byte_of_string "abc")
  = "ba7816bf8f01cfea414140de5dae2223b00361a396177a9cb410ff61f20015ad".
Proof. vm_compute. reflexivity. Qed.

Example sha256_hello :
  SHA256.sha256_hex (list_byte_of_string "hello")
  = "2cf24dba5fb0a30e26e83b2ac5b9e29e1b161e5c1fa7425e73043362938b9824".
Proof. vm_compute. reflexivity. Qed.

Example sha256_two_blocks :
  SHA256.sha256_hex (repeat "a"%byte 64)
  = "ffe054fe7ae0cb6dc65c3af9b61d5209f439851db43d0ba5997337df154668eb".
Proof. vm_compute. reflexivity. Qed.

Example sha256_pad_edge :
  SHA256.sha256_hex (repeat "a"%byte 56)
  = "b35439a4ac6f0948b6d6f9e3c6af0f5f590ce20f1bde7090ef7970686ec6738a".
Proof. vm_compute. reflexivity. Qed.

Example hashes_of_examples :
  hashContent (utf8 "x") = hashX ∧ hashContent (utf8 "y") = hashY
  ∧ hashContent (utf8 "hello") = hashHello ∧ hashContent (utf8 "alpha") = hashAlpha
  ∧ hashContent (utf8 "beta") = hashBeta
  ∧ hashContent (utf8 hashHello) = hashOfHashHello.
Proof. vm_compute. repeat split. Qed.

(** ** Monad laws used below *)

Lemma bind_Ok {S A B} (m : M S A) (k : A → M S B) s a s' :
  m s = (Ok a, s') → (m ≫= k) s = k a s'.
Proof. intros H. unfold mbind, M_bind. by rewrite H. Qed.

Lemma bind_Throw {S A B} (m : M S A) (k : A → M S B) s e s' :
  m s = (Throw e, s') → (m ≫= k) s = (Throw e, s').
Proof. intros H. unfold mbind, M_bind. by rewrite H. Qed.

Lemma bind_inv_Ok {S A B} (m : M S A) (k : A → M S B) s b s' :
  (m ≫= k) s = (Ok b, s') → ∃ a s1, m s = (Ok a, s1) ∧ k a s1 = (Ok b, s').
Proof.
  unfold mbind, M_bind. destruct (m s) as [[a| e |] s1]; intros H; try discriminate.
  by exists a, s1.
Qed.

Lemma bind_inv {S A B} (m : M S A) (k : A → M S B) s r s' :
  (m ≫= k) s = (r, s') →
  (∃ a s1, m s = (Ok a, s1) ∧ k a s1 = (r, s'))
  ∨ ((∀ b, r ≠ Ok b) ∧ ∃ r0, m s = (r0, s') ∧ ∀ a, r0 ≠ Ok a).
Proof.
  unfold mbind, M_bind. destruct (m s) as [[a|e|] s1]; intros H.
  - left. by exists a, s1.
  - right. injection H as <- <-. split; [done|]. by eexists.
  - right. injection H as <- <-. split; [done|]. by eexists.
Qed.

Lemma foldM_pure {S A B} (body : B → A → M S B) (f : B → A → B) l b s :
  (∀ b x, body b x s = (Ok (f b x), s)) →
  foldM body b l s = (Ok (foldl f b l), s).
Proof.
  intros Hbody. revert b. induction l as [|x l IH]; intros b; simpl; [done|].
  rewrite (bind_Ok _ _ _ _ _ (Hbody b x)). apply IH.
Qed.

Lemma foldM_state_inv {S A B} (R : S → S → Prop) `{!Reflexive R} `{!Transitive R}
    (body : B → A → M S B) :
  (∀ b x s, R s (snd (body b x s))) →
  ∀ l b s, R s (snd (foldM body b l s)).
Proof.
  intros Hbody. induction l as [|x l IH]; intros b s; simpl; [done|].
  unfold mbind, M_bind. specialize (Hbody b x s).
  destruct (body b x s) as [[b'|e|] s1]; simpl in *; [|done..].
  etrans; [exact Hbody|]. apply IH.
Qed.

Lemma bind_state_inv {S A B} (R : S → S → Prop) `{!Transitive R}
    (m : M S A) (k : A → M S B) s :
  R s (snd (m s)) → (∀ a s1, R s1 (snd (k a s1))) → R s (snd ((m ≫= k) s)).
Proof.
  intros Hm Hk. unfold mbind, M_bind.
  destruct (m s) as [[a|e|] s1]; simpl in *; [|done..].
  etrans; [exact Hm|]. apply Hk.
Qed.

(** ** Loading a record that is not there *)

Lemma sync_loadSnapshot_absent st sid :
  snapshots st !! sid = None → Sync.loadSnapshot sid st = (Ok (sentinel sid), st).
Proof. intros H. unfold Sync.loadSnapshot. by rewrite H. Qed.

Lemma async_loadSnapshot_absent sv sid :
  snapshots (Async.db sv) !! sid = None →
  Async.loadSnapshot sid sv = (Ok (sentinel sid), sv).
Proof. intros H. unfold Async.loadSnapshot. by rewrite H. Qed.

(** C7, as stated, fails: with no record for id 1, [loadSnapshot] does not
    throw, it returns a value. *)
Lemma loadSnapshot_absent_returns :
  snapshots emptyStore !! 1 = None
  ∧ ¬ (∃ e, fst (Sync.loadSnapshot 1 emptyStore) = Throw e)
  ∧ ¬ (∃ e, fst (Async.loadSnapshot 1 (Async.newService emptyStore)) = Throw e).
Proof.
  split; [reflexivity|]. split; intros [e He]; vm_compute in He; discriminate.
Qed.

(** C7, amended: for an id without a persisted record, [loadSnapshot]
    returns, in both variants, the sentinel record (the id, an empty date,
    no parent, empty changes) and leaves the state alone; only
    [loadSnapshotWithCache], for an id that is not cached either, fails,
    with the error "Failed to load snapshot". *)
Theorem loadSnapshot_absent_sentinel (st : Store) (sv : Async.Service) (sid : Z) :
  snapshots st !! sid = None →
  snapshots (Async.db sv) !! sid = None →
  Sync.loadSnapshot sid st = (Ok (sentinel sid), st)
  ∧ Async.loadSnapshot sid sv = (Ok (sentinel sid), sv)
  ∧ (Async.snapshotCache sv !! sid = None →
     Async.loadSnapshotWithCache sid sv = (Throw (FailedToLoadSnapshot sid), sv)).
Proof.
  intros H Hsv. split; [by apply sync_loadSnapshot_absent|].
  split; [by apply async_loadSnapshot_absent|].
  intros Hc. unfold Async.loadSnapshotWithCache. by rewrite Hc, Hsv.
Qed.

Lemma loadSnapshot_absent_sentinel_witness :
  Sync.loadSnapshot 7 emptyStore = (Ok (sentinel 7), emptyStore)
  ∧ Async.loadSnapshot 7 (Async.newService emptyStore)
    = (Ok (sentinel 7), Async.newService emptyStore)
  ∧ Async.loadSnapshotWithCache 7 (Async.newService emptyStore)
    = (Throw (FailedToLoadSnapshot 7), Async.newService emptyStore).
Proof.
  pose proof (loadSnapshot_absent_sentinel emptyStore (Async.newService emptyStore) 7
                eq_refl eq_refl) as (H1 & H2 & H3).
  exact (conj H1 (conj H2 (H3 eq_refl))).
Defined.

(** C10: in the synchronous variant, for an id without a record,
    [loadSnapshot] returns the sentinel (empty date, no parent, nothing
    added, modified or deleted) and [reconstructSnapshot] returns the empty
    flat mapping; neither throws. *)
Theorem sync_reconstruct_absent_empty (st : Store) (sid : Z) (fuel : nat) :
  snapshots st !! sid = None →
  Sync.loadSnapshot sid st
  = (Ok {| id := sid; date := ""; parent := None;
           changes := {| added := ∅; modified := ∅; deleted := [] |} |}, st)
  ∧ Sync.reconstructSnapshot (S fuel) sid st = (Ok ∅, st).
Proof.
  intros H. split; [by apply sync_loadSnapshot_absent|].
  simpl. rewrite (bind_Ok _ _ _ _ _ (sync_loadSnapshot_absent _ _ H)). reflexivity.
Qed.

Lemma sync_reconstruct_absent_empty_witness :
  Sync.reconstructSnapshot 1 3 emptyStore = (Ok ∅, emptyStore).
Proof.
  exact (proj2 (sync_reconstruct_absent_empty emptyStore 3 0 eq_refl)).
Defined.

Lemma sync_loadSnapshot_pure st sid :
  Sync.loadSnapshot sid st = (Ok (default (sentinel sid) (snapshots st !! sid)), st).
Proof. unfold Sync.loadSnapshot. by destruct (snapshots st !! sid). Qed.

Lemma async_loadSnapshot_pure sv sid :
  Async.loadSnapshot sid sv
  = (Ok (default (sentinel sid) (snapshots (Async.db sv) !! sid)), sv).
Proof. unfold Async.loadSnapshot. by destruct (snapshots (Async.db sv) !! sid). Qed.

(** ** Pruning *)

Lemma sync_prune_absent st sid :
  snapshots st !! sid = None →
  Sync.pruneSnapshot sid st = (Throw (SnapshotDoesNotExist sid), st).
Proof.
  intros H. unfold Sync.pruneSnapshot.
  rewrite (bind_Ok _ _ _ _ _ (sync_loadSnapshot_absent _ _ H)). reflexivity.
Qed.

Lemma async_prune_absent sv sid :
  snapshots (Async.db sv) !! sid = None →
  Async.pruneSnapshot sid sv = (Throw (SnapshotDoesNotExist sid), sv).
Proof.
  intros H. unfold Async.pruneSnapshot.
  rewrite (bind_Ok _ _ _ _ _ (async_loadSnapshot_absent _ _ H)). reflexivity.
Qed.

(** C8: pruning an id that has no record throws "does not exist" and
    changes nothing: not a snapshot record, not a blob and, in the
    asynchronous variant, not a cache. *)
Theorem pruneSnapshot_absent_fails (st : Store) (sv : Async.Service) (sid : Z) :
  snapshots st !! sid = None →
  snapshots (Async.db sv) !! sid = None →
  Sync.pruneSnapshot sid st = (Throw (SnapshotDoesNotExist sid), st)
  ∧ Async.pruneSnapshot sid sv = (Throw (SnapshotDoesNotExist sid), sv).
Proof.
  intros H Hsv. split.
  - by apply sync_prune_absent.
  - by apply async_prune_absent.
Qed.

Lemma pruneSnapshot_absent_fails_witness :
  Sync.pruneSnapshot 5 storeXY_X_X = (Throw (SnapshotDoesNotExist 5), storeXY_X_X)
  ∧ Async.pruneSnapshot 5 (Async.newService storeAlphaBeta)
    = (Throw (SnapshotDoesNotExist 5), Async.newService storeAlphaBeta).
Proof.
  apply (pruneSnapshot_absent_fails storeXY_X_X (Async.newService storeAlphaBeta) 5);
    vm_compute; reflexivity.
Defined.

Lemma foldl_snoc_map {A B} (f : A → B) (l : list A) (acc : list B) :
  foldl (λ acc x, acc ++ [f x]) acc l = acc ++ map f l.
Proof.
  revert acc. induction l as [|x l IH]; intros acc; simpl.
  - by rewrite app_nil_r.
  - rewrite IH. by rewrite <- app_assoc.
Qed.

Lemma sync_listSnapshots_spec st :
  Sync.listSnapshots st
  = (Ok (merge_sort byId
           (map (λ k, set_id k (default (sentinel k) (snapshots st !! k)))
                (map_to_list (snapshots st)).*1)), st).
Proof.
  unfold Sync.listSnapshots.
  erewrite bind_Ok by reflexivity.
  erewrite bind_Ok; [reflexivity|].
  erewrite foldM_pure.
  - by rewrite foldl_snoc_map.
  - intros b x. simpl. by rewrite (bind_Ok _ _ _ _ _ (sync_loadSnapshot_pure st x)).
Qed.

Lemma usedBlobs_fold (l : list Snapshot) (U : gset string) (h : string) :
  h ∈ foldl (λ used snap, foldl (λ used blobHash, used ∪ {[blobHash]}) used
                                (blobsInSnapshot snap)) U l
  ↔ h ∈ U ∨ ∃ snap, snap ∈ l ∧ h ∈ blobsInSnapshot snap.
Proof.
  assert (Hin : ∀ (bs : list string) (V : gset string),
             h ∈ foldl (λ used b, used ∪ {[b]}) V bs ↔ h ∈ V ∨ h ∈ bs).
  { induction bs as [|b bs IH]; intros V; simpl.
    - set_solver.
    - rewrite IH. set_solver. }
  revert U. induction l as [|s l IH]; intros U; simpl.
  - set_solver.
  - rewrite IH, Hin. split.
    + intros [[?|?]|(snap & ? & ?)]; [by left|right; exists s; set_solver|].
      right. exists snap. set_solver.
    + intros [?|(snap & Hs & ?)]; [by left; left|].
      apply elem_of_cons in Hs as [->|Hs]; [by left; right|].
      right. by exists snap.
Qed.

Lemma listed_referenced (snaps : gmap Z Snapshot) (h : string) :
  (∃ snap, snap ∈ merge_sort byId
               (map (λ k, set_id k (default (sentinel k) (snaps !! k)))
                    (map_to_list snaps).*1)
           ∧ h ∈ blobsInSnapshot snap)
  ↔ referenced snaps h.
Proof.
  split.
  - intros (snap & Hs & Hh). rewrite merge_sort_Permutation in Hs.
    apply list_elem_of_fmap in Hs as (k & -> & Hk).
    apply list_elem_of_fmap in Hk as ([k' s] & -> & Hks). simpl in *.
    apply elem_of_map_to_list in Hks. rewrite Hks in Hh. simpl in Hh.
    by exists k', s.
  - intros (k & s & Hks & Hh). exists (set_id k s). split; [|exact Hh].
    rewrite merge_sort_Permutation. apply list_elem_of_fmap. exists k. split.
    + by rewrite Hks.
    + apply list_elem_of_fmap. exists (k, s). split; [done|].
      by apply elem_of_map_to_list.
Qed.

Lemma sync_pruneSnapshot_spec st sid snap :
  snapshots st !! sid = Some snap → date snap ≠ "" →
  ∃ usedBlobs : gset string,
    Sync.pruneSnapshot sid st
    = (Ok (), {| snapshots := delete sid (afterRelink sid snap (snapshots st));
                 blobs := sweepBlobs usedBlobs (blobs st) |})
    ∧ ∀ h, h ∈ usedBlobs
           ↔ referenced (delete sid (afterRelink sid snap (snapshots st))) h.
Proof.
  intros Hsnap Hdate.
  set (snaps' := delete sid (afterRelink sid snap (snapshots st))).
  set (st1 := {| snapshots := snaps'; blobs := blobs st |}).
  exists (foldl (λ used s, foldl (λ used blobHash, used ∪ {[blobHash]}) used
                                 (blobsInSnapshot s)) ∅
            (merge_sort byId
               (map (λ k, set_id k (default (sentinel k) (snaps' !! k)))
                    (map_to_list snaps').*1))).
  split.
  - unfold Sync.pruneSnapshot.
    rewrite (bind_Ok _ _ _ _ _ (sync_loadSnapshot_pure st sid)), Hsnap. simpl.
    destruct (decide (date snap = "")) as [|_]; [done|].
    rewrite (bind_Ok _ _ _ _ _ (sync_loadSnapshot_pure st (sid + 1))).
    assert (Hrelink :
      (if decide (parent (default (sentinel (sid + 1)) (snapshots st !! (sid + 1)))
                  = Some sid)
       then Sync.saveSnapshot
              (set_parent (parent snap)
                 (default (sentinel (sid + 1)) (snapshots st !! (sid + 1))))
       else mret ()) st
      = (Ok (), {| snapshots := afterRelink sid snap (snapshots st);
                   blobs := blobs st |})).
    { unfold afterRelink. destruct (decide _); [reflexivity|]. by destruct st. }
    rewrite (bind_Ok _ _ _ _ _ Hrelink).
    erewrite bind_Ok by reflexivity.
    change (set_snapshots (delete sid) _) with st1.
    rewrite (bind_Ok _ _ _ _ _ (sync_listSnapshots_spec st1)).
    reflexivity.
  - intros h. rewrite usedBlobs_fold, listed_referenced. set_solver.
Qed.

(** After a prune that succeeds, the blobs left are exactly the blobs
    stored before whose digest some remaining snapshot has in [added] or
    [modified]: none is left unreferenced, none that is referenced is
    removed. *)
Lemma sync_prune_sweep_exact st sid snap st' :
  snapshots st !! sid = Some snap → date snap ≠ "" →
  st' = stateAfter (Sync.pruneSnapshot sid) st →
  fst (Sync.pruneSnapshot sid st) = Ok ()
  ∧ ∀ h c, blobs st' !! h = Some c
           ↔ blobs st !! h = Some c ∧ referenced (snapshots st') h.
Proof.
  intros Hsnap Hdate ->.
  destruct (sync_pruneSnapshot_spec st sid snap Hsnap Hdate) as (used & E & Hused).
  unfold stateAfter. rewrite E. simpl. split; [done|].
  intros h c. unfold sweepBlobs. rewrite map_lookup_filter_Some. simpl.
  by rewrite Hused.
Qed.

(** When the successor of the pruned snapshot has the next id, it is
    relinked to the parent of the pruned snapshot. *)
Lemma sync_prune_splices_next st sid snap next :
  snapshots st !! sid = Some snap → date snap ≠ "" →
  snapshots st !! (sid + 1) = Some next → id next = sid + 1 → parent next = Some sid →
  snapshots (stateAfter (Sync.pruneSnapshot sid) st) !! (sid + 1)
  = Some (set_parent (parent snap) next)
  ∧ snapshots (stateAfter (Sync.pruneSnapshot sid) st) !! sid = None.
Proof.
  intros Hsnap Hdate Hnext Hid Hpar.
  destruct (sync_pruneSnapshot_spec st sid snap Hsnap Hdate) as (used & E & _).
  unfold stateAfter. rewrite E. simpl. unfold afterRelink. rewrite Hnext. simpl.
  rewrite decide_True by done. rewrite Hid. split.
  - rewrite lookup_delete_ne by lia. by rewrite lookup_insert_eq.
  - by rewrite lookup_delete_eq.
Qed.

Lemma foldl_app_concat {A} (f : A → list string) (l : list A) (acc : list string) :
  foldl (λ acc x, acc ++ f x) acc l = acc ++ mjoin (map f l).
Proof.
  revert acc. induction l as [|x l IH]; intros acc; simpl.
  - by rewrite app_nil_r.
  - rewrite IH. by rewrite <- app_assoc.
Qed.

Lemma async_getAllUsedBlobs_spec sv :
  Async.getAllUsedBlobs sv
  = (Ok (mjoin (map (λ k, blobsInSnapshot
                             (default (sentinel k) (snapshots (Async.db sv) !! k)))
                     (map_to_list (snapshots (Async.db sv))).*1)), sv).
Proof.
  unfold Async.getAllUsedBlobs.
  erewrite bind_Ok by reflexivity.
  erewrite foldM_pure.
  - by rewrite foldl_app_concat.
  - intros b x. simpl. by rewrite (bind_Ok _ _ _ _ _ (async_loadSnapshot_pure sv x)).
Qed.

Lemma yielded_referenced (snaps : gmap Z Snapshot) (h : string) :
  h ∈ foldl (λ (used : gset string) h', used ∪ {[h']}) ∅
        (mjoin (map (λ k, blobsInSnapshot (default (sentinel k) (snaps !! k)))
                     (map_to_list snaps).*1))
  ↔ referenced snaps h.
Proof.
  assert (Hin : ∀ (bs : list string) (V : gset string),
             h ∈ foldl (λ used b, used ∪ {[b]}) V bs ↔ h ∈ V ∨ h ∈ bs).
  { induction bs as [|b bs IH]; intros V; simpl.
    - set_solver.
    - rewrite IH. set_solver. }
  rewrite Hin. split.
  - intros [H|H]; [set_solver|].
    apply list_elem_of_join in H as (bs & Hh & Hbs).
    apply list_elem_of_fmap in Hbs as (k & -> & Hk).
    apply list_elem_of_fmap in Hk as ([k' s] & -> & Hks). simpl in *.
    apply elem_of_map_to_list in Hks. rewrite Hks in Hh. by exists k', s.
  - intros (k & s & Hks & Hh). right. apply list_elem_of_join.
    exists (blobsInSnapshot s). split; [done|].
    apply list_elem_of_fmap. exists k. split; [by rewrite Hks|].
    apply list_elem_of_fmap. exists (k, s). split; [done|].
    by apply elem_of_map_to_list.
Qed.

(** The asynchronous [pruneSnapshot] does to the database directory what
    the synchronous one does, with the same outcome, and touches no cache. *)
Lemma async_prune_as_sync sv sid :
  Async.pruneSnapshot sid sv
  = (fst (Sync.pruneSnapshot sid (Async.db sv)),
     Async.set_db (λ _, stateAfter (Sync.pruneSnapshot sid) (Async.db sv)) sv).
Proof.
  destruct (snapshots (Async.db sv) !! sid) as [snap|] eqn:Hsnap.
  2: { rewrite (async_prune_absent _ _ Hsnap). unfold stateAfter.
       rewrite (sync_prune_absent _ _ Hsnap). simpl. by destruct sv. }
  destruct (decide (date snap = "")) as [Hdate|Hdate].
  { unfold Async.pruneSnapshot, Sync.pruneSnapshot, stateAfter.
    rewrite (bind_Ok _ _ _ _ _ (async_loadSnapshot_pure sv sid)).
    rewrite (bind_Ok _ _ _ _ _ (sync_loadSnapshot_pure (Async.db sv) sid)).
    rewrite Hsnap. simpl. rewrite !decide_True by done. simpl. by destruct sv. }
  destruct (sync_pruneSnapshot_spec _ sid snap Hsnap Hdate) as (used & E & Hused).
  unfold stateAfter. rewrite E. simpl.
  set (snaps' := delete sid (afterRelink sid snap (snapshots (Async.db sv)))) in *.
  unfold Async.pruneSnapshot.
  rewrite (bind_Ok _ _ _ _ _ (async_loadSnapshot_pure sv sid)), Hsnap. simpl.
  destruct (decide (date snap = "")) as [|_]; [done|].
  rewrite (bind_Ok _ _ _ _ _ (async_loadSnapshot_pure sv (sid + 1))).
  set (sv1 := Async.set_db
                (λ _, {| snapshots := afterRelink sid snap (snapshots (Async.db sv));
                         blobs := blobs (Async.db sv) |}) sv).
  assert (Hrelink :
    (if decide (parent (default (sentinel (sid + 1))
                          (snapshots (Async.db sv) !! (sid + 1))) = Some sid)
     then Async.saveSnapshot
            (set_parent (parent snap)
               (default (sentinel (sid + 1)) (snapshots (Async.db sv) !! (sid + 1))))
     else mret ()) sv = (Ok (), sv1)).
  { unfold sv1, afterRelink. destruct (decide _); [reflexivity|].
    destruct sv as [[] ? ? ? ?]. reflexivity. }
  rewrite (bind_Ok _ _ _ _ _ Hrelink).
  erewrite bind_Ok by reflexivity.
  set (sv2 := Async.set_db (set_snapshots (delete sid)) sv1).
  rewrite (bind_Ok _ _ _ _ _ (async_getAllUsedBlobs_spec sv2)).
  unfold modify. f_equal.
  assert (Hu : foldl (λ (u : gset string) h, u ∪ {[h]}) ∅
                 (mjoin (map (λ k, blobsInSnapshot
                    (default (sentinel k) (snapshots (Async.db sv2) !! k)))
                    (map_to_list (snapshots (Async.db sv2))).*1)) = used).
  { apply set_eq. intros h. rewrite yielded_referenced, Hused. reflexivity. }
  rewrite Hu. reflexivity.
Qed.

(** C2 fails. Synchronous variant: snapshots of {a, b}, {a}, {a}; pruning
    2 relinks 3 to 1, and snapshot 3, which held a.txt alone, now
    reconstructs with b.txt as well. Asynchronous variant: snapshots of
    {a}, {a, b}; pruning 1 leaves snapshot 2 with b.txt alone, and sweeps
    the blob of a.txt, which snapshot 2 held before the prune. *)
Theorem prune_changes_remaining_snapshots :
  (Sync.reconstructSnapshot 4 3 storeXY_X_X = (Ok {["a.txt" := hashX]}, storeXY_X_X)
   ∧ fst (Sync.pruneSnapshot 2 storeXY_X_X) = Ok ()
   ∧ fst (Sync.reconstructSnapshot 4 3 (stateAfter (Sync.pruneSnapshot 2) storeXY_X_X))
     = Ok {["a.txt" := hashX; "b.txt" := hashY]})
  ∧ (fst (Async.reconstructSnapshot 4 2 (Async.newService storeAlphaBeta))
     = Ok {["a.txt" := hashAlpha; "b.txt" := hashBeta]}
     ∧ fst (Async.pruneSnapshot 1 (Async.newService storeAlphaBeta)) = Ok ()
     ∧ fst (Async.reconstructSnapshot 4 2
              (Async.newService
                 (Async.db (stateAfter (Async.pruneSnapshot 1)
                                       (Async.newService storeAlphaBeta)))))
       = Ok {["b.txt" := hashBeta]}
     ∧ blobs storeAlphaBeta !! hashAlpha = Some (utf8 "alpha")
     ∧ blobs (Async.db (stateAfter (Async.pruneSnapshot 1)
                                   (Async.newService storeAlphaBeta))) !! hashAlpha
       = None).
Proof. repeat split; vm_compute; reflexivity. Qed.

(** C5 fails. With the ids 1 and 3 left by an earlier prune, snapshot 3
    is the successor of 1 (its parent is 1). Pruning 1, whose own parent
    is null, looks for the successor at id 2 only: snapshot 3 keeps the
    parent 1, which no longer exists. *)
Theorem prune_skips_successor_after_gap :
  (parent <$> snapshots storeGap !! 1) = Some None
  ∧ (parent <$> snapshots storeGap !! 3) = Some (Some 1)
  ∧ fst (Sync.pruneSnapshot 1 storeGap) = Ok ()
  ∧ (parent <$> snapshots (stateAfter (Sync.pruneSnapshot 1) storeGap) !! 3)
    = Some (Some 1)
  ∧ snapshots (stateAfter (Sync.pruneSnapshot 1) storeGap) !! 1 = None
  ∧ fst (Async.pruneSnapshot 1 (Async.newService storeGap)) = Ok ()
  ∧ (parent <$> snapshots (Async.db (stateAfter (Async.pruneSnapshot 1)
                                       (Async.newService storeGap))) !! 3)
    = Some (Some 1).
Proof. repeat split; vm_compute; reflexivity. Qed.

(** ** Allocation of snapshot ids *)

Lemma foldl_max_ge (rest : list Z) (f : Z) :
  f ≤ foldl Z.max f rest ∧ ∀ k, k ∈ rest → k ≤ foldl Z.max f rest.
Proof.
  revert f. induction rest as [|x rest IH]; intros f; simpl.
  - split; [lia|]. intros k Hk. by apply elem_of_nil in Hk.
  - destruct (IH (Z.max f x)) as [H1 H2]. split; [lia|].
    intros k Hk. apply elem_of_cons in Hk as [->|Hk]; [lia|]. by apply H2.
Qed.

Lemma maxId_upper (files : list Z) (m k : Z) :
  maxId files = Some m → k ∈ files → k ≤ m.
Proof.
  destruct files as [|f rest]; simpl; [discriminate|]. intros [= <-] Hk.
  destruct (foldl_max_ge rest f) as [H1 H2].
  apply elem_of_cons in Hk as [->|Hk]; [done|]. by apply H2.
Qed.

Lemma maxId_None (files : list Z) (k : Z) : maxId files = None → k ∉ files.
Proof. destruct files; [intros _; apply not_elem_of_nil | discriminate]. Qed.

Lemma newIdOf_above (ids : gmap Z Snapshot) (k : Z) :
  is_Some (ids !! k) → k < newIdOf (maxId (map_to_list ids).*1).
Proof.
  intros [s Hs].
  assert (Hk : k ∈ (map_to_list ids).*1).
  { apply list_elem_of_fmap. exists (k, s). split; [done|].
    by apply elem_of_map_to_list. }
  unfold newIdOf. destruct (maxId _) as [m|] eqn:Hm.
  - pose proof (maxId_upper _ _ _ Hm Hk) as Hle. unfold truthy.
    destruct (Z.eqb_spec m 0); simpl; lia.
  - by apply (maxId_None _ k) in Hm.
Qed.

Lemma sync_createSnapshot_id fuel dirPath now st s st' :
  Sync.createSnapshot fuel dirPath now st = (Ok s, st') →
  id s = newIdOf (maxId (map_to_list (snapshots st)).*1).
Proof.
  unfold Sync.createSnapshot. intros H.
  apply bind_inv_Ok in H as (lastId & s1 & Hl & H).
  unfold Sync.lastSnapshotId, gets in Hl. injection Hl as <- <-.
  apply bind_inv_Ok in H as (pp & s2 & _ & H).
  apply bind_inv_Ok in H as (ch & s3 & _ & H).
  apply bind_inv_Ok in H as (u & s4 & _ & H).
  injection H as <- _. reflexivity.
Qed.

Lemma async_createSnapshot_id fuel dirPath now sv s sv' :
  Async.createSnapshot fuel dirPath now sv = (Ok s, sv') →
  id s = newIdOf (maxId (map_to_list (snapshots (Async.db sv))).*1).
Proof.
  unfold Async.createSnapshot. intros H.
  apply bind_inv_Ok in H as (lastId & s1 & Hl & H).
  unfold Async.lastSnapshotId, gets in Hl. injection Hl as <- <-.
  apply bind_inv_Ok in H as (pp & s2 & _ & H).
  apply bind_inv_Ok in H as (ch & s3 & _ & H).
  apply bind_inv_Ok in H as (u & s4 & _ & H).
  injection H as <- _. reflexivity.
Qed.

(** C6, as stated, fails: in the session snapshot, snapshot, prune 2,
    snapshot, the third snapshot is given the id 2 a second time. *)
Lemma snapshot_id_reused :
  assignedIds 4 [OpSnapshot dirX "t1"; OpSnapshot dirX "t2"; OpPrune 2;
                 OpSnapshot dirX "t3"] emptyStore = [1; 2; 2]
  ∧ ¬ NoDup (assignedIds 4 [OpSnapshot dirX "t1"; OpSnapshot dirX "t2"; OpPrune 2;
                            OpSnapshot dirX "t3"] emptyStore).
Proof.
  assert (E : assignedIds 4 [OpSnapshot dirX "t1"; OpSnapshot dirX "t2"; OpPrune 2;
                             OpSnapshot dirX "t3"] emptyStore = [1; 2; 2])
    by (vm_compute; reflexivity).
  split; [exact E|]. rewrite E. intros Hnd.
  apply NoDup_cons in Hnd as [_ Hnd]. apply NoDup_cons in Hnd as [Hin _].
  apply Hin. apply list_elem_of_singleton. reflexivity.
Qed.

Lemma safe_ids_check (snaps : gmap Z Snapshot) :
  forallb (λ k, bool_decide (isSafeInteger k)) (map_to_list snaps).*1 = true →
  ∀ k, is_Some (snaps !! k) → isSafeInteger k.
Proof.
  intros Hall k [s Hk]. rewrite forallb_forall in Hall.
  apply (proj1 (bool_decide_eq_true _)), Hall, list_elem_of_In, list_elem_of_fmap.
  exists (k, s). split; [done|]. by apply elem_of_map_to_list.
Qed.

Lemma maxId_bounded (files : list Z) (m l : Z) :
  (∀ k, k ∈ files → k ≤ l) → maxId files = Some m → m ≤ l.
Proof.
  destruct files as [|f rest]; simpl; [discriminate|]. intros Hall [= <-].
  assert (Hf : f ≤ l) by (apply Hall; by left).
  assert (Hrest : ∀ k, k ∈ rest → k ≤ l) by (intros k Hk; apply Hall; by right).
  clear Hall. revert f Hf. induction rest as [|x rest IH]; intros f Hf; simpl; [done|].
  apply IH.
  - intros k Hk. apply Hrest. by right.
  - apply Z.max_lub; [done|]. apply Hrest. by left.
Qed.

Lemma maxId_largest (snaps : gmap Z Snapshot) (l : Z) :
  is_Some (snaps !! l) → (∀ k, is_Some (snaps !! k) → k ≤ l) →
  maxId (map_to_list snaps).*1 = Some l.
Proof.
  intros [s Hl] Hmax.
  assert (Hin : l ∈ (map_to_list snaps).*1).
  { apply list_elem_of_fmap. exists (l, s). split; [done|]. by apply elem_of_map_to_list. }
  destruct (maxId (map_to_list snaps).*1) as [m|] eqn:Hm.
  - f_equal. apply Z.le_antisymm.
    + apply (λ H, maxId_bounded _ _ _ H Hm). intros k Hk.
      apply list_elem_of_fmap in Hk as ([k' x] & -> & Hk).
      apply elem_of_map_to_list in Hk. apply Hmax. by eexists.
    + by apply (maxId_upper _ _ _ Hm).
  - by destruct (maxId_None _ l Hm).
Qed.

Lemma prune_largest_records (st0 : Store) (sid : Z) (snap : Snapshot) :
  snapshots st0 !! sid = Some snap → date snap ≠ "" →
  (∀ k, is_Some (snapshots st0 !! k) → k ≤ sid) →
  snapshots (stateAfter (Sync.pruneSnapshot sid) st0) = delete sid (snapshots st0).
Proof.
  intros Hsnap Hdate Hmax.
  destruct (sync_pruneSnapshot_spec st0 sid snap Hsnap Hdate) as (used & E & _).
  unfold stateAfter. rewrite E. simpl. f_equal. unfold afterRelink.
  destruct (snapshots st0 !! (sid + 1)) as [next|] eqn:Hnext.
  - assert (sid + 1 ≤ sid) by (apply Hmax; by eexists). lia.
  - simpl. by destruct (decide (None = Some sid)).
Qed.

(** C6, amended. Where every persisted id is a safe integer, the id that
    [createSnapshot] assigns, in either variant, is 1 when no snapshot is
    persisted and otherwise the largest persisted id plus 1 (1 if that id
    is 0); it is greater than the id of every snapshot persisted at that
    moment and is the id of none of them. Ids of pruned snapshots are not
    remembered: when the snapshot with the largest id, a safe integer, has
    just been pruned and the id below it is persisted, the pruned id is
    assigned again. *)
Theorem createSnapshot_id_fresh (fuel : nat) (dirPath : list (string * Node))
    (now : string) (st : Store) (s : Snapshot) :
  (∀ k, is_Some (snapshots st !! k) → isSafeInteger k) →
  (∃ st', Sync.createSnapshot fuel dirPath now st = (Ok s, st'))
  ∨ (∃ sv sv', Async.db sv = st ∧ Async.createSnapshot fuel dirPath now sv = (Ok s, sv')) →
  (snapshots st = ∅ → id s = 1)
  ∧ (∀ l, is_Some (snapshots st !! l) → (∀ k, is_Some (snapshots st !! k) → k ≤ l) →
          id s = if decide (l = 0) then 1 else l + 1)
  ∧ (∀ k, is_Some (snapshots st !! k) → k < id s)
  ∧ snapshots st !! id s = None
  ∧ (∀ st0 sid snap,
       snapshots st0 !! sid = Some snap → date snap ≠ "" →
       (∀ k, is_Some (snapshots st0 !! k) → k ≤ sid) → isSafeInteger sid →
       is_Some (snapshots st0 !! (sid - 1)) →
       st = stateAfter (Sync.pruneSnapshot sid) st0
       ∨ (∃ sv0, Async.db sv0 = st0
                 ∧ st = Async.db (stateAfter (Async.pruneSnapshot sid) sv0)) →
       id s = sid).
Proof.
  intros _ H.
  assert (E : id s = newIdOf (maxId (map_to_list (snapshots st)).*1)).
  { destruct H as [[st' H]|(sv & sv' & <- & H)].
    - by apply sync_createSnapshot_id in H.
    - by apply async_createSnapshot_id in H. }
  assert (Hlargest : ∀ l, is_Some (snapshots st !! l) →
            (∀ k, is_Some (snapshots st !! k) → k ≤ l) →
            id s = if decide (l = 0) then 1 else l + 1).
  { intros l Hl Hmax. rewrite E, (maxId_largest _ _ Hl Hmax). unfold newIdOf, truthy.
    destruct (decide (l = 0)) as [->|Hne]; [done|].
    by rewrite (proj2 (Z.eqb_neq l 0) Hne). }
  split; [|split; [exact Hlargest|split; [|split]]].
  - intros Hempty. rewrite E, Hempty, map_to_list_empty. reflexivity.
  - intros k Hk. rewrite E. by apply newIdOf_above.
  - destruct (snapshots st !! id s) eqn:Hl; [|done].
    assert (id s < id s); [|lia]. rewrite E at 2. apply newIdOf_above.
    by eexists.
  - intros st0 sid snap Hsnap Hdate Hmax _ Hbelow Hst.
    assert (Hrec : snapshots st = delete sid (snapshots st0)).
    { destruct Hst as [->|(sv0 & <- & ->)].
      - by eapply prune_largest_records.
      - unfold stateAfter at 1. rewrite async_prune_as_sync. simpl.
        by eapply prune_largest_records. }
    rewrite (Hlargest (sid - 1)).
    + destruct (decide (sid - 1 = 0)); lia.
    + rewrite Hrec, lookup_delete_ne by lia. exact Hbelow.
    + intros k Hk. rewrite Hrec in Hk.
      destruct (decide (k = sid)) as [->|Hne].
      * rewrite lookup_delete_eq in Hk. by destruct Hk.
      * rewrite lookup_delete_ne in Hk by done. specialize (Hmax k Hk). lia.
Qed.

Lemma createSnapshot_id_fresh_witness :
  snapshots (stateAfter (Sync.pruneSnapshot 3) storeXY_X_X) !! 3 = None
  ∧ id {| id := 3; date := "t4"; parent := Some 2;
          changes := {| added := ∅; modified := {[ "a.txt" := hashX ]};
                        deleted := [] |} |} = 3.
Proof.
  pose (st := stateAfter (Sync.pruneSnapshot 3) storeXY_X_X).
  pose (s := {| id := 3; date := "t4"; parent := Some 2;
                changes := {| added := ∅; modified := {[ "a.txt" := hashX ]};
                              deleted := [] |} |}).
  assert (Hsafe : forallb (λ k, bool_decide (isSafeInteger k))
                          (map_to_list (snapshots st)).*1 = true) by by_evaluation.
  assert (E : Sync.createSnapshot 4 dirX "t4" st
              = (Ok s, stateAfter (Sync.createSnapshot 4 dirX "t4") st)) by by_evaluation.
  assert (Hsnap : snapshots storeXY_X_X !! 3
                  = Some (default (sentinel 3) (snapshots storeXY_X_X !! 3)))
    by by_evaluation.
  assert (Hdate : date (default (sentinel 3) (snapshots storeXY_X_X !! 3)) ≠ "")
    by (vm_compute; discriminate).
  assert (Hmax : forallb (λ k, bool_decide (k ≤ 3)) (map_to_list (snapshots storeXY_X_X)).*1
                 = true) by by_evaluation.
  assert (Hbelow : snapshots storeXY_X_X !! (3 - 1)
                   = Some (default (sentinel 2) (snapshots storeXY_X_X !! 2)))
    by by_evaluation.
  destruct (createSnapshot_id_fresh 4 dirX "t4" st s (safe_ids_check _ Hsafe)
              (or_introl (ex_intro _ _ E)))
    as (_ & _ & _ & Hfresh & Hreuse).
  split; [exact Hfresh|].
  apply (Hreuse storeXY_X_X 3 _ Hsnap Hdate).
  - intros k [x Hk]. rewrite forallb_forall in Hmax.
    apply (proj1 (bool_decide_eq_true _)), Hmax, list_elem_of_In, list_elem_of_fmap.
    exists (k, x). split; [done|]. by apply elem_of_map_to_list.
  - vm_compute. reflexivity.
  - by eexists.
  - by left.
Defined.

(** ** Classification of the scanned files *)

Lemma Node_ind' (P : Node → Prop) :
  (∀ content, P (File content)) →
  (∀ entries, Forall (λ en, P (snd en)) entries → P (Directory entries)) →
  ∀ node, P node.
Proof.
  intros Hfile Hdir. fix IH 1. intros [content|entries]; [apply Hfile|].
  apply Hdir. induction entries as [|en entries IHentries]; constructor.
  - apply IH.
  - apply IHentries.
Qed.

Lemma flatOfFiles_app files1 files2 flat :
  flatOfFiles (files1 ++ files2) flat = flatOfFiles files2 (flatOfFiles files1 flat).
Proof. unfold flatOfFiles. apply foldl_app. Qed.

Lemma flatOfFiles_union files flat :
  flatOfFiles files flat = flatOfFiles files ∅ ∪ flat.
Proof.
  revert flat. induction files as [|f files IH]; intros flat; simpl.
  - by rewrite (left_id_L ∅ (∪)).
  - rewrite IH. rewrite (IH (<[_ := _]> ∅)).
    rewrite <- (assoc_L (∪)). f_equal.
    by rewrite insert_union_singleton_l, insert_empty.
Qed.

Lemma flattenWithContent_inv node :
  ∀ prefix acc entry,
    fst acc = flatOfFiles (snd acc) ∅ →
    fst (Async.flattenEntryWithContent prefix acc entry node)
    = flatOfFiles (snd (Async.flattenEntryWithContent prefix acc entry node)) ∅.
Proof.
  induction node as [content|entries IH] using Node_ind'; intros prefix acc entry Hacc.
  - simpl. rewrite flatOfFiles_app. simpl. by rewrite Hacc.
  - simpl. rewrite flatOfFiles_app, <- Hacc, flatOfFiles_union. f_equal.
    generalize (relPathOf prefix entry). intros rel.
    assert (Hgen : ∀ acc' : Flat * list Async.FileWithContent,
      fst acc' = flatOfFiles (snd acc') ∅ →
      fst (foldl (λ a en, Async.flattenEntryWithContent rel a (fst en) (snd en))
                 acc' entries)
      = flatOfFiles (snd (foldl (λ a en,
            Async.flattenEntryWithContent rel a (fst en) (snd en)) acc' entries)) ∅).
    { induction IH as [|en entries Hen _ IHentries]; intros acc' Hacc'; simpl.
      - exact Hacc'.
      - apply IHentries. by apply Hen. }
    by apply Hgen.
Qed.

Lemma flattenDirWithContent_flat dirPath prefix :
  fst (Async.flattenDirWithContent dirPath prefix)
  = flatOfFiles (snd (Async.flattenDirWithContent dirPath prefix)) ∅.
Proof.
  unfold Async.flattenDirWithContent.
  assert (Hgen : ∀ acc : Flat * list Async.FileWithContent,
    fst acc = flatOfFiles (snd acc) ∅ →
    fst (foldl (λ a en, Async.flattenEntryWithContent prefix a (fst en) (snd en))
               acc dirPath)
    = flatOfFiles (snd (foldl (λ a en,
          Async.flattenEntryWithContent prefix a (fst en) (snd en)) acc dirPath)) ∅).
  { induction dirPath as [|en dirPath IH]; intros acc Hacc; simpl.
    - exact Hacc.
    - apply IH. by apply flattenWithContent_inv. }
  by apply Hgen.
Qed.

Lemma flatOfFiles_lookup files p h :
  NoDup (Async.path <$> files) →
  flatOfFiles files ∅ !! p = Some h
  ↔ ∃ f, f ∈ files ∧ Async.path f = p ∧ Async.hash f = h.
Proof.
  induction files as [|f files IH] using rev_ind; intros Hnd.
  - simpl. rewrite lookup_empty. split; [done|]. intros (f & Hf & _).
    by apply elem_of_nil in Hf.
  - rewrite fmap_app in Hnd. apply NoDup_app in Hnd as (Hnd & Hdisj & _).
    rewrite flatOfFiles_app. simpl.
    destruct (decide (Async.path f = p)) as [<-|Hne].
    + rewrite lookup_insert_eq. split.
      * intros [= <-]. exists f. split; [|done]. apply elem_of_app. right. by left.
      * intros (f' & Hf' & Hp & <-). apply elem_of_app in Hf' as [Hf'|Hf'].
        -- exfalso. apply (Hdisj (Async.path f)).
           ++ rewrite <- Hp. by apply list_elem_of_fmap_2.
           ++ simpl. by left.
        -- apply list_elem_of_singleton in Hf' as ->. done.
    + rewrite lookup_insert_ne by done. rewrite (IH Hnd). split.
      * intros (f' & Hf' & ?). exists f'. split; [|done]. apply elem_of_app. by left.
      * intros (f' & Hf' & Hp & Hh). apply elem_of_app in Hf' as [Hf'|Hf'].
        -- by exists f'.
        -- apply list_elem_of_singleton in Hf' as ->. done.
Qed.

Lemma classify_fold parentFlat files c :
  added (foldl (classify parentFlat) c files)
  = flatOfFiles (filter (λ f, parentFlat !! Async.path f = None) files) (added c)
  ∧ modified (foldl (classify parentFlat) c files)
    = flatOfFiles (filter (λ f, is_Some (parentFlat !! Async.path f)
                                ∧ parentFlat !! Async.path f ≠ Some (Async.hash f))
                          files) (modified c)
  ∧ deleted (foldl (classify parentFlat) c files) = deleted c.
Proof.
  revert c. induction files as [|f files IH]; intros c; simpl; [done|].
  destruct (IH (classify parentFlat c f)) as (Ha & Hm & Hd).
  rewrite Ha, Hm, Hd. unfold classify.
  destruct (parentFlat !! Async.path f) as [ph|] eqn:Hp.
  - rewrite filter_cons_False by (rewrite Hp; done).
    destruct (decide (ph = Async.hash f)) as [Heq|Hne].
    + rewrite filter_cons_False; [done|]. rewrite Hp, Heq. by intros [_ ?].
    + rewrite filter_cons_True; [done|]. rewrite Hp. split; [by eexists|congruence].
  - rewrite filter_cons_True by done.
    rewrite filter_cons_False; [done|]. rewrite Hp. by intros [[? ?] _].
Qed.

Lemma async_classify_loop (parentFlat : Flat) files c sv ch sv' :
  foldM (λ changes file,
      let pathKey := Async.path file in
      exists_ ← gets (λ sv, bool_decide (is_Some (blobs (Async.db sv) !! Async.hash file)));
      (if (exists_ : bool) then mret (Async.hash file)
       else Async.storeBlob (Async.content file));;
      match parentFlat !! pathKey with
      | None => mret (set_added pathKey (Async.hash file) changes)
      | Some parentHash =>
          if decide (parentHash = Async.hash file) then mret changes
          else mret (set_modified pathKey (Async.hash file) changes)
      end) c files sv = (Ok ch, sv') →
  ch = foldl (classify parentFlat) c files.
Proof.
  revert c sv. induction files as [|f files IH]; intros c sv; simpl.
  - by intros [= <- _].
  - intros H. apply bind_inv_Ok in H as (c1 & sv1 & Hstep & H).
    apply IH in H. rewrite H. f_equal.
    apply bind_inv_Ok in Hstep as (ex & sv2 & _ & Hstep).
    apply bind_inv_Ok in Hstep as (hh & sv3 & _ & Hstep).
    unfold classify. destruct (parentFlat !! Async.path f) as [ph|].
    + destruct (decide (ph = Async.hash f)); by injection Hstep as <- _.
    + by injection Hstep as <- _.
Qed.

Lemma trackDeleted_spec (flat parentFlat : Flat) c :
  added (trackDeleted flat parentFlat c) = added c
  ∧ modified (trackDeleted flat parentFlat c) = modified c
  ∧ ∀ p, p ∈ deleted (trackDeleted flat parentFlat c)
         ↔ p ∈ deleted c ∨ (is_Some (parentFlat !! p) ∧ flat !! p = None).
Proof.
  unfold trackDeleted.
  assert (Hkeys : ∀ p, p ∈ (map_to_list parentFlat).*1 ↔ is_Some (parentFlat !! p)).
  { intros p. rewrite list_elem_of_fmap. split.
    - intros ([p' h] & -> & Hin). apply elem_of_map_to_list in Hin. by eexists.
    - intros [h Hh]. exists (p, h). split; [done|]. by apply elem_of_map_to_list. }
  revert Hkeys. generalize ((map_to_list parentFlat).*1). intros keys Hkeys.
  assert (Hgen : ∀ c,
    added (foldl (λ c pathKey, match flat !! pathKey with
                               | None => push_deleted pathKey c
                               | Some _ => c end) c keys) = added c
    ∧ modified (foldl (λ c pathKey, match flat !! pathKey with
                                    | None => push_deleted pathKey c
                                    | Some _ => c end) c keys) = modified c
    ∧ ∀ p, p ∈ deleted (foldl (λ c pathKey, match flat !! pathKey with
                                            | None => push_deleted pathKey c
                                            | Some _ => c end) c keys)
           ↔ p ∈ deleted c ∨ (p ∈ keys ∧ flat !! p = None)).
  { clear Hkeys. induction keys as [|k keys IH]; intros c'; simpl.
    - split; [done|]. split; [done|]. intros p. split; [by left|].
      intros [?|[Hp _]]; [done|]. by apply elem_of_nil in Hp.
    - destruct (IH (match flat !! k with None => push_deleted k c' | Some _ => c' end))
        as (Ha & Hm & Hd).
      rewrite Ha, Hm. split; [by destruct (flat !! k)|].
      split; [by destruct (flat !! k)|]. intros p. rewrite Hd, elem_of_cons.
      destruct (flat !! k) eqn:Hk; simpl.
      + split; [tauto|]. intros [?|[[->|?] ?]]; [tauto|congruence|tauto].
      + rewrite elem_of_app, list_elem_of_singleton. split; [|tauto].
        intros [[?| ->]|?]; tauto. }
  destruct (Hgen c) as (Ha & Hm & Hd). split; [done|]. split; [done|].
  intros p. rewrite Hd, Hkeys. reflexivity.
Qed.

(** The delta classification of C3, as the asynchronous [createSnapshot]
    computes it for a scan without repeated paths. *)
Theorem async_createSnapshot_classifies fuel dirPath now sv s sv' :
  NoDup (Async.path <$> snd (Async.flattenDirWithContent dirPath "")) →
  Async.createSnapshot fuel dirPath now sv = (Ok s, sv') →
  ∃ parentFlat : Flat,
    asyncPredecessor fuel sv parentFlat
    ∧ (∀ p h, added (changes s) !! p = Some h
              ↔ Async.flattenDir dirPath "" !! p = Some h ∧ parentFlat !! p = None)
    ∧ (∀ p h, modified (changes s) !! p = Some h
              ↔ Async.flattenDir dirPath "" !! p = Some h
                ∧ ∃ h', parentFlat !! p = Some h' ∧ h' ≠ h)
    ∧ (∀ p h, Async.flattenDir dirPath "" !! p = Some h → parentFlat !! p = Some h →
              added (changes s) !! p = None ∧ modified (changes s) !! p = None
              ∧ p ∉ deleted (changes s))
    ∧ (∀ p, p ∈ deleted (changes s)
            ↔ is_Some (parentFlat !! p) ∧ Async.flattenDir dirPath "" !! p = None).
Proof.
  intros Hnd H. unfold Async.createSnapshot in H.
  apply bind_inv_Ok in H as (lastId & s1 & Hl & H).
  unfold Async.lastSnapshotId, gets in Hl. injection Hl as <- <-.
  apply bind_inv_Ok in H as ([par parentFlat] & s2 & Hpp & H).
  apply bind_inv_Ok in H as (ch & s3 & Hloop & H).
  apply bind_inv_Ok in H as (u & s4 & _ & H).
  injection H as <- _. simpl in *.
  apply async_classify_loop in Hloop. subst ch.
  exists parentFlat. split.
  { unfold asyncPredecessor. destruct (maxId _) as [l|]; [|by injection Hpp as _ <- _].
    destruct (truthy l); [|by injection Hpp as _ <- _].
    apply bind_inv_Ok in Hpp as (p0 & s5 & Hload & Hpp).
    rewrite async_loadSnapshot_pure in Hload. injection Hload as <- <-.
    apply bind_inv_Ok in Hpp as (pf & s6 & Hrec & Hpp).
    injection Hpp as _ <- _. by exists s6. }
  set (files := snd (Async.flattenDirWithContent dirPath "")) in *.
  assert (Hflat : ∀ p h, Async.flattenDir dirPath "" !! p = Some h
                         ↔ ∃ f, f ∈ files ∧ Async.path f = p ∧ Async.hash f = h).
  { intros p h. unfold Async.flattenDir. rewrite flattenDirWithContent_flat.
    by apply flatOfFiles_lookup. }
  destruct (trackDeleted_spec (fst (Async.flattenDirWithContent dirPath "")) parentFlat
              (foldl (classify parentFlat) emptyChanges files)) as (Ha & Hm & Hd).
  destruct (classify_fold parentFlat files emptyChanges) as (Ha' & Hm' & Hd').
  rewrite Ha, Hm, Ha', Hm'. simpl.
  assert (Hadded : ∀ p h,
    flatOfFiles (filter (λ f, parentFlat !! Async.path f = None) files) ∅ !! p = Some h
    ↔ Async.flattenDir dirPath "" !! p = Some h ∧ parentFlat !! p = None).
  { intros p h. rewrite flatOfFiles_lookup, Hflat.
    - split.
      + intros (f & Hf & <- & <-). apply list_elem_of_filter in Hf as [? ?].
        split; [by exists f|done].
      + intros [(f & Hf & <- & <-) Hp]. exists f. split; [|done].
        by apply list_elem_of_filter.
    - eapply sublist_NoDup; [exact Hnd|]. apply fmap_sublist, sublist_filter. }
  assert (Hmodified : ∀ p h,
    flatOfFiles (filter (λ f, is_Some (parentFlat !! Async.path f)
                              ∧ parentFlat !! Async.path f ≠ Some (Async.hash f))
                        files) ∅ !! p = Some h
    ↔ Async.flattenDir dirPath "" !! p = Some h
      ∧ ∃ h', parentFlat !! p = Some h' ∧ h' ≠ h).
  { intros p h. rewrite flatOfFiles_lookup, Hflat.
    - split.
      + intros (f & Hf & <- & <-). apply list_elem_of_filter in Hf as [[[h' Hh'] Hne] ?].
        split; [by exists f|]. exists h'. split; [done|]. congruence.
      + intros [(f & Hf & <- & <-) (h' & Hh' & Hne)]. exists f. split; [|done].
        apply list_elem_of_filter. split; [|done]. rewrite Hh'.
        split; [by eexists|congruence].
    - eapply sublist_NoDup; [exact Hnd|]. apply fmap_sublist, sublist_filter. }
  split; [exact Hadded|]. split; [exact Hmodified|]. split.
  - intros p h Hp Hpar. split; [|split].
    + destruct (flatOfFiles _ ∅ !! p) as [h0|] eqn:E; [|done].
      apply Hadded in E as [_ E]. congruence.
    + destruct (flatOfFiles (filter (λ f, is_Some _ ∧ _) files) ∅ !! p) as [h0|] eqn:E;
        [|done].
      apply Hmodified in E as [E1 (h' & E2 & E3)]. congruence.
    + rewrite Hd, Hd'. simpl. intros [Hin|[_ Hnone]].
      * by apply elem_of_nil in Hin.
      * unfold Async.flattenDir in Hp. congruence.
  - intros p. rewrite Hd, Hd'. simpl. unfold Async.flattenDir. split.
    + intros [Hin|?]; [by apply elem_of_nil in Hin|done].
    + intros ?. by right.
Qed.

(** The classification at work: the second asynchronous snapshot, of
    {a, b} after {a}, adds b.txt and records nothing else. *)
Example async_classification_example :
  ∃ s sv', Async.createSnapshot 4 dirAlphaBeta "t2"
             (stateAfter (Async.createSnapshot 4 dirAlpha "t1")
                         (Async.newService emptyStore)) = (Ok s, sv')
    ∧ added (changes s) !! "b.txt" = Some hashBeta
    ∧ added (changes s) !! "a.txt" = None
    ∧ modified (changes s) !! "a.txt" = None
    ∧ "a.txt" ∉ deleted (changes s).
Proof.
  set (sv := stateAfter (Async.createSnapshot 4 dirAlpha "t1")
                        (Async.newService emptyStore)).
  destruct (Async.createSnapshot 4 dirAlphaBeta "t2" sv) as [r sv'] eqn:E.
  assert (Hr : ∃ s, r = Ok s).
  { replace r with (fst (Async.createSnapshot 4 dirAlphaBeta "t2" sv)) by by rewrite E.
    vm_compute. by eexists. }
  destruct Hr as [s ->]. exists s, sv'. split; [done|].
  assert (Hnd : NoDup (Async.path <$> snd (Async.flattenDirWithContent dirAlphaBeta ""))).
  { apply (bool_decide_unpack _). vm_compute. exact I. }
  destruct (async_createSnapshot_classifies 4 dirAlphaBeta "t2" sv s sv' Hnd E)
    as (parentFlat & Hpred & Hadd & Hmod & Hsame & Hdel).
  assert (HpA : parentFlat !! "a.txt" = Some hashAlpha ∧ parentFlat !! "b.txt" = None).
  { unfold asyncPredecessor in Hpred.
    assert (Hmax : maxId (map_to_list (snapshots (Async.db sv))).*1 = Some 1)
      by (vm_compute; reflexivity).
    rewrite Hmax in Hpred. simpl in Hpred. destruct Hpred as [sv1 Hrec].
    apply (f_equal fst) in Hrec. vm_compute in Hrec. injection Hrec as <-.
    split; vm_compute; reflexivity. }
  destruct HpA as [HpA HpB].
  assert (HfA : Async.flattenDir dirAlphaBeta "" !! "a.txt" = Some hashAlpha)
    by (vm_compute; reflexivity).
  assert (HfB : Async.flattenDir dirAlphaBeta "" !! "b.txt" = Some hashBeta)
    by (vm_compute; reflexivity).
  split; [exact (proj2 (Hadd "b.txt" hashBeta) (conj HfB HpB))|].
  exact (Hsame "a.txt" hashAlpha HfA HpA).
Qed.

(** C3 fails in the synchronous variant. A second snapshot of the same
    directory finds a.txt in the predecessor's flat state with the same
    digest, and still records it under [modified]; the asynchronous
    variant leaves it out of the delta. *)
Theorem sync_unchanged_file_recorded_modified :
  let st1 := stateAfter (Sync.createSnapshot 4 dirX "t1") emptyStore in
  let sv1 := stateAfter (Async.createSnapshot 4 dirX "t1") (Async.newService emptyStore) in
  Sync.reconstructSnapshot 4 1 st1 = (Ok {["a.txt" := hashX]}, st1)
  ∧ Sync.flattenDir dirX "" = {["a.txt" := hashX]}
  ∧ (∃ s st2, Sync.createSnapshot 4 dirX "t2" st1 = (Ok s, st2)
       ∧ changes s = {| added := ∅; modified := {["a.txt" := hashX]}; deleted := [] |})
  ∧ (∃ s sv2, Async.createSnapshot 4 dirX "t2" sv1 = (Ok s, sv2)
       ∧ changes s = {| added := ∅; modified := ∅; deleted := [] |}).
Proof.
  cbv zeta. split; [vm_compute; reflexivity|]. split; [vm_compute; reflexivity|].
  split; eexists _, _; (split; [vm_compute; reflexivity|]); vm_compute; reflexivity.
Qed.

(** C1 fails in the synchronous variant. After a snapshot of a.txt =
    "hello", a.txt is overwritten with the digest text of "hello": the scan
    sees a new digest, yet the new snapshot records no change at all, and
    restoring it into an empty directory writes "hello", not the content of
    the directory. *)
Theorem sync_round_trip_broken :
  Sync.reconstructSnapshot 4 1 storeHello = (Ok {["a.txt" := hashHello]}, storeHello)
  ∧ Sync.flattenDir dirDigest "" = {["a.txt" := hashOfHashHello]}
  ∧ ∃ s st2,
      Sync.createSnapshot 4 dirDigest "t2" storeHello = (Ok s, st2)
      ∧ id s = 2 ∧ parent s = Some 1 ∧ changes s = emptyChanges
      ∧ Sync.restoreSnapshot 4 (id s) ∅ st2 = (Ok {["a.txt" := utf8 "hello"]}, st2)
      ∧ filesOf dirDigest = {["a.txt" := utf8 hashHello]}
      ∧ ({["a.txt" := utf8 "hello"]} : gmap string (list byte)) ≠ filesOf dirDigest.
Proof.
  split; [vm_compute; reflexivity|]. split; [vm_compute; reflexivity|].
  eexists _, _. split; [vm_compute; reflexivity|].
  split; [reflexivity|]. split; [reflexivity|]. split; [reflexivity|].
  split; [vm_compute; reflexivity|]. split; [vm_compute; reflexivity|].
  intros H. apply (f_equal (λ m, m !! "a.txt")) in H. vm_compute in H. discriminate.
Qed.

(** ** Well-formed stores and the fuel of the parent walk *)

Lemma wfStore_empty : wfStore emptyStore.
Proof. intros k s Hs. simpl in Hs. by rewrite lookup_empty in Hs. Qed.

Lemma sync_reconstruct_state fuel sid st :
  snd (Sync.reconstructSnapshot fuel sid st) = st.
Proof.
  revert sid. induction fuel as [|fuel IH]; intros sid; simpl; [done|].
  rewrite (bind_Ok _ _ _ _ _ (sync_loadSnapshot_pure st sid)).
  set (snap := default (sentinel sid) (snapshots st !! sid)).
  destruct (parent snap) as [p|]; [|reflexivity].
  destruct (truthy p); [|reflexivity].
  specialize (IH p). unfold mbind, M_bind.
  destruct (Sync.reconstructSnapshot fuel p st) as [[flat|e|] st1]; simpl in *; by subst.
Qed.

(** On a well-formed store the walk along the parent pointers ends:
    with more fuel than the id, [reconstructSnapshot] returns a flat state. *)
Lemma sync_reconstruct_total st :
  wfStore st →
  ∀ fuel sid, (Z.to_nat sid < fuel)%nat →
    ∃ flat, Sync.reconstructSnapshot fuel sid st = (Ok flat, st).
Proof.
  intros Hwf. induction fuel as [|fuel IH]; intros sid Hfuel; [lia|].
  simpl. rewrite (bind_Ok _ _ _ _ _ (sync_loadSnapshot_pure st sid)).
  destruct (snapshots st !! sid) as [snap|] eqn:Hsnap; simpl.
  - destruct (Hwf sid snap Hsnap) as (_ & Hpos & Hpar).
    destruct (parent snap) as [p|]; [|by eexists].
    destruct (truthy p); [|by eexists].
    destruct (Hpar p eq_refl) as [Hp0 Hp].
    destruct (IH p ltac:(lia)) as [flat Hflat].
    rewrite (bind_Ok _ _ _ _ _ Hflat). by eexists.
  - by eexists.
Qed.

Lemma sync_prune_wf st sid :
  wfStore st → wfStore (stateAfter (Sync.pruneSnapshot sid) st).
Proof.
  intros Hwf.
  destruct (snapshots st !! sid) as [snap|] eqn:Hsnap.
  2: { unfold stateAfter. rewrite (sync_prune_absent _ _ Hsnap). exact Hwf. }
  destruct (decide (date snap = "")) as [Hdate|Hdate].
  { unfold stateAfter, Sync.pruneSnapshot.
    rewrite (bind_Ok _ _ _ _ _ (sync_loadSnapshot_pure st sid)), Hsnap. simpl.
    rewrite decide_True by done. exact Hwf. }
  destruct (sync_pruneSnapshot_spec st sid snap Hsnap Hdate) as (used & E & _).
  unfold stateAfter. rewrite E. simpl.
  intros k s Hk. simpl in Hk.
  apply lookup_delete_Some in Hk as [Hne Hk].
  unfold afterRelink in Hk.
  destruct (snapshots st !! (sid + 1)) as [next|] eqn:Hnext; simpl in Hk.
  - destruct (decide (parent next = Some sid)) as [Hpar|_]; [|by apply Hwf].
    destruct (Hwf _ _ Hnext) as (Hid & Hpos & _). rewrite Hid in Hk.
    destruct (decide (k = sid + 1)) as [->|Hk1].
    + rewrite lookup_insert_eq in Hk. injection Hk as <-. simpl.
      split; [done|]. split; [done|]. intros p Hp.
      destruct (Hwf _ _ Hsnap) as (_ & _ & Hsp). specialize (Hsp p Hp). lia.
    + rewrite lookup_insert_ne in Hk by done. by apply Hwf.
  - destruct (decide (None = Some sid)); [done|]. by apply Hwf.
Qed.

Lemma sync_storeBlob_snapshots content st :
  ∃ st', Sync.storeBlob content st = (Ok (hashContent content), st')
         ∧ snapshots st' = snapshots st.
Proof.
  unfold Sync.storeBlob. destruct (blobs st !! hashContent content); by eexists.
Qed.

Lemma sync_classify_loop_snapshots dirPath (parentFlat : Flat) entries c st ch st' :
  foldM (λ changes kv,
      let pathKey : string := fst kv in
      content ← readFileSync dirPath pathKey;
      hash ← Sync.storeBlob content;
      match parentFlat !! pathKey with
      | None => mret (set_added pathKey hash changes)
      | Some parentHash =>
          let oldHash := hashContent (utf8 parentHash) in
          if decide (oldHash = hash) then mret changes
          else mret (set_modified pathKey hash changes)
      end) c (entries : list (string * string)) st = (Ok ch, st') →
  snapshots st' = snapshots st.
Proof.
  revert c st. induction entries as [|kv entries IH]; intros c st; simpl.
  - by intros [= _ <-].
  - intros H. apply bind_inv_Ok in H as (c1 & st1 & Hstep & H).
    apply IH in H. rewrite H. clear H IH.
    apply bind_inv_Ok in Hstep as (content & st2 & Hread & Hstep).
    assert (st2 = st) as ->.
    { unfold readFileSync in Hread.
      destruct (resolve _ _) as [[?|?]|]; by injection Hread. }
    apply bind_inv_Ok in Hstep as (hash & st3 & Hstore & Hstep).
    destruct (sync_storeBlob_snapshots content st) as (st4 & E & Hsn).
    rewrite E in Hstore. injection Hstore as <- <-.
    destruct (parentFlat !! kv.1); [destruct (decide _)|]; by injection Hstep as _ <-.
Qed.

Lemma sync_createSnapshot_store fuel dirPath now st s st' :
  Sync.createSnapshot fuel dirPath now st = (Ok s, st') →
  snapshots st' = <[id s := s]> (snapshots st)
  ∧ parent s = match maxId (map_to_list (snapshots st)).*1 with
               | Some l =>
                   if truthy l
                   then parentIdOf (Some (default (sentinel l) (snapshots st !! l)))
                   else None
               | None => None
               end.
Proof.
  unfold Sync.createSnapshot. intros H.
  apply bind_inv_Ok in H as (lastId & s1 & Hl & H).
  unfold Sync.lastSnapshotId, gets in Hl. injection Hl as <- <-.
  apply bind_inv_Ok in H as ([par parentFlat] & s2 & Hpp & H).
  apply bind_inv_Ok in H as (ch & s3 & Hloop & H).
  apply bind_inv_Ok in H as (u & s4 & Hsave & H).
  apply sync_classify_loop_snapshots in Hloop.
  unfold Sync.saveSnapshot, modify in Hsave. injection Hsave as _ <-.
  injection H as <- <-. simpl in *.
  rewrite Hloop.
  assert (Hs2 : s2 = st ∧ par = match maxId (map_to_list (snapshots st)).*1 with
                                | Some l => if truthy l
                                            then Some (default (sentinel l) (snapshots st !! l))
                                            else None
                                | None => None end).
  { destruct (maxId _) as [l|]; [|by injection Hpp as <- _ <-].
    destruct (truthy l); [|by injection Hpp as <- _ <-].
    apply bind_inv_Ok in Hpp as (p0 & s5 & Hload & Hpp).
    rewrite sync_loadSnapshot_pure in Hload. injection Hload as <- <-.
    apply bind_inv_Ok in Hpp as (pf & s6 & Hrec & Hpp).
    pose proof (sync_reconstruct_state fuel
                  (id (default (sentinel l) (snapshots st !! l))) st) as Hst.
    rewrite Hrec in Hst. simpl in Hst. subst s6.
    by injection Hpp as <- _ <-. }
  destruct Hs2 as [-> ->]. split; [done|].
  destruct (maxId _) as [l|]; [|done]. by destruct (truthy l).
Qed.


Lemma maxId_elem (files : list Z) (m : Z) : maxId files = Some m → m ∈ files.
Proof.
  destruct files as [|f rest]; simpl; [discriminate|]. intros [= <-].
  revert f. induction rest as [|x rest IH]; intros f; simpl.
  - by left.
  - specialize (IH (Z.max f x)). apply elem_of_cons in IH as [IH|IH].
    + rewrite IH. destruct (Z.max_spec f x) as [[_ ->]|[_ ->]].
      * right. by left.
      * by left.
    + right. by right.
Qed.

(** A failed [createSnapshot] may have stored blobs, but it leaves the
    snapshot records as they were. *)
Lemma sync_createSnapshot_failed fuel dirPath now st :
  (∀ s, fst (Sync.createSnapshot fuel dirPath now st) ≠ Ok s) →
  snapshots (stateAfter (Sync.createSnapshot fuel dirPath now) st) = snapshots st.
Proof.
  unfold stateAfter.
  destruct (Sync.createSnapshot fuel dirPath now st) as [r st'] eqn:E. simpl.
  intros Hfail.
  set (R := λ s s' : Store, snapshots s' = snapshots s).
  assert (HR : Reflexive R) by done.
  assert (HT : Transitive R) by (intros x y z Hxy Hyz; unfold R in *; congruence).
  change (R st st').
  unfold Sync.createSnapshot in E.
  apply bind_inv in E as [(lastId & s1 & Hl & E)|(_ & r0 & Hl & Hr0)].
  2: { unfold Sync.lastSnapshotId, gets in Hl. injection Hl as <- _.
       by destruct (Hr0 _ eq_refl). }
  unfold Sync.lastSnapshotId, gets in Hl. injection Hl as <- <-.
  assert (Hpp : ∀ r2 s2,
    match maxId (map_to_list (snapshots st)).*1 with
    | Some l =>
        if truthy l then
          parent ← Sync.loadSnapshot l;
          parentFlat ← Sync.reconstructSnapshot fuel (id parent);
          mret (Some parent, parentFlat)
        else mret (None, ∅)
    | None => mret (None, ∅)
    end st = (r2, s2) → R st s2).
  { intros r2 s2. destruct (maxId _) as [l|]; [|by intros [= _ <-]].
    destruct (truthy l); [|by intros [= _ <-]]. intros H.
    change s2 with (snd (r2, s2)). rewrite <- H.
    apply (bind_state_inv R); [by rewrite sync_loadSnapshot_pure|].
    intros a s1. apply (bind_state_inv R); [|done].
    unfold R. by rewrite sync_reconstruct_state. }
  apply bind_inv in E as [([par parentFlat] & s2 & Hpar & E)|(_ & r0 & Hpar & _)];
    [|by eapply Hpp].
  apply Hpp in Hpar. simpl in E.
  assert (Hloop : ∀ r3 s3,
    foldM (λ changes kv,
        let pathKey : string := fst kv in
        content ← readFileSync dirPath pathKey;
        hash ← Sync.storeBlob content;
        match parentFlat !! pathKey with
        | None => mret (set_added pathKey hash changes)
        | Some parentHash =>
            let oldHash := hashContent (utf8 parentHash) in
            if decide (oldHash = hash) then mret changes
            else mret (set_modified pathKey hash changes)
        end) emptyChanges (map_to_list (Sync.flattenDir dirPath "")) s2 = (r3, s3) →
    R s2 s3).
  { intros r3 s3 H. change s3 with (snd (r3, s3)). rewrite <- H.
    apply (foldM_state_inv R). intros b x s. apply (bind_state_inv R).
    { unfold readFileSync. destruct (resolve _ _) as [[?|?]|]; by unfold R. }
    intros content s1. apply (bind_state_inv R).
    { destruct (sync_storeBlob_snapshots content s1) as (s4 & -> & Hs4). by unfold R. }
    intros hash s4. simpl.
    destruct (parentFlat !! x.1); [destruct (decide (_ = hash))|]; by unfold R. }
  apply bind_inv in E as [(ch & s3 & Hch & E)|(_ & r0 & Hch & _)].
  2: { apply Hloop in Hch. by etrans. }
  apply bind_inv in E as [(u & s4 & Hsave & E)|(_ & r0 & Hsave & Hr0)].
  - injection E as <- _. by destruct (Hfail _ eq_refl).
  - unfold Sync.saveSnapshot, modify in Hsave. injection Hsave as <- _.
    by destruct (Hr0 () eq_refl).
Qed.

(** The invariant holds on every store that the two mutating commands
    reach from a well-formed store. *)
Lemma sync_create_wf fuel dirPath now st :
  wfStore st → wfStore (stateAfter (Sync.createSnapshot fuel dirPath now) st).
Proof.
  intros Hwf.
  destruct (Sync.createSnapshot fuel dirPath now st) as [r st'] eqn:E.
  assert (Hfailed : (∀ s, r ≠ Ok s) → wfStore (stateAfter (Sync.createSnapshot fuel dirPath now) st)).
  { intros Hr k s Hk. rewrite sync_createSnapshot_failed in Hk; [by apply Hwf|].
    by rewrite E. }
  destruct r as [s|e|]; [|by apply Hfailed..]. clear Hfailed.
  unfold stateAfter. rewrite E. simpl.
  pose proof (sync_createSnapshot_id _ _ _ _ _ _ E) as Hid.
  destruct (sync_createSnapshot_store _ _ _ _ _ _ E) as [Hst Hpar].
  intros k s0 Hk. rewrite Hst in Hk.
  destruct (decide (k = id s)) as [->|Hne].
  - rewrite lookup_insert_eq in Hk. injection Hk as <-. split; [done|].
    destruct (maxId (map_to_list (snapshots st)).*1) as [l|] eqn:Hmax.
    + apply maxId_elem in Hmax.
      apply list_elem_of_fmap in Hmax as ([l' sl] & -> & Hin). simpl in *.
      apply elem_of_map_to_list in Hin.
      destruct (Hwf _ _ Hin) as (Hidl & Hpos & _).
      rewrite Hin in Hpar. simpl in Hpar. rewrite Hidl in Hpar.
      unfold newIdOf, truthy in Hid, Hpar.
      destruct (Z.eqb_spec l' 0); [lia|]. simpl in *.
      split; [lia|]. intros p Hp. rewrite Hpar in Hp. injection Hp as <-. lia.
    + simpl in Hid. split; [lia|]. intros p Hp. congruence.
  - rewrite lookup_insert_ne in Hk by done. by apply Hwf.
Qed.

(** The example stores are well-formed, so the walk from any id ends. *)
Example wfStore_examples : wfStore storeXY_X_X ∧ wfStore storeGap ∧ wfStore storeHello.
Proof.
  assert (H : wfStore storeXY_X_X).
  { replace storeXY_X_X
      with (stateAfter (Sync.createSnapshot 4 dirX "t3")
              (stateAfter (Sync.createSnapshot 4 dirX "t2")
                 (stateAfter (Sync.createSnapshot 4 dirXY "t1") emptyStore)))
      by (vm_compute; reflexivity).
    do 3 apply sync_create_wf. apply wfStore_empty. }
  split; [exact H|]. split.
  - replace storeGap with (stateAfter (Sync.pruneSnapshot 2) storeXY_X_X)
      by (vm_compute; reflexivity).
    apply sync_prune_wf, H.
  - replace storeHello with (stateAfter (Sync.createSnapshot 4 dirHello "t1") emptyStore)
      by (vm_compute; reflexivity).
    apply sync_create_wf, wfStore_empty.
Qed.

Example reconstruct_total_example :
  ∃ flat, Sync.reconstructSnapshot 4 3 storeGap = (Ok flat, storeGap).
Proof.
  apply sync_reconstruct_total; [apply wfStore_examples|]. lia.
Qed.

(** ** Sizes of missing blobs *)

(** The asynchronous [blobSize] always returns; for a digest that is
    neither stored nor cached it returns 0 and records nothing. *)
Lemma async_blobSize_missing sv h :
  blobs (Async.db sv) !! h = None → Async.blobSizeCache sv !! h = None →
  Async.blobSize h sv = (Ok 0, sv).
Proof. intros Hb Hc. unfold Async.blobSize. by rewrite Hc, Hb. Qed.

Lemma async_blobSize_returns sv h : ∃ n sv', Async.blobSize h sv = (Ok n, sv').
Proof.
  unfold Async.blobSize. destruct (Async.blobSizeCache sv !! h); [by eexists _, _|].
  destruct (blobs (Async.db sv) !! h); by eexists _, _.
Qed.

(** The synchronous [blobSize] and both [loadContent] throw instead. *)
Lemma sync_blobSize_missing st h :
  blobs st !! h = None → Sync.blobSize h st = (Throw (ENOENT (blobPath h)), st).
Proof. intros Hb. unfold Sync.blobSize. by rewrite Hb. Qed.

Lemma loadContent_missing st sv h :
  blobs st !! h = None → blobs (Async.db sv) !! h = None →
  Sync.loadContent h st = (Throw (ENOENT (blobPath h)), st)
  ∧ Async.loadContent h sv = (Throw (ENOENT (blobPath h)), sv).
Proof.
  intros Hb Hsv. unfold Sync.loadContent, Async.loadContent. by rewrite Hb, Hsv.
Qed.

(** C9 fails in the synchronous variant. Snapshot 1 references the digest
    of a.txt and the blob is gone: [blobSize] throws, and [logicalSize] and
    [physicalSize] abort with it. The asynchronous variant returns 0 in
    the three queries. *)
Theorem sync_size_queries_abort_on_missing_blob :
  blobs storeLostBlob !! hashX = None
  ∧ Sync.blobSize hashX storeLostBlob = (Throw (ENOENT (blobPath hashX)), storeLostBlob)
  ∧ fst (Sync.logicalSize 4 1 storeLostBlob) = Throw (ENOENT (blobPath hashX))
  ∧ fst (Sync.physicalSize 4 1 storeLostBlob) = Throw (ENOENT (blobPath hashX))
  ∧ fst (Async.blobSize hashX (Async.newService storeLostBlob)) = Ok 0
  ∧ fst (Async.logicalSize 4 1 (Async.newService storeLostBlob)) = Ok 0
  ∧ fst (Async.physicalSize 4 1 (Async.newService storeLostBlob)) = Ok 0.
Proof. repeat split; vm_compute; reflexivity. Qed.

(** Within one service instance the asynchronous [blobSize] answers from
    its cache, which [pruneSnapshot] does not clear: after the blob is swept
    the query still returns the old size. *)
Example async_blobSize_stale_after_prune :
  let sv1 := stateAfter (Async.createSnapshot 4 dirX "t1") (Async.newService emptyStore) in
  let sv2 := stateAfter (Async.blobSize hashX) sv1 in
  let sv3 := stateAfter (Async.pruneSnapshot 1) sv2 in
  blobs (Async.db sv3) !! hashX = None ∧ fst (Async.blobSize hashX sv3) = Ok 1.
Proof. cbv zeta. split; vm_compute; reflexivity. Qed.

(** ** Physical size and the digests seen in an ancestor *)

Lemma sync_seenBeforeLoop_spec st h :
  wfStore st →
  ∀ fuel current,
    (∀ c, current = Some c → (Z.to_nat c < fuel)%nat) →
    Sync.seenBeforeLoop fuel h current st
    = (Ok (bool_decide (h ∈ ancestorDigests fuel st current)), st).
Proof.
  intros Hwf. induction fuel as [|fuel IH]; intros current Hfuel.
  - destruct current as [c|]; [specialize (Hfuel c eq_refl); lia|]. reflexivity.
  - destruct current as [c|]; [|reflexivity]. simpl.
    destruct (truthy c) eqn:Hc.
    2: { unfold truthy in Hc. apply negb_false_iff, Z.eqb_eq in Hc as ->.
         destruct (snapshots st !! 0) as [s0|] eqn:H0; [|done].
         destruct (Hwf 0 s0 H0) as (_ & ? & _). lia. }
    rewrite (bind_Ok _ _ _ _ _ (sync_loadSnapshot_pure st c)).
    destruct (snapshots st !! c) as [par|] eqn:Hpar; simpl.
    + destruct (Hwf c par Hpar) as (_ & Hpos & Hp).
      destruct (decide (h ∈ blobsInSnapshot par)) as [Hin|Hnin].
      * rewrite bool_decide_eq_true_2; [done|]. apply elem_of_union. left.
        by apply elem_of_list_to_set.
      * rewrite IH.
        -- f_equal. f_equal. apply bool_decide_ext.
           rewrite elem_of_union, elem_of_list_to_set. tauto.
        -- intros p Hpp. specialize (Hp p Hpp). specialize (Hfuel c eq_refl). lia.
    + destruct (decide (h ∈ blobsInSnapshot (sentinel c))) as [Hin|_].
      * by apply elem_of_nil in Hin.
      * destruct fuel; simpl; by rewrite bool_decide_eq_false_2 by set_solver.
Qed.

(** The last sentence of C4: the physical size is zero when every digest
    of the snapshot's delta is in the delta of some ancestor. *)
Lemma sync_physicalSize_nothing_new st sid snap fuel :
  wfStore st → snapshots st !! sid = Some snap → (Z.to_nat sid ≤ fuel)%nat →
  (∀ h, h ∈ blobsInSnapshot snap → h ∈ ancestorDigests fuel st (parent snap)) →
  Sync.physicalSize fuel sid st = (Ok 0, st)
  ∧ physicalSizeSpec fuel st sid = 0.
Proof.
  intros Hwf Hsnap Hfuel Hseen. split.
  - unfold Sync.physicalSize.
    rewrite (bind_Ok _ _ _ _ _ (sync_loadSnapshot_pure st sid)), Hsnap. simpl.
    assert (Hgen : ∀ l total, (∀ h, h ∈ l → h ∈ blobsInSnapshot snap) →
      foldM (λ total hash,
          seen ← Sync.seenBefore fuel hash snap;
          if (seen : bool) then mret total
          else size ← Sync.blobSize hash; mret (total + size)) total l st
      = (Ok total, st)).
    { assert (Hf : ∀ c, parent snap = Some c → (Z.to_nat c < fuel)%nat).
      { intros c Hc. destruct (Hwf _ _ Hsnap) as (_ & _ & Hp).
        specialize (Hp c Hc). lia. }
      induction l as [|h l IH]; intros total Hl; simpl; [done|].
      erewrite bind_Ok; [apply IH; intros h' Hh'; apply Hl; by right|].
      unfold Sync.seenBefore.
      rewrite (bind_Ok _ _ _ _ _ (sync_seenBeforeLoop_spec st h Hwf fuel (parent snap) Hf)).
      rewrite bool_decide_eq_true_2; [reflexivity|]. apply Hseen, Hl. by left. }
    by apply Hgen.
  - unfold physicalSizeSpec. rewrite Hsnap.
    replace (list_to_set (blobsInSnapshot snap) ∖ ancestorDigests fuel st (parent snap))
      with (∅ : gset string); [by rewrite set_fold_empty|].
    symmetry. apply set_eq. intros h.
    rewrite elem_of_difference, elem_of_list_to_set. set_solver.
Qed.

Lemma foldl_add_shift (l : list Z) (a b : Z) :
  foldl Z.add (a + b) l = a + foldl Z.add b l.
Proof.
  revert b. induction l as [|x l IH]; intros b; simpl; [done|].
  rewrite <- IH. f_equal. lia.
Qed.

(** What the code computes: one term for each entry of [blobsInSnapshot]
    whose digest no ancestor has. *)
Lemma sync_physicalSize_per_entry st sid snap fuel :
  wfStore st → snapshots st !! sid = Some snap → (Z.to_nat sid ≤ fuel)%nat →
  (∀ h, h ∈ unseenBlobs fuel st snap → is_Some (blobs st !! h)) →
  Sync.physicalSize fuel sid st
  = (Ok (foldl Z.add 0 (sizeOf st <$> unseenBlobs fuel st snap)), st).
Proof.
  intros Hwf Hsnap Hfuel Hstored. unfold Sync.physicalSize.
  rewrite (bind_Ok _ _ _ _ _ (sync_loadSnapshot_pure st sid)), Hsnap. simpl.
  assert (Hf : ∀ c, parent snap = Some c → (Z.to_nat c < fuel)%nat).
  { intros c Hc. destruct (Hwf _ _ Hsnap) as (_ & _ & Hp). specialize (Hp c Hc). lia. }
  unfold unseenBlobs in *.
  assert (Hgen : ∀ l total,
    (∀ h, h ∈ filter (λ h, h ∉ ancestorDigests fuel st (parent snap)) l →
          is_Some (blobs st !! h)) →
    foldM (λ total hash,
        seen ← Sync.seenBefore fuel hash snap;
        if (seen : bool) then mret total
        else size ← Sync.blobSize hash; mret (total + size)) total l st
    = (Ok (foldl Z.add total
             (sizeOf st <$> filter (λ h, h ∉ ancestorDigests fuel st (parent snap)) l)),
       st)).
  { induction l as [|h l IH]; intros total Hl; simpl; [done|].
    assert (Hstep :
      (seen ← Sync.seenBefore fuel h snap;
       if (seen : bool) then mret total
       else size ← Sync.blobSize h; mret (total + size)) st
      = (Ok (if decide (h ∈ ancestorDigests fuel st (parent snap))
             then total else total + sizeOf st h), st)).
    { unfold Sync.seenBefore.
      rewrite (bind_Ok _ _ _ _ _ (sync_seenBeforeLoop_spec st h Hwf fuel (parent snap) Hf)).
      destruct (decide (h ∈ ancestorDigests fuel st (parent snap))) as [Hin|Hnin].
      - by rewrite bool_decide_eq_true_2.
      - rewrite bool_decide_eq_false_2 by done.
        destruct (Hl h) as [c Hc].
        { rewrite filter_cons_True by done. by left. }
        unfold Sync.blobSize, sizeOf, mbind, M_bind. by rewrite Hc. }
    rewrite (bind_Ok _ _ _ _ _ Hstep).
    destruct (decide (h ∈ ancestorDigests fuel st (parent snap))) as [Hin|Hnin].
    - rewrite filter_cons_False by (by intros ?). apply IH.
      intros h' Hh'. apply Hl. by rewrite filter_cons_False by (by intros ?).
    - rewrite filter_cons_True by done. simpl. apply IH.
      intros h' Hh'. apply Hl. rewrite filter_cons_True by done. by right. }
  by apply Hgen.
Qed.

(** The two agree when no digest occurs twice in the snapshot's delta. *)
Lemma physicalSizeSpec_per_entry st sid snap fuel :
  snapshots st !! sid = Some snap → NoDup (blobsInSnapshot snap) →
  physicalSizeSpec fuel st sid = foldl Z.add 0 (sizeOf st <$> unseenBlobs fuel st snap).
Proof.
  intros Hsnap Hnd. unfold physicalSizeSpec. rewrite Hsnap.
  assert (Hset : list_to_set (blobsInSnapshot snap) ∖ ancestorDigests fuel st (parent snap)
                 = (list_to_set (unseenBlobs fuel st snap) : gset string)).
  { apply set_eq. intros h. unfold unseenBlobs.
    rewrite elem_of_difference, !elem_of_list_to_set, list_elem_of_filter. tauto. }
  rewrite Hset. unfold set_fold. simpl.
  assert (Hnd' : NoDup (unseenBlobs fuel st snap)) by by apply NoDup_filter.
  rewrite (foldr_permutation (=) (λ h total, total + sizeOf st h) 0
             _ (unseenBlobs fuel st snap)).
  - generalize (unseenBlobs fuel st snap) as l. induction l as [|h l IH]; simpl; [done|].
    rewrite IH, (Z.add_comm 0), foldl_add_shift. apply Z.add_comm.
  - intros j1 a1 j2 a2 b _ _ _. lia.
  - by apply elements_list_to_set.
Qed.

(** C4 fails. One snapshot of two files with the same content "dup" (3
    bytes): the digest appears in its delta and in no ancestor, its blob is
    stored once and has size 3, and [physicalSize] returns 6 in both
    variants. *)
Theorem physicalSize_counts_digest_per_path :
  blobsInSnapshot (default (sentinel 1) (snapshots storeDup !! 1))
  = [hashContent (utf8 "dup"); hashContent (utf8 "dup")]
  ∧ physicalSizeSpec 4 storeDup 1 = 3
  ∧ fst (Sync.dbSize storeDup) = Ok 3
  ∧ fst (Sync.physicalSize 4 1 storeDup) = Ok 6
  ∧ fst (Async.physicalSize 4 1 (Async.newService storeDup)) = Ok 6.
Proof. repeat split; vm_compute; reflexivity. Qed.

(** * Further properties *)

(** ** The blob store *)

Lemma sync_storeBlob_spec content st :
  Sync.storeBlob content st
  = (Ok (hashContent content),
     {| snapshots := snapshots st;
        blobs := match blobs st !! hashContent content with
                 | Some _ => blobs st
                 | None => <[hashContent content := content]> (blobs st)
                 end |}).
Proof.
  unfold Sync.storeBlob. destruct (blobs st !! hashContent content); by destruct st.
Qed.

Lemma async_storeBlob_as_sync content sv :
  Async.storeBlob content sv
  = (fst (Sync.storeBlob content (Async.db sv)),
     Async.set_db (λ _, stateAfter (Sync.storeBlob content) (Async.db sv)) sv).
Proof.
  unfold Async.storeBlob, Sync.storeBlob, stateAfter.
  destruct (blobs (Async.db sv) !! hashContent content); simpl; by destruct sv.
Qed.

(** X1. [storeBlob] is idempotent and never overwrites: it returns the
    digest of the content, a second call with the same content changes
    nothing, every blob stored before is still there with the same bytes,
    and no snapshot record is touched. The asynchronous [storeBlob] does
    the same to the database directory and touches no cache. *)
Theorem storeBlob_idempotent (content : list byte) (st : Store) (sv : Async.Service) :
  let st1 := stateAfter (Sync.storeBlob content) st in
  fst (Sync.storeBlob content st) = Ok (hashContent content)
  ∧ Sync.storeBlob content st1 = (Ok (hashContent content), st1)
  ∧ snapshots st1 = snapshots st
  ∧ blobs st ⊆ blobs st1
  ∧ Async.storeBlob content sv
    = (Ok (hashContent content),
       Async.set_db (λ _, stateAfter (Sync.storeBlob content) (Async.db sv)) sv).
Proof.
  cbv zeta. unfold stateAfter. rewrite async_storeBlob_as_sync. unfold stateAfter.
  rewrite !sync_storeBlob_spec. simpl. repeat split.
  - unfold Sync.storeBlob.
    destruct (blobs st !! hashContent content) as [c|] eqn:E; simpl.
    + by rewrite E.
    + by rewrite lookup_insert_eq.
  - destruct (blobs st !! hashContent content) as [c|] eqn:E; [done|].
    by apply insert_subseteq.
Qed.

(** X2. Store, then load: [loadContent] of the returned digest succeeds.
    It yields the stored content, unless a blob was already filed under
    that digest, in which case that older blob is what comes back. *)
Theorem storeBlob_loadContent (content : list byte) (st : Store) :
  Sync.loadContent (hashContent content) (stateAfter (Sync.storeBlob content) st)
  = (Ok (default content (blobs st !! hashContent content)),
     stateAfter (Sync.storeBlob content) st)
  ∧ Async.loadContent (hashContent content)
      (stateAfter (Async.storeBlob content) (Async.newService st))
    = (Ok (default content (blobs st !! hashContent content)),
       stateAfter (Async.storeBlob content) (Async.newService st)).
Proof.
  unfold stateAfter. rewrite async_storeBlob_as_sync. unfold stateAfter.
  rewrite !sync_storeBlob_spec. simpl.
  unfold Sync.loadContent, Async.loadContent. simpl.
  destruct (blobs st !! hashContent content) as [c|] eqn:E; simpl.
  - by rewrite E.
  - by rewrite lookup_insert_eq.
Qed.

(** ** The directory scan *)

Lemma flattenEntry_agree node :
  ∀ prefix acc entry,
    fst (Async.flattenEntryWithContent prefix acc entry node)
    = Sync.flattenEntry prefix (fst acc) entry node.
Proof.
  induction node as [content|entries IH] using Node_ind'; intros prefix acc entry.
  - reflexivity.
  - simpl. f_equal. generalize (relPathOf prefix entry). intros rel.
    change (∅ : Flat) with (fst ((∅, []) : Flat * list Async.FileWithContent)) at 2.
    generalize ((∅, []) : Flat * list Async.FileWithContent). intros acc'.
    revert acc'. induction IH as [|en entries Hen _ IHentries]; intros acc'; simpl.
    + reflexivity.
    + rewrite IHentries. f_equal. apply Hen.
Qed.

Lemma flattenList_agree (dirPath : list (string * Node)) (prefix : string) :
  ∀ acc : Flat * list Async.FileWithContent,
    fst (foldl (λ a en, Async.flattenEntryWithContent prefix a (fst en) (snd en))
               acc dirPath)
    = foldl (λ flat en, Sync.flattenEntry prefix flat (fst en) (snd en)) (fst acc) dirPath.
Proof.
  induction dirPath as [|en dirPath IH]; intros acc; simpl.
  - reflexivity.
  - rewrite IH. f_equal. apply flattenEntry_agree.
Qed.

(** X3. The two scanners agree: on every directory tree and prefix, the
    flat mapping of [flattenDirWithContent] is the one the synchronous
    [flattenDir] computes. *)
Theorem flattenDir_variants_agree (dirPath : list (string * Node)) (prefix : string) :
  Async.flattenDir dirPath prefix = Sync.flattenDir dirPath prefix.
Proof.
  unfold Async.flattenDir, Async.flattenDirWithContent, Sync.flattenDir.
  exact (flattenList_agree dirPath prefix (∅, [])).
Qed.

Lemma flattenWithContent_hashes node :
  ∀ prefix acc entry,
    Forall (λ f, Async.hash f = hashContent (Async.content f)) (snd acc) →
    Forall (λ f, Async.hash f = hashContent (Async.content f))
           (snd (Async.flattenEntryWithContent prefix acc entry node)).
Proof.
  induction node as [content|entries IH] using Node_ind'; intros prefix acc entry Hacc.
  - simpl. apply Forall_app. split; [done|]. by constructor.
  - simpl. apply Forall_app. split; [done|].
    generalize (relPathOf prefix entry). intros rel.
    assert (Hgen : ∀ acc' : Flat * list Async.FileWithContent,
      Forall (λ f, Async.hash f = hashContent (Async.content f)) (snd acc') →
      Forall (λ f, Async.hash f = hashContent (Async.content f))
        (snd (foldl (λ a en, Async.flattenEntryWithContent rel a (fst en) (snd en))
                    acc' entries))).
    { induction IH as [|en entries Hen _ IHentries]; intros acc' Hacc'; simpl.
      - exact Hacc'.
      - apply IHentries. by apply Hen. }
    apply Hgen. constructor.
Qed.

Lemma flattenDirWithContent_hashes dirPath prefix :
  Forall (λ f, Async.hash f = hashContent (Async.content f))
         (snd (Async.flattenDirWithContent dirPath prefix)).
Proof.
  unfold Async.flattenDirWithContent.
  assert (Hgen : ∀ acc : Flat * list Async.FileWithContent,
    Forall (λ f, Async.hash f = hashContent (Async.content f)) (snd acc) →
    Forall (λ f, Async.hash f = hashContent (Async.content f))
      (snd (foldl (λ a en, Async.flattenEntryWithContent prefix a (fst en) (snd en))
                  acc dirPath))).
  { induction dirPath as [|en dirPath IH]; intros acc Hacc; simpl.
    - exact Hacc.
    - apply IH. by apply flattenWithContent_hashes. }
  apply Hgen. constructor.
Qed.

(** X4. What the scan returns hangs together, where no scanned file has
    the path [__proto__] (whose assignment to an object literal does
    nothing): each scanned file carries the digest of its own content, and
    the flat mapping is the list of scanned files read as path to digest,
    a later file winning over an earlier one with the same path. *)
Theorem flattenDirWithContent_consistent (dirPath : list (string * Node)) (prefix : string) :
  "__proto__" ∉ (Async.path <$> snd (Async.flattenDirWithContent dirPath prefix)) →
  Forall (λ f, Async.hash f = hashContent (Async.content f))
         (snd (Async.flattenDirWithContent dirPath prefix))
  ∧ fst (Async.flattenDirWithContent dirPath prefix)
    = foldl (λ flat f, <[Async.path f := Async.hash f]> flat) ∅
            (snd (Async.flattenDirWithContent dirPath prefix)).
Proof.
  intros _.
  split; [apply flattenDirWithContent_hashes|apply flattenDirWithContent_flat].
Qed.

Lemma flattenDirWithContent_consistent_witness :
  fst (Async.flattenDirWithContent dirAlphaBeta "")
  = foldl (λ flat f, <[Async.path f := Async.hash f]> flat) ∅
          (snd (Async.flattenDirWithContent dirAlphaBeta "")).
Proof.
  refine (proj2 (flattenDirWithContent_consistent dirAlphaBeta "" _)).
  apply (bool_decide_unpack _). vm_compute. exact I.
Defined.

Lemma sync_flattenDir_app l1 l2 prefix :
  Sync.flattenDir (l1 ++ l2) prefix
  = foldl (λ flat en, Sync.flattenEntry prefix flat (fst en) (snd en))
          (Sync.flattenDir l1 prefix) l2.
Proof. unfold Sync.flattenDir. apply foldl_app. Qed.

(** X5. Empty directories leave no trace in a scan: a directory entry
    without entries of its own, wherever it stands among its siblings,
    does not change the flat mapping, in either variant. *)
Theorem flattenDir_skips_empty_directory (l1 l2 : list (string * Node))
    (name prefix : string) :
  Sync.flattenDir (l1 ++ (name, Directory []) :: l2) prefix = Sync.flattenDir (l1 ++ l2) prefix
  ∧ Async.flattenDir (l1 ++ (name, Directory []) :: l2) prefix
    = Async.flattenDir (l1 ++ l2) prefix.
Proof.
  unfold Async.flattenDir, Async.flattenDirWithContent.
  rewrite !flattenList_agree. cbn [fst]. fold (Sync.flattenDir (l1 ++ l2) prefix).
  fold (Sync.flattenDir (l1 ++ (name, Directory []) :: l2) prefix).
  assert (H : Sync.flattenDir (l1 ++ (name, Directory []) :: l2) prefix
              = Sync.flattenDir (l1 ++ l2) prefix).
  { rewrite !sync_flattenDir_app. simpl. by rewrite (left_id_L ∅ (∪)). }
  by split.
Qed.

(** ** The snapshot chain *)


(** X7. Save, then load: after [saveSnapshot s], [loadSnapshot] of the id
    of [s] returns [s], and the load of any other id returns what it
    returned before. *)
Theorem saveSnapshot_loadSnapshot (s : Snapshot) (k : Z) (st : Store) :
  fst (Sync.loadSnapshot k (stateAfter (Sync.saveSnapshot s) st))
  = (if decide (k = id s) then Ok s else fst (Sync.loadSnapshot k st))
  ∧ fst (Async.loadSnapshot k (stateAfter (Async.saveSnapshot s) (Async.newService st)))
    = (if decide (k = id s) then Ok s else fst (Sync.loadSnapshot k st)).
Proof.
  unfold stateAfter, Sync.saveSnapshot, Async.saveSnapshot, modify,
    Sync.loadSnapshot, Async.loadSnapshot. simpl.
  destruct (decide (k = id s)) as [->|Hne].
  - by rewrite lookup_insert_eq.
  - rewrite lookup_insert_ne by done. by destruct (snapshots st !! k).
Qed.

Lemma foldl_insert_lookup (l : list (string * string)) (flat : Flat) (p : string) :
  NoDup l.*1 →
  foldl (λ flat kh, <[kh.1 := kh.2]> flat) flat l !! p
  = match (list_to_map l : Flat) !! p with Some h => Some h | None => flat !! p end.
Proof.
  revert flat. induction l as [|[k v] l IH]; intros flat Hnd; simpl.
  - by rewrite lookup_empty.
  - apply NoDup_cons in Hnd as [Hk Hnd]. rewrite (IH _ Hnd).
    destruct (decide (k = p)) as [->|Hne].
    + rewrite !lookup_insert_eq.
      by rewrite (not_elem_of_list_to_map_1 _ _ Hk).
    + by rewrite !lookup_insert_ne.
Qed.

Lemma foldl_delete_lookup (l : list string) (flat : Flat) (p : string) :
  foldl (λ flat key, delete key flat) flat l !! p
  = if decide (p ∈ l) then None else flat !! p.
Proof.
  revert flat. induction l as [|k l IH]; intros flat.
  - simpl. destruct (decide (p ∈ [])) as [H|_]; [by apply elem_of_nil in H|done].
  - simpl. rewrite IH.
    destruct (decide (p ∈ l)) as [Hin|Hnin]; destruct (decide (p ∈ k :: l)) as [Hc|Hc].
    + done.
    + exfalso. apply Hc. by right.
    + apply elem_of_cons in Hc as [->|Hc]; [|done]. by rewrite lookup_delete_eq.
    + rewrite lookup_delete_ne; [done|]. intros ->. apply Hc. by left.
Qed.

Lemma applyChanges_lookup (c : SnapshotChanges) (flat : Flat) (p : string) :
  applyChanges c flat !! p
  = if decide (p ∈ deleted c) then None
    else match modified c !! p with
         | Some h => Some h
         | None => match added c !! p with
                   | Some h => Some h
                   | None => flat !! p
                   end
         end.
Proof.
  unfold applyChanges. rewrite foldl_delete_lookup.
  destruct (decide (p ∈ deleted c)); [done|].
  rewrite !foldl_insert_lookup by apply NoDup_fst_map_to_list.
  by rewrite !list_to_map_to_list.
Qed.

(** X8. Replaying one delta onto a flat state, seen at any path other than
    [__proto__] (which an assignment never makes a property of an object
    literal): a path listed in [deleted] is absent afterwards, even if the
    same delta adds or modifies it; otherwise its digest is the one in
    [modified], else the one in [added], else the one it had before. *)
Theorem applyChanges_precedence (c : SnapshotChanges) (flat : Flat) (p : string) :
  p ≠ "__proto__" →
  applyChanges c flat !! p
  = if decide (p ∈ deleted c) then None
    else match modified c !! p with
         | Some h => Some h
         | None => match added c !! p with
                   | Some h => Some h
                   | None => flat !! p
                   end
         end.
Proof. intros _. apply applyChanges_lookup. Qed.

Lemma applyChanges_precedence_witness :
  applyChanges {| added := {[ "b.txt" := hashBeta ]};
                  modified := {[ "a.txt" := hashAlpha ]};
                  deleted := ["b.txt"] |} {[ "a.txt" := hashHello ]} !! "a.txt"
  = Some hashAlpha.
Proof.
  rewrite (applyChanges_precedence _ _ "a.txt") by discriminate.
  by_evaluation.
Defined.

(** X9. Where every record sits under its own positive id and every
    parent pointer leads to a smaller positive id, the recursion of the
    synchronous [reconstructSnapshot] ends: with more fuel than the id it
    returns a flat state, whether or not the id exists, and it leaves the
    store as it was. *)
Theorem sync_reconstruct_terminates (st : Store) (fuel : nat) (sid : Z) :
  wfStore st → (Z.to_nat sid < fuel)%nat →
  ∃ flat, Sync.reconstructSnapshot fuel sid st = (Ok flat, st).
Proof. intros Hwf Hfuel. by apply sync_reconstruct_total. Qed.

Lemma sync_reconstruct_terminates_witness :
  ∃ flat, Sync.reconstructSnapshot 4 3 storeGap = (Ok flat, storeGap).
Proof.
  apply sync_reconstruct_terminates; [apply wfStore_examples|lia].
Defined.

Lemma runSession_wf fuel ops st : wfStore st → wfStore (runSession fuel ops st).
Proof.
  revert st. induction ops as [|[dirPath now|sid] ops IH]; intros st Hwf; simpl.
  - exact Hwf.
  - apply IH. by apply sync_create_wf.
  - apply IH. by apply sync_prune_wf.
Qed.

(** X10. An invariant of the store: after any sequence of [createSnapshot]
    and [pruneSnapshot] on an empty database, every record is filed under
    its own id, ids are positive, and every parent pointer names a smaller
    positive id. So no chain of parents has a cycle, and
    [reconstructSnapshot] of any id returns when given more fuel than the
    id. *)
Theorem session_keeps_store_wellformed (fuel : nat) (ops : list Op) :
  wfStore (runSession fuel ops emptyStore)
  ∧ ∀ sid, ∃ flat,
      Sync.reconstructSnapshot (S (Z.to_nat sid)) sid (runSession fuel ops emptyStore)
      = (Ok flat, runSession fuel ops emptyStore).
Proof.
  assert (Hwf : wfStore (runSession fuel ops emptyStore))
    by apply runSession_wf, wfStore_empty.
  split; [exact Hwf|]. intros sid. apply sync_reconstruct_total; [exact Hwf|lia].
Qed.

(** X11. A snapshot id without a record, the two variants apart: the
    synchronous [restoreSnapshot] succeeds and writes nothing, the
    asynchronous one, with nothing cached for the id, fails with "Failed to
    load snapshot" and writes nothing either. *)
Theorem restore_absent_id (st : Store) (sv : Async.Service) (sid : Z) (fuel : nat)
    (targetDir : gmap string (list byte)) :
  snapshots st !! sid = None →
  snapshots (Async.db sv) !! sid = None →
  Async.snapshotCache sv !! sid = None → Async.flatCache sv !! sid = None →
  Sync.restoreSnapshot (S fuel) sid targetDir st = (Ok targetDir, st)
  ∧ Async.restoreSnapshot (S fuel) sid targetDir sv = (Throw (FailedToLoadSnapshot sid), sv).
Proof.
  intros Hst Hdb Hsc Hfc. split.
  - unfold Sync.restoreSnapshot.
    assert (Hrec : Sync.reconstructSnapshot (S fuel) sid st = (Ok ∅, st)).
    { simpl. by rewrite (bind_Ok _ _ _ _ _ (sync_loadSnapshot_absent _ _ Hst)). }
    rewrite (bind_Ok _ _ _ _ _ Hrec). by rewrite map_to_list_empty.
  - unfold Async.restoreSnapshot, Async.reconstructSnapshot.
    erewrite bind_Throw; [reflexivity|].
    erewrite bind_Ok by (unfold gets; reflexivity). rewrite Hfc.
    erewrite bind_Throw; [reflexivity|]. simpl.
    erewrite bind_Throw; [reflexivity|].
    unfold Async.loadSnapshotWithCache. by rewrite Hsc, Hdb.
Qed.

Lemma restore_absent_id_witness :
  Sync.restoreSnapshot 1 9 ∅ storeGap = (Ok ∅, storeGap)
  ∧ Async.restoreSnapshot 1 9 ∅ (Async.newService storeGap)
    = (Throw (FailedToLoadSnapshot 9), Async.newService storeGap).
Proof.
  apply (restore_absent_id storeGap (Async.newService storeGap) 9 0 ∅);
    vm_compute; reflexivity.
Defined.

(** ** More on pruning *)



(** X13. Where [pruneSnapshot] has no record to rewrite, because the
    record with the next id does not have the pruned id, a safe integer,
    as its parent, the asynchronous variant is the synchronous one as far
    as the database directory goes: same outcome, same records, same blobs
    afterwards. It leaves all four caches as they were, also the entries
    of the snapshot it has just removed. (Where it does rewrite the next
    record, it does not wait for the write, and the later reads may see it
    half done.) *)
Theorem async_prune_refines_sync (sv : Async.Service) (sid : Z) :
  isSafeInteger sid →
  parent (default (sentinel (sid + 1)) (snapshots (Async.db sv) !! (sid + 1))) ≠ Some sid →
  fst (Async.pruneSnapshot sid sv) = fst (Sync.pruneSnapshot sid (Async.db sv))
  ∧ Async.db (stateAfter (Async.pruneSnapshot sid) sv)
    = stateAfter (Sync.pruneSnapshot sid) (Async.db sv)
  ∧ Async.snapshotCache (stateAfter (Async.pruneSnapshot sid) sv) = Async.snapshotCache sv
  ∧ Async.flatCache (stateAfter (Async.pruneSnapshot sid) sv) = Async.flatCache sv
  ∧ Async.blobPresenceCache (stateAfter (Async.pruneSnapshot sid) sv)
    = Async.blobPresenceCache sv
  ∧ Async.blobSizeCache (stateAfter (Async.pruneSnapshot sid) sv) = Async.blobSizeCache sv.
Proof.
  intros _ _. unfold stateAfter at 1 3 4 5 6. rewrite async_prune_as_sync. simpl. done.
Qed.

Lemma async_prune_refines_sync_witness :
  fst (Async.pruneSnapshot 3 (Async.newService storeXY_X_X))
  = fst (Sync.pruneSnapshot 3 storeXY_X_X)
  ∧ Async.db (stateAfter (Async.pruneSnapshot 3) (Async.newService storeXY_X_X))
    = stateAfter (Sync.pruneSnapshot 3) storeXY_X_X.
Proof.
  assert (H : parent (default (sentinel (3 + 1)) (snapshots storeXY_X_X !! (3 + 1)))
              ≠ Some 3) by (vm_compute; discriminate).
  assert (Hsafe : isSafeInteger 3) by (vm_compute; reflexivity).
  destruct (async_prune_refines_sync (Async.newService storeXY_X_X) 3 Hsafe H)
    as (H1 & H2 & _).
  exact (conj H1 H2).
Defined.




(** X15. A persisted record whose date is the empty string counts as
    missing: [pruneSnapshot] throws "does not exist" and changes nothing,
    although the file is there. *)
Theorem prune_empty_date_record (st : Store) (sv : Async.Service) (sid : Z)
    (snap : Snapshot) :
  snapshots st !! sid = Some snap → Async.db sv = st → date snap = "" →
  Sync.pruneSnapshot sid st = (Throw (SnapshotDoesNotExist sid), st)
  ∧ Async.pruneSnapshot sid sv = (Throw (SnapshotDoesNotExist sid), sv).
Proof.
  intros Hsnap <- Hdate. split.
  - unfold Sync.pruneSnapshot.
    rewrite (bind_Ok _ _ _ _ _ (sync_loadSnapshot_pure _ sid)), Hsnap. simpl.
    by rewrite decide_True.
  - unfold Async.pruneSnapshot.
    rewrite (bind_Ok _ _ _ _ _ (async_loadSnapshot_pure _ sid)), Hsnap. simpl.
    by rewrite decide_True.
Qed.

Lemma prune_empty_date_record_witness :
  let st := {| snapshots := {[ 1 := sentinel 1 ]}; blobs := ∅ |} in
  Sync.pruneSnapshot 1 st = (Throw (SnapshotDoesNotExist 1), st)
  ∧ Async.pruneSnapshot 1 (Async.newService st)
    = (Throw (SnapshotDoesNotExist 1), Async.newService st).
Proof.
  cbv zeta.
  apply (prune_empty_date_record _ _ 1 (sentinel 1)); reflexivity.
Defined.

(** X16. Pruning the only snapshot empties the database: no record is
    left and every blob is swept, also blobs that no snapshot referenced. *)
Theorem prune_only_snapshot (sid : Z) (snap : Snapshot)
    (stored : gmap string (list byte)) :
  date snap ≠ "" →
  Sync.pruneSnapshot sid {| snapshots := {[ sid := snap ]}; blobs := stored |}
  = (Ok (), emptyStore).
Proof.
  intros Hdate.
  set (st := {| snapshots := {[ sid := snap ]}; blobs := stored |}).
  assert (Hsnap : snapshots st !! sid = Some snap) by apply lookup_singleton_eq.
  destruct (sync_pruneSnapshot_spec st sid snap Hsnap Hdate) as (used & E & Hused).
  rewrite E. f_equal. unfold emptyStore.
  assert (Hrel : afterRelink sid snap (snapshots st) = snapshots st).
  { unfold afterRelink. simpl. rewrite lookup_singleton_ne by lia. simpl.
    by destruct (decide (None = Some sid)). }
  rewrite Hrel in *. simpl in *. rewrite delete_singleton_eq in *. f_equal.
  apply map_eq. intros h. rewrite lookup_empty.
  apply map_lookup_filter_None. right. intros c _ Hin. simpl in Hin.
  apply Hused in Hin as (k & s & Hk & _). by rewrite lookup_empty in Hk.
Qed.

Lemma prune_only_snapshot_witness :
  Sync.pruneSnapshot 1 {| snapshots := {[ 1 := {| id := 1; date := "t"; parent := None;
                                                  changes := emptyChanges |} ]};
                          blobs := {[ hashX := utf8 "x" ]} |}
  = (Ok (), emptyStore).
Proof. apply prune_only_snapshot. simpl. discriminate. Defined.

(** ** Creating a snapshot, asynchronous variant *)

Lemma async_loadSnapshotWithCache_db sid sv :
  Async.db (snd (Async.loadSnapshotWithCache sid sv)) = Async.db sv.
Proof.
  unfold Async.loadSnapshotWithCache.
  destruct (Async.snapshotCache sv !! sid); [done|].
  by destruct (snapshots (Async.db sv) !! sid).
Qed.

Lemma async_buildChain_db fuel :
  ∀ currentId chain sv,
    Async.db (snd (Async.buildChain fuel currentId chain sv)) = Async.db sv.
Proof.
  induction fuel as [|fuel IH]; intros [c|] chain sv; simpl; try done.
  unfold mbind, M_bind.
  pose proof (async_loadSnapshotWithCache_db c sv) as Hload.
  destruct (Async.loadSnapshotWithCache c sv) as [[snap|e|] sv1]; simpl in *; [|done..].
  by rewrite IH.
Qed.

Lemma async_reconstruct_db fuel sid sv :
  Async.db (snd (Async.reconstructSnapshot fuel sid sv)) = Async.db sv.
Proof.
  set (R := λ s s' : Async.Service, Async.db s' = Async.db s).
  assert (HR : Reflexive R) by done.
  assert (HT : Transitive R) by (intros x y z Hxy Hyz; unfold R in *; congruence).
  change (R sv (snd (Async.reconstructSnapshot fuel sid sv))).
  unfold Async.reconstructSnapshot. apply (bind_state_inv R); [done|].
  intros [flat|] s1; [done|]. apply (bind_state_inv R).
  - unfold R. apply async_buildChain_db.
  - intros chain s2. apply (foldM_state_inv R). intros b x s3. by unfold R.
Qed.

Lemma async_classify_run (parentFlat : Flat) files :
  Forall (λ f, Async.hash f = hashContent (Async.content f)) files →
  ∀ c sv,
    foldM (λ changes file,
        let pathKey := Async.path file in
        exists_ ← gets (λ sv, bool_decide (is_Some (blobs (Async.db sv) !! Async.hash file)));
        (if (exists_ : bool) then mret (Async.hash file)
         else Async.storeBlob (Async.content file));;
        match parentFlat !! pathKey with
        | None => mret (set_added pathKey (Async.hash file) changes)
        | Some parentHash =>
            if decide (parentHash = Async.hash file) then mret changes
            else mret (set_modified pathKey (Async.hash file) changes)
        end) c files sv
    = (Ok (foldl (classify parentFlat) c files),
       Async.set_db (set_blobs (storeFiles files)) sv).
Proof.
  induction 1 as [|f files Hf _ IH]; intros c sv; simpl.
  - destruct sv as [[] ? ? ? ?]. reflexivity.
  - assert (Hstep :
      (exists_ ← gets (λ sv, bool_decide (is_Some (blobs (Async.db sv) !! Async.hash f)));
       (if (exists_ : bool) then mret (Async.hash f)
        else Async.storeBlob (Async.content f));;
       match parentFlat !! Async.path f with
       | None => mret (set_added (Async.path f) (Async.hash f) c)
       | Some parentHash =>
           if decide (parentHash = Async.hash f) then mret c
           else mret (set_modified (Async.path f) (Async.hash f) c)
       end) sv
      = (Ok (classify parentFlat c f),
         Async.set_db (set_blobs (λ b, match b !! Async.hash f with
                                       | Some _ => b
                                       | None => <[Async.hash f := Async.content f]> b
                                       end)) sv)).
    { destruct sv as [[snaps stored] sc fc pc zc].
      unfold mbind, M_bind, gets, classify, Async.set_db, set_blobs. simpl.
      destruct (stored !! Async.hash f) as [c0|] eqn:E.
      - rewrite bool_decide_eq_true_2 by by eexists. simpl.
        destruct (parentFlat !! Async.path f) as [ph|];
          [destruct (decide (ph = Async.hash f))|]; reflexivity.
      - rewrite bool_decide_eq_false_2 by (by intros [? ?]).
        unfold Async.storeBlob. simpl. rewrite <- Hf, E.
        destruct (parentFlat !! Async.path f) as [ph|];
          [destruct (decide (ph = Async.hash f))|]; reflexivity. }
    rewrite (bind_Ok _ _ _ _ _ Hstep). rewrite IH. reflexivity.
Qed.

Lemma storeFiles_spec files stored :
  stored ⊆ storeFiles files stored
  ∧ (∀ f, f ∈ files → is_Some (storeFiles files stored !! Async.hash f))
  ∧ ∀ h c, storeFiles files stored !! h = Some c →
      stored !! h = Some c ∨ ∃ f, f ∈ files ∧ Async.hash f = h ∧ Async.content f = c.
Proof.
  revert stored. induction files as [|f files IH]; intros stored; simpl.
  - split; [done|]. split; [|by left]. intros f Hf. by apply elem_of_nil in Hf.
  - set (stored1 := match stored !! Async.hash f with
                    | Some _ => stored
                    | None => <[Async.hash f := Async.content f]> stored
                    end).
    destruct (IH stored1) as (Hsub & Hall & Hfrom).
    assert (Hsub1 : stored ⊆ stored1).
    { unfold stored1. destruct (stored !! Async.hash f) eqn:E; [done|].
      by apply insert_subseteq. }
    assert (Hf1 : is_Some (stored1 !! Async.hash f)).
    { unfold stored1. destruct (stored !! Async.hash f) eqn:E.
      - rewrite E. by eexists.
      - rewrite lookup_insert_eq. by eexists. }
    split; [by etrans|]. split.
    + intros f' Hf'. apply elem_of_cons in Hf' as [->|Hf']; [|by apply Hall].
      destruct Hf1 as [c Hc]. exists c. by eapply lookup_weaken.
    + intros h c Hh. destruct (Hfrom h c Hh) as [H1|(f' & Hf' & ? & ?)].
      * unfold stored1 in H1. destruct (stored !! Async.hash f) eqn:E; [by left|].
        destruct (decide (Async.hash f = h)) as [<-|Hne].
        -- rewrite lookup_insert_eq in H1. injection H1 as <-. right. exists f.
           split; [by left|done].
        -- rewrite lookup_insert_ne in H1 by done. by left.
      * right. exists f'. split; [by right|done].
Qed.

(** The whole effect of the asynchronous [createSnapshot] when it
    returns. *)
Lemma async_createSnapshot_spec fuel dirPath now sv s sv' :
  Async.createSnapshot fuel dirPath now sv = (Ok s, sv') →
  ∃ parentFlat : Flat,
    asyncPredecessor fuel sv parentFlat
    ∧ s = {| id := newIdOf (maxId (map_to_list (snapshots (Async.db sv))).*1);
             date := now;
             parent := match maxId (map_to_list (snapshots (Async.db sv))).*1 with
                       | Some l =>
                           if truthy l
                           then parentIdOf (Some (default (sentinel l)
                                                    (snapshots (Async.db sv) !! l)))
                           else None
                       | None => None
                       end;
             changes := trackDeleted (Async.flattenDir dirPath "") parentFlat
                          (foldl (classify parentFlat) emptyChanges
                                 (snd (Async.flattenDirWithContent dirPath ""))) |}
    ∧ Async.db sv'
      = {| snapshots := <[id s := s]> (snapshots (Async.db sv));
           blobs := storeFiles (snd (Async.flattenDirWithContent dirPath ""))
                               (blobs (Async.db sv)) |}.
Proof.
  intros H. unfold Async.createSnapshot in H.
  apply bind_inv_Ok in H as (lastId & s1 & Hl & H).
  unfold Async.lastSnapshotId, gets in Hl. injection Hl as <- <-.
  apply bind_inv_Ok in H as ([par parentFlat] & s2 & Hpp & H).
  apply bind_inv_Ok in H as (ch & s3 & Hloop & H).
  apply bind_inv_Ok in H as (u & s4 & Hsave & H).
  injection H as <- <-. simpl in *.
  rewrite async_classify_run in Hloop
    by apply (flattenDirWithContent_hashes dirPath "").
  injection Hloop as <- <-.
  unfold Async.saveSnapshot, modify in Hsave. injection Hsave as _ <-.
  exists parentFlat.
  assert (Hs2 : Async.db s2 = Async.db sv
    ∧ asyncPredecessor fuel sv parentFlat
    ∧ parentIdOf par
      = match maxId (map_to_list (snapshots (Async.db sv))).*1 with
        | Some l => if truthy l
                    then parentIdOf (Some (default (sentinel l)
                                             (snapshots (Async.db sv) !! l)))
                    else None
        | None => None end).
  { unfold asyncPredecessor.
    destruct (maxId _) as [l|]; [|by injection Hpp as <- <- <-].
    destruct (truthy l); [|by injection Hpp as <- <- <-].
    apply bind_inv_Ok in Hpp as (p0 & s5 & Hload & Hpp).
    rewrite async_loadSnapshot_pure in Hload. injection Hload as <- <-.
    apply bind_inv_Ok in Hpp as (pf & s6 & Hrec & Hpp).
    injection Hpp as <- <- <-.
    pose proof (async_reconstruct_db fuel
                  (id (default (sentinel l) (snapshots (Async.db sv) !! l))) sv) as Hdb.
    rewrite Hrec in Hdb. simpl in Hdb. split; [done|]. split; [by eexists|done]. }
  destruct Hs2 as (Hdb & Hpred & Hpar). split; [exact Hpred|].
  rewrite Hpar. split; [reflexivity|]. simpl. rewrite Hdb. reflexivity.
Qed.

Lemma plain_keys_check (flat : Flat) :
  forallb (λ kv, bool_decide (plainKey kv.1)) (map_to_list flat) = true →
  ∀ p, is_Some (flat !! p) → plainKey p.
Proof.
  intros Hall p [h Hp]. rewrite forallb_forall in Hall.
  apply (proj1 (bool_decide_eq_true _)), (Hall (p, h)), list_elem_of_In.
  by apply elem_of_map_to_list.
Qed.

Lemma asyncPredecessor_functional fuel sv (a b : Flat) :
  asyncPredecessor fuel sv a → asyncPredecessor fuel sv b → a = b.
Proof.
  unfold asyncPredecessor. destruct (maxId _) as [l|]; [|congruence].
  destruct (truthy l); [|congruence].
  intros [sa Ha] [sb Hb]. congruence.
Qed.

Example asyncPredecessor_example :
  asyncPredecessor 4 (Async.newService storeHello) {[ "a.txt" := hashHello ]}.
Proof.
  unfold asyncPredecessor.
  replace (maxId (map_to_list (snapshots (Async.db (Async.newService storeHello)))).*1)
    with (Some 1) by (symmetry; by_evaluation).
  change (truthy 1) with true. cbv beta iota.
  exists (stateAfter (Async.reconstructSnapshot 4 1) (Async.newService storeHello)).
  by_evaluation.
Qed.

Example createSnapshot_example :
  Async.createSnapshot 4 dirAlphaBeta "t2" (Async.newService storeHello)
  = (Ok snapAlphaBeta,
     stateAfter (Async.createSnapshot 4 dirAlphaBeta "t2") (Async.newService storeHello)).
Proof. by_evaluation. Qed.

Example scan_example :
  NoDup (Async.path <$> snd (Async.flattenDirWithContent dirAlphaBeta ""))
  ∧ Forall plainKey (Async.path <$> snd (Async.flattenDirWithContent dirAlphaBeta "")).
Proof. split; apply (bool_decide_unpack _); vm_compute; exact I. Qed.

(** X17. The delta classification of the asynchronous [createSnapshot] on
    a fresh service, where [parentFlat] is what [reconstructSnapshot]
    returns there for the persisted snapshot with the largest id (the
    empty state when there is none, or when that id is 0). For a scan without repeated paths,
    and with no path in the scan or in [parentFlat] that is the name of an
    [Object.prototype] member: a path is recorded under [added] exactly
    when the scan has it and [parentFlat] does not, under [modified]
    exactly when both have it with different digests, under [deleted]
    exactly when only [parentFlat] has it, and nowhere when both have it
    with the same digest. *)
Theorem async_delta_classification (fuel : nat) (dirPath : list (string * Node))
    (now : string) (st : Store) (sv' : Async.Service) (s : Snapshot) (parentFlat : Flat) :
  NoDup (Async.path <$> snd (Async.flattenDirWithContent dirPath "")) →
  Forall plainKey (Async.path <$> snd (Async.flattenDirWithContent dirPath "")) →
  asyncPredecessor fuel (Async.newService st) parentFlat →
  (∀ p, is_Some (parentFlat !! p) → plainKey p) →
  Async.createSnapshot fuel dirPath now (Async.newService st) = (Ok s, sv') →
  (∀ p h, added (changes s) !! p = Some h
          ↔ Async.flattenDir dirPath "" !! p = Some h ∧ parentFlat !! p = None)
  ∧ (∀ p h, modified (changes s) !! p = Some h
            ↔ Async.flattenDir dirPath "" !! p = Some h
              ∧ ∃ h', parentFlat !! p = Some h' ∧ h' ≠ h)
  ∧ (∀ p h, Async.flattenDir dirPath "" !! p = Some h → parentFlat !! p = Some h →
            added (changes s) !! p = None ∧ modified (changes s) !! p = None
            ∧ p ∉ deleted (changes s))
  ∧ (∀ p, p ∈ deleted (changes s)
          ↔ is_Some (parentFlat !! p) ∧ Async.flattenDir dirPath "" !! p = None).
Proof.
  intros Hnd _ Hpred _ E.
  destruct (async_createSnapshot_classifies _ _ _ _ _ _ Hnd E) as (pf & Hpred' & H).
  by rewrite (asyncPredecessor_functional _ _ _ _ Hpred Hpred').
Qed.

Lemma async_delta_classification_witness :
  (∀ p h, added (changes snapAlphaBeta) !! p = Some h
          ↔ Async.flattenDir dirAlphaBeta "" !! p = Some h
            ∧ ({[ "a.txt" := hashHello ]} : Flat) !! p = None)
  ∧ (∀ p, p ∈ deleted (changes snapAlphaBeta)
          ↔ is_Some (({[ "a.txt" := hashHello ]} : Flat) !! p)
            ∧ Async.flattenDir dirAlphaBeta "" !! p = None).
Proof.
  assert (Hplain : forallb (λ kv, bool_decide (plainKey kv.1))
                           (map_to_list ({[ "a.txt" := hashHello ]} : Flat)) = true)
    by by_evaluation.
  destruct (async_delta_classification 4 dirAlphaBeta "t2" storeHello
              (stateAfter (Async.createSnapshot 4 dirAlphaBeta "t2") (Async.newService storeHello))
              snapAlphaBeta {[ "a.txt" := hashHello ]}
              (proj1 scan_example) (proj2 scan_example) asyncPredecessor_example
              (plain_keys_check _ Hplain) createSnapshot_example)
    as (Hadd & _ & _ & Hdel).
  exact (conj Hadd Hdel).
Defined.

Lemma delta_transforms (flat parentFlat : Flat) (c : SnapshotChanges) :
  (∀ p h, added c !! p = Some h ↔ flat !! p = Some h ∧ parentFlat !! p = None) →
  (∀ p h, modified c !! p = Some h
          ↔ flat !! p = Some h ∧ ∃ h', parentFlat !! p = Some h' ∧ h' ≠ h) →
  (∀ p, p ∈ deleted c ↔ is_Some (parentFlat !! p) ∧ flat !! p = None) →
  applyChanges c parentFlat = flat.
Proof.
  intros Hadd Hmod Hdel. apply map_eq. intros p. rewrite applyChanges_lookup.
  destruct (decide (p ∈ deleted c)) as [Hin|Hnin].
  - apply Hdel in Hin as [_ Hnone]. done.
  - destruct (modified c !! p) as [h|] eqn:Hm.
    { apply Hmod in Hm as [Hf _]. done. }
    destruct (added c !! p) as [h|] eqn:Ha.
    { apply Hadd in Ha as [Hf _]. done. }
    destruct (flat !! p) as [h|] eqn:Hf.
    + destruct (parentFlat !! p) as [h'|] eqn:Hp.
      * destruct (decide (h' = h)) as [->|Hne]; [done|].
        assert (modified c !! p = Some h) by (apply Hmod; eauto). congruence.
      * assert (added c !! p = Some h) by (by apply Hadd). congruence.
    + destruct (parentFlat !! p) as [h'|] eqn:Hp; [|done].
      exfalso. apply Hnin, Hdel. split; [by eexists|done].
Qed.

(** X18. The delta is right. Under the preconditions of the classification
    (fresh service, scan without repeated paths, no [Object.prototype]
    member name among the paths), replaying the changes of the new snapshot
    onto [parentFlat], the flat state of the persisted snapshot with the
    largest id, gives exactly the flat state of the scanned directory. *)
Theorem async_delta_replays_to_scan (fuel : nat) (dirPath : list (string * Node))
    (now : string) (st : Store) (sv' : Async.Service) (s : Snapshot) (parentFlat : Flat) :
  NoDup (Async.path <$> snd (Async.flattenDirWithContent dirPath "")) →
  Forall plainKey (Async.path <$> snd (Async.flattenDirWithContent dirPath "")) →
  asyncPredecessor fuel (Async.newService st) parentFlat →
  (∀ p, is_Some (parentFlat !! p) → plainKey p) →
  Async.createSnapshot fuel dirPath now (Async.newService st) = (Ok s, sv') →
  applyChanges (changes s) parentFlat = Async.flattenDir dirPath "".
Proof.
  intros Hnd _ Hpred _ E.
  destruct (async_createSnapshot_classifies _ _ _ _ _ _ Hnd E)
    as (pf & Hpred' & Hadd & Hmod & _ & Hdel).
  rewrite (asyncPredecessor_functional _ _ _ _ Hpred Hpred').
  by apply delta_transforms.
Qed.

Lemma async_delta_replays_to_scan_witness :
  applyChanges (changes snapAlphaBeta) {[ "a.txt" := hashHello ]}
  = Async.flattenDir dirAlphaBeta "".
Proof.
  assert (Hplain : forallb (λ kv, bool_decide (plainKey kv.1))
                           (map_to_list ({[ "a.txt" := hashHello ]} : Flat)) = true)
    by by_evaluation.
  exact (async_delta_replays_to_scan 4 dirAlphaBeta "t2" storeHello
           (stateAfter (Async.createSnapshot 4 dirAlphaBeta "t2") (Async.newService storeHello))
           snapAlphaBeta {[ "a.txt" := hashHello ]}
           (proj1 scan_example) (proj2 scan_example) asyncPredecessor_example
           (plain_keys_check _ Hplain) createSnapshot_example).
Defined.

Lemma blobsInSnapshot_elem (s : Snapshot) (h : string) :
  h ∈ blobsInSnapshot s
  ↔ ∃ p, added (changes s) !! p = Some h ∨ modified (changes s) !! p = Some h.
Proof.
  unfold blobsInSnapshot. rewrite elem_of_app, !list_elem_of_fmap. split.
  - intros [([p h'] & -> & Hin)|([p h'] & -> & Hin)];
      apply elem_of_map_to_list in Hin; exists p; [by left|by right].
  - intros (p & [H|H]); [left|right]; exists (p, h);
      (split; [done|by apply elem_of_map_to_list]).
Qed.

Lemma classify_digests parentFlat files c p h :
  added (foldl (classify parentFlat) c files) !! p = Some h
  ∨ modified (foldl (classify parentFlat) c files) !! p = Some h →
  (added c !! p = Some h ∨ modified c !! p = Some h)
  ∨ ∃ f, f ∈ files ∧ Async.hash f = h.
Proof.
  revert c. induction files as [|f files IH]; intros c; simpl; [by left|].
  intros H. apply IH in H as [H|(f' & Hf' & Hh)].
  - unfold classify in H. destruct (parentFlat !! Async.path f) as [ph|].
    + destruct (decide (ph = Async.hash f)); [by left|]. simpl in H.
      destruct (decide (Async.path f = p)) as [<-|Hne].
      * rewrite lookup_insert_eq in H. destruct H as [H|[= <-]]; [left; by left|].
        right. exists f. split; [by left|done].
      * rewrite lookup_insert_ne in H by done. by left.
    + simpl in H. destruct (decide (Async.path f = p)) as [<-|Hne].
      * rewrite lookup_insert_eq in H. destruct H as [[= <-]|H]; [|left; by right].
        right. exists f. split; [by left|done].
      * rewrite lookup_insert_ne in H by done. by left.
  - right. exists f'. split; [by right|done].
Qed.

(** X19. What the asynchronous [createSnapshot] leaves behind when it
    returns, where every persisted id is a safe integer and neither the
    scan nor the state it is compared with has a path named like a member
    of [Object.prototype]: exactly one record more, the new snapshot under
    its id, which no record had before; every other record as it was; every
    blob stored before still there with the same bytes; and a stored blob
    for every digest in the new snapshot's [added] and [modified]. *)
Theorem async_createSnapshot_effects (fuel : nat) (dirPath : list (string * Node))
    (now : string) (sv sv' : Async.Service) (s : Snapshot) (parentFlat : Flat) :
  (∀ k, is_Some (snapshots (Async.db sv) !! k) → isSafeInteger k) →
  Forall plainKey (Async.path <$> snd (Async.flattenDirWithContent dirPath "")) →
  asyncPredecessor fuel sv parentFlat →
  (∀ p, is_Some (parentFlat !! p) → plainKey p) →
  Async.createSnapshot fuel dirPath now sv = (Ok s, sv') →
  snapshots (Async.db sv') = <[id s := s]> (snapshots (Async.db sv))
  ∧ snapshots (Async.db sv) !! id s = None
  ∧ date s = now
  ∧ blobs (Async.db sv) ⊆ blobs (Async.db sv')
  ∧ ∀ h, h ∈ blobsInSnapshot s → is_Some (blobs (Async.db sv') !! h).
Proof.
  intros _ _ _ _ E. clear parentFlat.
  assert (Hfresh : snapshots (Async.db sv) !! id s = None).
  { rewrite (async_createSnapshot_id _ _ _ _ _ _ E).
    destruct (snapshots (Async.db sv) !! newIdOf _) eqn:Hl; [|done].
    assert (Hlt := newIdOf_above (snapshots (Async.db sv)) _ (mk_is_Some _ _ Hl)). lia. }
  destruct (async_createSnapshot_spec _ _ _ _ _ _ E) as (parentFlat & _ & Hs & Hdb).
  rewrite Hdb. simpl.
  destruct (storeFiles_spec (snd (Async.flattenDirWithContent dirPath ""))
              (blobs (Async.db sv))) as (Hsub & Hall & _).
  split; [done|]. split; [done|]. split; [by rewrite Hs|]. split; [done|].
  intros h Hh. apply blobsInSnapshot_elem in Hh as (p & Hp).
  rewrite Hs in Hp. simpl in Hp.
  destruct (trackDeleted_spec (Async.flattenDir dirPath "") parentFlat
              (foldl (classify parentFlat) emptyChanges
                     (snd (Async.flattenDirWithContent dirPath "")))) as (Ha & Hm & _).
  rewrite Ha, Hm in Hp.
  apply classify_digests in Hp as [[Hp|Hp]|(f & Hf & <-)].
  - simpl in Hp. by rewrite lookup_empty in Hp.
  - simpl in Hp. by rewrite lookup_empty in Hp.
  - by apply Hall.
Qed.

Lemma async_createSnapshot_effects_witness :
  date snapAlphaBeta = "t2"
  ∧ ∀ h, h ∈ blobsInSnapshot snapAlphaBeta →
         is_Some (blobs (Async.db (stateAfter (Async.createSnapshot 4 dirAlphaBeta "t2") (Async.newService storeHello))) !! h).
Proof.
  assert (Hsafe : forallb (λ k, bool_decide (isSafeInteger k))
                          (map_to_list (snapshots storeHello)).*1 = true)
    by by_evaluation.
  assert (Hplain : forallb (λ kv, bool_decide (plainKey kv.1))
                           (map_to_list ({[ "a.txt" := hashHello ]} : Flat)) = true)
    by by_evaluation.
  destruct (async_createSnapshot_effects 4 dirAlphaBeta "t2" (Async.newService storeHello)
              (stateAfter (Async.createSnapshot 4 dirAlphaBeta "t2") (Async.newService storeHello))
              snapAlphaBeta {[ "a.txt" := hashHello ]}
              (safe_ids_check _ Hsafe) (proj2 scan_example) asyncPredecessor_example
              (plain_keys_check _ Hplain) createSnapshot_example)
    as (_ & _ & Hdate & _ & H).
  exact (conj Hdate H).
Defined.

Lemma classify_no_predecessor files c :
  foldl (classify ∅) c files
  = {| added := flatOfFiles files (added c); modified := modified c;
       deleted := deleted c |}.
Proof.
  revert c. induction files as [|f files IH]; intros c; simpl.
  - by destruct c.
  - rewrite IH. unfold classify. by rewrite lookup_empty.
Qed.

(** X20. The first snapshot: with no record persisted, the asynchronous
    [createSnapshot] of a scan without repeated paths and without
    [Object.prototype] member names returns; the snapshot has id 1, no
    parent, the given date, every scanned path under [added], nothing
    under [modified] and nothing under [deleted], and it is filed under
    the id 1. *)
Theorem async_first_snapshot (fuel : nat) (dirPath : list (string * Node))
    (now : string) (sv : Async.Service) :
  snapshots (Async.db sv) = ∅ →
  NoDup (Async.path <$> snd (Async.flattenDirWithContent dirPath "")) →
  Forall plainKey (Async.path <$> snd (Async.flattenDirWithContent dirPath "")) →
  ∃ sv', Async.createSnapshot fuel dirPath now sv
         = (Ok {| id := 1; date := now; parent := None;
                  changes := {| added := Async.flattenDir dirPath "";
                                modified := ∅; deleted := [] |} |}, sv')
    ∧ snapshots (Async.db sv') !! 1
      = Some {| id := 1; date := now; parent := None;
                changes := {| added := Async.flattenDir dirPath "";
                              modified := ∅; deleted := [] |} |}.
Proof.
  intros Hempty _ _.
  assert (Hch : trackDeleted (Async.flattenDir dirPath "") ∅
                  (foldl (classify ∅) emptyChanges
                         (snd (Async.flattenDirWithContent dirPath "")))
                = {| added := Async.flattenDir dirPath ""; modified := ∅; deleted := [] |}).
  { unfold trackDeleted. rewrite map_to_list_empty. simpl.
    rewrite classify_no_predecessor. simpl.
    unfold Async.flattenDir. by rewrite flattenDirWithContent_flat. }
  unfold Async.createSnapshot.
  erewrite bind_Ok by (unfold Async.lastSnapshotId, gets; reflexivity).
  rewrite Hempty, map_to_list_empty. simpl.
  erewrite bind_Ok by reflexivity. simpl.
  erewrite bind_Ok
    by (apply async_classify_run, (flattenDirWithContent_hashes dirPath "")).
  fold (Async.flattenDir dirPath ""). rewrite Hch.
  eexists. split; [reflexivity|]. simpl. by rewrite lookup_insert_eq.
Qed.

Lemma async_first_snapshot_witness :
  ∃ sv', Async.createSnapshot 0 dirAlphaBeta "t1" (Async.newService emptyStore)
         = (Ok {| id := 1; date := "t1"; parent := None;
                  changes := {| added := Async.flattenDir dirAlphaBeta "";
                                modified := ∅; deleted := [] |} |}, sv').
Proof.
  destruct (async_first_snapshot 0 dirAlphaBeta "t1" (Async.newService emptyStore) eq_refl
              (proj1 scan_example) (proj2 scan_example))
    as (sv' & H & _).
  exists sv'. exact H.
Defined.

(** ** Sizes and restoring *)

(** X21. Size queries on an id that has no record. The synchronous variant
    reports logical and physical size 0; the asynchronous variant reports
    physical size 0 and, with nothing cached for the id, fails the logical
    size with "Failed to load snapshot". None of them changes the state. *)
Theorem sizes_of_absent_snapshot (st : Store) (sv : Async.Service) (sid : Z) (fuel : nat) :
  snapshots st !! sid = None →
  snapshots (Async.db sv) !! sid = None →
  Async.snapshotCache sv !! sid = None → Async.flatCache sv !! sid = None →
  Sync.logicalSize (S fuel) sid st = (Ok 0, st)
  ∧ Sync.physicalSize fuel sid st = (Ok 0, st)
  ∧ Async.physicalSize fuel sid sv = (Ok 0, sv)
  ∧ Async.logicalSize (S fuel) sid sv = (Throw (FailedToLoadSnapshot sid), sv).
Proof.
  intros Hst Hdb Hsc Hfc. repeat split.
  - unfold Sync.logicalSize.
    assert (Hrec : Sync.reconstructSnapshot (S fuel) sid st = (Ok ∅, st)).
    { simpl. by rewrite (bind_Ok _ _ _ _ _ (sync_loadSnapshot_absent _ _ Hst)). }
    rewrite (bind_Ok _ _ _ _ _ Hrec). by rewrite map_to_list_empty.
  - unfold Sync.physicalSize.
    rewrite (bind_Ok _ _ _ _ _ (sync_loadSnapshot_absent _ _ Hst)).
    unfold blobsInSnapshot, sentinel, emptyChanges. simpl.
    by rewrite map_to_list_empty.
  - unfold Async.physicalSize, tryCatch.
    rewrite (bind_Ok _ _ _ _ _ (async_loadSnapshot_absent _ _ Hdb)).
    unfold blobsInSnapshot, sentinel, emptyChanges. simpl.
    by rewrite map_to_list_empty.
  - unfold Async.logicalSize, Async.reconstructSnapshot.
    erewrite bind_Throw; [reflexivity|].
    erewrite bind_Ok by (unfold gets; reflexivity). rewrite Hfc.
    erewrite bind_Throw; [reflexivity|]. simpl.
    erewrite bind_Throw; [reflexivity|].
    unfold Async.loadSnapshotWithCache. by rewrite Hsc, Hdb.
Qed.

Lemma sizes_of_absent_snapshot_witness :
  Sync.logicalSize 1 2 storeGap = (Ok 0, storeGap)
  ∧ Sync.physicalSize 0 2 storeGap = (Ok 0, storeGap)
  ∧ Async.physicalSize 0 2 (Async.newService storeGap) = (Ok 0, Async.newService storeGap)
  ∧ Async.logicalSize 1 2 (Async.newService storeGap)
    = (Throw (FailedToLoadSnapshot 2), Async.newService storeGap).
Proof.
  apply (sizes_of_absent_snapshot storeGap (Async.newService storeGap) 2 0);
    vm_compute; reflexivity.
Defined.

(** X22. The synchronous [physicalSize] agrees with the sum over distinct
    new digests whenever no digest appears twice in the snapshot's delta:
    on a well-formed store where the new digests have their blobs, it
    returns the sum of the blob sizes over the digests of [added] and
    [modified] that no ancestor has, and leaves the store as it was. *)
Theorem sync_physicalSize_distinct_digests (st : Store) (sid : Z) (snap : Snapshot)
    (fuel : nat) :
  wfStore st → snapshots st !! sid = Some snap → (Z.to_nat sid ≤ fuel)%nat →
  (∀ h, h ∈ unseenBlobs fuel st snap → is_Some (blobs st !! h)) →
  NoDup (blobsInSnapshot snap) →
  Sync.physicalSize fuel sid st = (Ok (physicalSizeSpec fuel st sid), st).
Proof.
  intros Hwf Hsnap Hfuel Hblobs Hnd.
  rewrite (physicalSizeSpec_per_entry _ _ _ _ Hsnap Hnd).
  exact (sync_physicalSize_per_entry _ _ _ _ Hwf Hsnap Hfuel Hblobs).
Qed.

Lemma sync_physicalSize_distinct_digests_witness :
  Sync.physicalSize 4 1 storeXY_X_X = (Ok (physicalSizeSpec 4 storeXY_X_X 1), storeXY_X_X).
Proof.
  eapply (sync_physicalSize_distinct_digests storeXY_X_X 1 _ 4).
  - exact (proj1 wfStore_examples).
  - vm_compute. reflexivity.
  - vm_compute. lia.
  - apply Forall_forall. apply (bool_decide_unpack _). vm_compute. exact I.
  - apply (bool_decide_unpack _). vm_compute. exact I.
Defined.

Lemma sync_restore_loop (st : Store) (l : list (string * string))
    (target : gmap string (list byte)) :
  Forall (λ kv, is_Some (blobs st !! kv.2)) l →
  foldM (λ target kv,
      content ← Sync.loadContent (snd kv);
      mret (<[fst kv := content]> target)) target l st
  = (Ok (foldl (λ t kv, <[kv.1 := default [] (blobs st !! kv.2)]> t) target l), st).
Proof.
  intros Hall. revert target. induction Hall as [|[k h] l [c Hc] _ IH]; intros target.
  - reflexivity.
  - simpl in Hc.
    assert (Hstep : (content ← Sync.loadContent h; mret (<[k := content]> target)) st
                    = (Ok (<[k := c]> target), st)).
    { erewrite bind_Ok; [reflexivity|]. unfold Sync.loadContent. by rewrite Hc. }
    cbn [foldM foldl fst snd]. rewrite (bind_Ok _ _ _ _ _ Hstep), IH. by rewrite Hc.
Qed.

Lemma async_restore_loop (sv : Async.Service) (l : list (string * string))
    (target : gmap string (list byte)) :
  Forall (λ kv, is_Some (blobs (Async.db sv) !! kv.2)) l →
  foldM (λ target kv,
      tryCatch (content ← Async.loadContent (snd kv);
                mret (<[fst kv := content]> target))
               (λ error, throw error)) target l sv
  = (Ok (foldl (λ t kv, <[kv.1 := default [] (blobs (Async.db sv) !! kv.2)]> t) target l),
     sv).
Proof.
  intros Hall. revert target. induction Hall as [|[k h] l [c Hc] _ IH]; intros target.
  - reflexivity.
  - simpl in Hc.
    assert (Hstep : tryCatch (content ← Async.loadContent h;
                              mret (<[k := content]> target))
                             (λ error, throw error) sv
                    = (Ok (<[k := c]> target), sv)).
    { unfold tryCatch. erewrite bind_Ok; [reflexivity|].
      unfold Async.loadContent. by rewrite Hc. }
    cbn [foldM foldl fst snd]. rewrite (bind_Ok _ _ _ _ _ Hstep), IH. by rewrite Hc.
Qed.

Lemma restore_overlay_lookup (stored : gmap string (list byte)) (flat : Flat)
    (target : gmap string (list byte)) (p : string) :
  (∀ p h, flat !! p = Some h → is_Some (stored !! h)) →
  foldl (λ t kv, <[kv.1 := default [] (stored !! kv.2)]> t) target (map_to_list flat) !! p
  = match flat !! p with
    | Some h => stored !! h
    | None => target !! p
    end.
Proof.
  intros Hall.
  assert (Hgen : ∀ (l : list (string * string)) (t : gmap string (list byte)),
    NoDup l.*1 →
    foldl (λ t kv, <[kv.1 := default [] (stored !! kv.2)]> t) t l !! p
    = match (list_to_map l : Flat) !! p with
      | Some h => Some (default [] (stored !! h))
      | None => t !! p
      end).
  { induction l as [|[k v] l IH]; intros t Hnd; simpl.
    - by rewrite lookup_empty.
    - apply NoDup_cons in Hnd as [Hk Hnd]. rewrite (IH _ Hnd).
      destruct (decide (k = p)) as [->|Hne].
      + rewrite !lookup_insert_eq. by rewrite (not_elem_of_list_to_map_1 _ _ Hk).
      + by rewrite !lookup_insert_ne. }
  rewrite (Hgen _ _ (NoDup_fst_map_to_list flat)), list_to_map_to_list.
  destruct (flat !! p) as [h|] eqn:Hp; [|done].
  by destruct (Hall _ _ Hp) as [c ->].
Qed.

Lemma restorable_check (flat : Flat) :
  forallb (λ kv, validRelPath kv.1
                 && forallb (λ kv', negb (isDirectoryOf kv.1 kv'.1)) (map_to_list flat))
          (map_to_list flat) = true →
  restorable flat.
Proof.
  intros Hall p [h Hp]. rewrite forallb_forall in Hall.
  apply elem_of_map_to_list, list_elem_of_In, Hall, andb_true_iff in Hp as [Hv Hd].
  split; [exact Hv|]. intros q [g Hq]. rewrite forallb_forall in Hd.
  apply elem_of_map_to_list, list_elem_of_In, Hd in Hq. simpl in Hq.
  by apply negb_true_iff.
Qed.

(** X23. Restoring into an empty directory. When the state that
    [reconstructSnapshot] returns has no path [__proto__], is restorable
    (valid relative paths, none of them a directory of another) and every
    digest in it has its blob, [restoreSnapshot] returns; each path of the
    state then holds the bytes stored under its digest, and the directory
    holds no other file. Both variants; neither touches the blobs or the
    records. *)
Theorem restore_into_empty_directory (fuel : nat) (sid : Z) (st : Store)
    (sv sv1 : Async.Service) (flat aflat : Flat) :
  Sync.reconstructSnapshot fuel sid st = (Ok flat, st) →
  flat !! "__proto__" = None → restorable flat →
  (∀ p h, flat !! p = Some h → is_Some (blobs st !! h)) →
  Async.reconstructSnapshot fuel sid sv = (Ok aflat, sv1) →
  aflat !! "__proto__" = None → restorable aflat →
  (∀ p h, aflat !! p = Some h → is_Some (blobs (Async.db sv) !! h)) →
  (∃ target', Sync.restoreSnapshot fuel sid ∅ st = (Ok target', st)
     ∧ ∀ p, target' !! p = match flat !! p with
                           | Some h => blobs st !! h
                           | None => None
                           end)
  ∧ (∃ target', Async.restoreSnapshot fuel sid ∅ sv = (Ok target', sv1)
       ∧ Async.db sv1 = Async.db sv
       ∧ ∀ p, target' !! p = match aflat !! p with
                             | Some h => blobs (Async.db sv) !! h
                             | None => None
                             end).
Proof.
  intros Hrec _ _ Hall Harec _ _ Haall. split.
  - unfold Sync.restoreSnapshot. rewrite (bind_Ok _ _ _ _ _ Hrec).
    rewrite sync_restore_loop.
    + eexists. split; [reflexivity|]. intros p.
      rewrite (restore_overlay_lookup _ _ _ _ Hall).
      destruct (flat !! p); [done|]. apply lookup_empty.
    + apply Forall_forall. intros [k h] Hin. apply elem_of_map_to_list in Hin.
      simpl. by eapply Hall.
  - assert (Hdb : Async.db sv1 = Async.db sv).
    { pose proof (async_reconstruct_db fuel sid sv) as H. by rewrite Harec in H. }
    unfold Async.restoreSnapshot. rewrite (bind_Ok _ _ _ _ _ Harec).
    rewrite async_restore_loop.
    + eexists. split; [reflexivity|]. split; [done|]. intros p. rewrite Hdb.
      rewrite (restore_overlay_lookup _ _ _ _ Haall).
      destruct (aflat !! p); [done|]. apply lookup_empty.
    + apply Forall_forall. intros [k h] Hin. apply elem_of_map_to_list in Hin.
      simpl. rewrite Hdb. by eapply Haall.
Qed.

Lemma blobs_present_check (stored : gmap string (list byte)) (flat : Flat) :
  forallb (λ kv, bool_decide (is_Some (stored !! kv.2))) (map_to_list flat) = true →
  ∀ p h, flat !! p = Some h → is_Some (stored !! h).
Proof.
  intros Hall p h Hp. apply elem_of_map_to_list in Hp.
  rewrite forallb_forall in Hall. apply list_elem_of_In in Hp.
  exact (proj1 (bool_decide_eq_true _) (Hall _ Hp)).
Qed.

Lemma restore_into_empty_directory_witness :
  ∃ target',
    Sync.restoreSnapshot 4 2 ∅ storeAlphaBeta = (Ok target', storeAlphaBeta)
    ∧ target' !! "b.txt" = Some (utf8 "beta").
Proof.
  pose (flat := ({[ "a.txt" := hashAlpha; "b.txt" := hashBeta ]} : Flat)).
  assert (E1 : Sync.reconstructSnapshot 4 2 storeAlphaBeta = (Ok flat, storeAlphaBeta))
    by by_evaluation.
  assert (E2 : Async.reconstructSnapshot 4 2 (Async.newService storeAlphaBeta)
               = (Ok flat, stateAfter (Async.reconstructSnapshot 4 2)
                             (Async.newService storeAlphaBeta)))
    by by_evaluation.
  assert (Hall : forallb (λ kv, bool_decide (is_Some (blobs storeAlphaBeta !! kv.2)))
                         (map_to_list flat) = true)
    by by_evaluation.
  assert (Hres : forallb (λ kv, validRelPath kv.1
                                && forallb (λ kv', negb (isDirectoryOf kv.1 kv'.1))
                                           (map_to_list flat))
                         (map_to_list flat) = true)
    by by_evaluation.
  assert (Hown : flat !! "__proto__" = None) by by_evaluation.
  assert (Hb : match flat !! "b.txt" with
               | Some h => blobs storeAlphaBeta !! h
               | None => None
               end = Some (utf8 "beta"))
    by by_evaluation.
  destruct (restore_into_empty_directory 4 2 storeAlphaBeta
              (Async.newService storeAlphaBeta)
              (stateAfter (Async.reconstructSnapshot 4 2) (Async.newService storeAlphaBeta))
              flat flat
              E1 Hown (restorable_check _ Hres) (blobs_present_check _ _ Hall)
              E2 Hown (restorable_check _ Hres) (blobs_present_check _ _ Hall))
    as [(target' & E & Hlook) _].
  exists target'. split; [exact E|]. exact (eq_trans (Hlook "b.txt") Hb).
Defined.





(** ** Sessions never leave a record with a digest that has no blob *)

Lemma sync_createSnapshot_blobs_grow fuel dirPath now st :
  blobs st ⊆ blobs (stateAfter (Sync.createSnapshot fuel dirPath now) st).
Proof.
  set (R := λ s s' : Store, blobs s ⊆ blobs s').
  assert (HR : Reflexive R) by (intros x; unfold R; done).
  assert (HT : Transitive R) by (intros x y z Hxy Hyz; unfold R in *; by etrans).
  change (R st (stateAfter (Sync.createSnapshot fuel dirPath now) st)).
  unfold stateAfter, Sync.createSnapshot.
  apply (bind_state_inv R); [done|]. intros lastId s1.
  apply (bind_state_inv R).
  { destruct lastId as [l|]; [|done]. destruct (truthy l); [|done].
    apply (bind_state_inv R); [by rewrite sync_loadSnapshot_pure|].
    intros a s2. apply (bind_state_inv R); [|done].
    unfold R. by rewrite sync_reconstruct_state. }
  intros [par parentFlat] s2. apply (bind_state_inv R).
  { apply (foldM_state_inv R). intros b x s. apply (bind_state_inv R).
    { unfold readFileSync. destruct (resolve _ _) as [[?|?]|]; by unfold R. }
    intros content s3. apply (bind_state_inv R).
    { rewrite sync_storeBlob_spec. unfold R. simpl.
      destruct (blobs s3 !! hashContent content) eqn:Hb; [done|].
      by apply insert_subseteq. }
    intros hash s4. simpl.
    destruct (parentFlat !! x.1); [destruct (decide (_ = hash))|]; by unfold R. }
  intros ch s3. apply (bind_state_inv R); [|done].
  unfold Sync.saveSnapshot, modify, R. by simpl.
Qed.

Lemma sync_classify_loop_digests dirPath (parentFlat : Flat) entries c st ch st' :
  foldM (λ changes kv,
      let pathKey : string := fst kv in
      content ← readFileSync dirPath pathKey;
      hash ← Sync.storeBlob content;
      match parentFlat !! pathKey with
      | None => mret (set_added pathKey hash changes)
      | Some parentHash =>
          let oldHash := hashContent (utf8 parentHash) in
          if decide (oldHash = hash) then mret changes
          else mret (set_modified pathKey hash changes)
      end) c (entries : list (string * string)) st = (Ok ch, st') →
  (∀ p h, added c !! p = Some h ∨ modified c !! p = Some h → is_Some (blobs st !! h)) →
  ∀ p h, added ch !! p = Some h ∨ modified ch !! p = Some h → is_Some (blobs st' !! h).
Proof.
  revert c st. induction entries as [|kv entries IH]; intros c st; simpl.
  - by intros [= <- <-].
  - intros H Hc. apply bind_inv_Ok in H as (c1 & st1 & Hstep & H).
    apply (IH _ _ H). clear H IH.
    apply bind_inv_Ok in Hstep as (content & st2 & Hread & Hstep).
    assert (st2 = st) as ->.
    { unfold readFileSync in Hread.
      destruct (resolve _ _) as [[?|?]|]; by injection Hread. }
    apply bind_inv_Ok in Hstep as (hash & st3 & Hstore & Hstep).
    rewrite sync_storeBlob_spec in Hstore. injection Hstore as <- <-.
    assert (Hsub : blobs st ⊆ match blobs st !! hashContent content with
                              | Some _ => blobs st
                              | None => <[hashContent content := content]> (blobs st)
                              end).
    { destruct (blobs st !! hashContent content) eqn:Hb; [done|].
      by apply insert_subseteq. }
    assert (Hnew : is_Some (match blobs st !! hashContent content with
                            | Some _ => blobs st
                            | None => <[hashContent content := content]> (blobs st)
                            end !! hashContent content)).
    { destruct (blobs st !! hashContent content) eqn:Hb.
      - by rewrite Hb.
      - by rewrite lookup_insert_eq. }
    assert (Hold : ∀ p h, added c !! p = Some h ∨ modified c !! p = Some h →
              is_Some (blobs st1 !! h) ) .
    { intros p h Hp. destruct (Hc p h Hp) as [x Hx].
      assert (blobs st1 = match blobs st !! hashContent content with
                          | Some _ => blobs st
                          | None => <[hashContent content := content]> (blobs st)
                          end) as ->.
      { destruct (parentFlat !! kv.1); [destruct (decide _)|];
          by injection Hstep as _ <-. }
      exists x. by eapply lookup_weaken. }
    assert (Hst1 : is_Some (blobs st1 !! hashContent content)).
    { destruct (parentFlat !! kv.1); [destruct (decide _)|];
        by injection Hstep as _ <-. }
    intros p h Hp.
    destruct (parentFlat !! kv.1) as [ph|].
    + destruct (decide _).
      * injection Hstep as <- _. by eapply Hold.
      * injection Hstep as <- _. simpl in Hp.
        destruct (decide (kv.1 = p)) as [<-|Hne].
        -- rewrite lookup_insert_eq in Hp. destruct Hp as [Hp|[= <-]]; [|done].
           eapply Hold. left. exact Hp.
        -- rewrite lookup_insert_ne in Hp by done. by eapply Hold.
    + injection Hstep as <- _. simpl in Hp.
      destruct (decide (kv.1 = p)) as [<-|Hne].
      * rewrite lookup_insert_eq in Hp. destruct Hp as [[= <-]|Hp]; [done|].
        eapply Hold. right. exact Hp.
      * rewrite lookup_insert_ne in Hp by done. by eapply Hold.
Qed.

Lemma sync_createSnapshot_digests fuel dirPath now st s st' :
  Sync.createSnapshot fuel dirPath now st = (Ok s, st') →
  ∀ h, h ∈ blobsInSnapshot s → is_Some (blobs st' !! h).
Proof.
  unfold Sync.createSnapshot. intros H.
  apply bind_inv_Ok in H as (lastId & s1 & Hl & H).
  apply bind_inv_Ok in H as ([par parentFlat] & s2 & Hpp & H).
  apply bind_inv_Ok in H as (ch & s3 & Hloop & H).
  apply bind_inv_Ok in H as (u & s4 & Hsave & H).
  unfold Sync.saveSnapshot, modify in Hsave. injection Hsave as _ <-.
  injection H as <- <-. simpl in *.
  intros h Hh. apply blobsInSnapshot_elem in Hh as (p & Hp). simpl in Hp.
  destruct (trackDeleted_spec (Sync.flattenDir dirPath "") parentFlat ch) as (Ha & Hm & _).
  rewrite Ha, Hm in Hp.
  eapply (sync_classify_loop_digests _ _ _ _ _ _ _ Hloop); [|exact Hp].
  intros p' h' [Hx|Hx]; simpl in Hx; by rewrite lookup_empty in Hx.
Qed.

Lemma sync_create_complete fuel dirPath now st :
  blobsComplete st → blobsComplete (stateAfter (Sync.createSnapshot fuel dirPath now) st).
Proof.
  intros Hc h (k & s & Hk & Hh).
  pose proof (sync_createSnapshot_blobs_grow fuel dirPath now st) as Hsub.
  assert (Hold : referenced (snapshots st) h →
                 is_Some (blobs (stateAfter (Sync.createSnapshot fuel dirPath now) st) !! h)).
  { intros Hr. destruct (Hc h Hr) as [x Hx]. exists x. by eapply lookup_weaken. }
  destruct (Sync.createSnapshot fuel dirPath now st) as [r st'] eqn:E.
  destruct r as [s0| |].
  - destruct (sync_createSnapshot_store _ _ _ _ _ _ E) as [Hsn _].
    pose proof (sync_createSnapshot_digests _ _ _ _ _ _ E) as Hd.
    unfold stateAfter in *. rewrite E in *. simpl in *. rewrite Hsn in Hk.
    destruct (decide (k = id s0)) as [->|Hne].
    + rewrite lookup_insert_eq in Hk. injection Hk as <-. by apply Hd.
    + rewrite lookup_insert_ne in Hk by done. apply Hold. by exists k, s.
  - rewrite sync_createSnapshot_failed in Hk by (rewrite E; done).
    apply Hold. by exists k, s.
  - rewrite sync_createSnapshot_failed in Hk by (rewrite E; done).
    apply Hold. by exists k, s.
Qed.

Lemma sync_prune_complete sid st :
  blobsComplete st → blobsComplete (stateAfter (Sync.pruneSnapshot sid) st).
Proof.
  intros Hc.
  destruct (snapshots st !! sid) as [snap|] eqn:Hsnap.
  2:{ unfold stateAfter. by rewrite (sync_prune_absent _ _ Hsnap). }
  destruct (decide (date snap = "")) as [Hd|Hd].
  { unfold stateAfter, Sync.pruneSnapshot.
    rewrite (bind_Ok _ _ _ _ _ (sync_loadSnapshot_pure st sid)), Hsnap. simpl.
    destruct (decide (date snap = "")); [done|done]. }
  destruct (sync_prune_sweep_exact st sid snap _ Hsnap Hd eq_refl) as [_ Hsweep].
  destruct (sync_pruneSnapshot_spec st sid snap Hsnap Hd) as (used & E & _).
  intros h Hr.
  assert (Hrst : referenced (snapshots st) h).
  { destruct Hr as (k & s & Hk & Hh). unfold stateAfter in Hk. rewrite E in Hk.
    simpl in Hk. apply lookup_delete_Some in Hk as [Hne Hk]. unfold afterRelink in Hk.
    destruct (decide _) as [Hp|_]; [|by exists k, s].
    destruct (decide (k = id (default (sentinel (sid + 1)) (snapshots st !! (sid + 1)))))
      as [->|Hne'].
    - rewrite lookup_insert_eq in Hk. injection Hk as <-.
      destruct (snapshots st !! (sid + 1)) as [next|] eqn:Hnext; simpl in *.
      + by exists (sid + 1), next.
      + discriminate.
    - rewrite lookup_insert_ne in Hk by done. by exists k, s. }
  destruct (Hc h Hrst) as [c Hc'].
  exists c. apply Hsweep. by split.
Qed.

Lemma runSession_complete fuel ops st :
  blobsComplete st → blobsComplete (runSession fuel ops st).
Proof.
  revert st. induction ops as [|[dirPath now|sid] ops IH]; intros st Hc; simpl.
  - exact Hc.
  - by apply IH, sync_create_complete.
  - by apply IH, sync_prune_complete.
Qed.

Lemma sync_reconstruct_referenced st fuel sid flat :
  Sync.reconstructSnapshot fuel sid st = (Ok flat, st) →
  ∀ p h, flat !! p = Some h → referenced (snapshots st) h.
Proof.
  revert sid flat. induction fuel as [|fuel IH]; intros sid flat; simpl; [done|].
  intros H. apply bind_inv_Ok in H as (snap & s1 & Hload & H).
  rewrite sync_loadSnapshot_pure in Hload. injection Hload as Hsn Hs1. subst snap s1.
  apply bind_inv_Ok in H as (pflat & s2 & Hpar & H). injection H as Hfl Hs2.
  subst flat s2.
  assert (Hpf : ∀ p h, pflat !! p = Some h → referenced (snapshots st) h).
  { destruct (parent _) as [p0|].
    - destruct (truthy p0).
      + by eapply IH.
      + injection Hpar as <-. intros p h Hp. by rewrite lookup_empty in Hp.
    - injection Hpar as <-. intros p h Hp. by rewrite lookup_empty in Hp. }
  intros p h Hp. rewrite applyChanges_lookup in Hp.
  destruct (decide (p ∈ _)); [done|].
  assert (Hown : ∀ h, h ∈ blobsInSnapshot (default (sentinel sid) (snapshots st !! sid)) →
                      referenced (snapshots st) h).
  { intros h' Hh'. destruct (snapshots st !! sid) as [snap|] eqn:Hsnap; simpl in Hh'.
    - by exists sid, snap.
    - unfold blobsInSnapshot, sentinel, emptyChanges in Hh'. simpl in Hh'.
      rewrite map_to_list_empty in Hh'. by apply elem_of_nil in Hh'. }
  destruct (modified _ !! p) as [hm|] eqn:Hm.
  { injection Hp as ->. apply Hown, blobsInSnapshot_elem. exists p. by right. }
  destruct (added _ !! p) as [ha|] eqn:Ha.
  { injection Hp as ->. apply Hown, blobsInSnapshot_elem. exists p. by left. }
  by eapply Hpf.
Qed.

Lemma sync_logicalSize_loop st (l : list string) (total : Z) :
  Forall (λ h, is_Some (blobs st !! h)) l →
  foldM (λ total key, size ← Sync.blobSize key; mret (total + size)) total l st
  = (Ok (foldl (λ total h, total + sizeOf st h) total l), st).
Proof.
  intros Hall. revert total. induction Hall as [|h l [c Hc] _ IH]; intros total.
  - reflexivity.
  - assert (Hstep : (size ← Sync.blobSize h; mret (total + size)) st
                    = (Ok (total + sizeOf st h), st)).
    { erewrite bind_Ok; [reflexivity|]. unfold Sync.blobSize, sizeOf. by rewrite Hc. }
    cbn [foldM foldl]. by rewrite (bind_Ok _ _ _ _ _ Hstep), IH.
Qed.

Lemma sync_sizes_total (st : Store) (sid : Z) :
  wfStore st → blobsComplete st →
  (∃ n, Sync.logicalSize (S (Z.to_nat sid)) sid st = (Ok n, st))
  ∧ (∃ n, Sync.physicalSize (S (Z.to_nat sid)) sid st = (Ok n, st)).
Proof.
  intros Hwf Hc.
  destruct (sync_reconstruct_total st Hwf (S (Z.to_nat sid)) sid) as [flat Hrec]; [lia|].
  pose proof (sync_reconstruct_referenced _ _ _ _ Hrec) as Href.
  split.
  - unfold Sync.logicalSize. rewrite (bind_Ok _ _ _ _ _ Hrec).
    rewrite sync_logicalSize_loop; [by eexists|].
    apply Forall_forall. intros h Hh. apply list_elem_of_fmap in Hh as ([p h'] & -> & Hin).
    apply elem_of_map_to_list in Hin. simpl. by eapply Hc, Href.
  - destruct (snapshots st !! sid) as [snap|] eqn:Hsnap.
    + rewrite (sync_physicalSize_per_entry st sid snap); [by eexists|done|done|lia|].
      intros h Hh. apply Hc. exists sid, snap. split; [done|].
      unfold unseenBlobs in Hh. by apply list_elem_of_filter in Hh as [_ Hh].
    + exists 0. unfold Sync.physicalSize.
      rewrite (bind_Ok _ _ _ _ _ (sync_loadSnapshot_absent _ _ Hsnap)).
      unfold blobsInSnapshot, sentinel, emptyChanges. simpl.
      by rewrite map_to_list_empty.
Qed.

(** X25. No dangling digest: after any sequence of synchronous
    [createSnapshot] and [pruneSnapshot] calls on an empty database, failed
    calls included, every digest that some record lists under [added] or
    [modified] has its blob. *)
Theorem session_blobs_complete (fuel : nat) (ops : list Op) :
  blobsComplete (runSession fuel ops emptyStore).
Proof.
  apply runSession_complete. intros h (k & s & Hk & _).
  unfold emptyStore in Hk. simpl in Hk. by rewrite lookup_empty in Hk.
Qed.

(** X26. On a database that only the synchronous [createSnapshot] and
    [pruneSnapshot] have written, starting empty and scanning no path that
    is the name of an [Object.prototype] member, the size queries never
    fail: for every id, existing or not, [logicalSize] and [physicalSize]
    return and leave the database as it was. *)
Theorem session_sizes_never_fail (fuel : nat) (ops : list Op) (sid : Z) :
  Forall plainOp ops →
  (∃ n, Sync.logicalSize (S (Z.to_nat sid)) sid (runSession fuel ops emptyStore)
        = (Ok n, runSession fuel ops emptyStore))
  ∧ (∃ n, Sync.physicalSize (S (Z.to_nat sid)) sid (runSession fuel ops emptyStore)
          = (Ok n, runSession fuel ops emptyStore)).
Proof.
  intros _. apply sync_sizes_total.
  - apply runSession_wf, wfStore_empty.
  - apply runSession_complete. intros h (k & s & Hk & _).
    unfold emptyStore in Hk. simpl in Hk. by rewrite lookup_empty in Hk.
Qed.

Example plain_session_example :
  Forall plainOp [OpSnapshot dirXY "t1"; OpSnapshot dirX "t2"; OpPrune 1].
Proof.
  apply Forall_cons_2.
  { change (Forall plainKey (map_to_list (Sync.flattenDir dirXY "")).*1).
    apply (bool_decide_unpack _). vm_compute. exact I. }
  apply Forall_cons_2.
  { change (Forall plainKey (map_to_list (Sync.flattenDir dirX "")).*1).
    apply (bool_decide_unpack _). vm_compute. exact I. }
  apply Forall_cons_2; [exact I|]. apply Forall_nil_2.
Qed.

Lemma session_sizes_never_fail_witness :
  ∃ n, Sync.logicalSize 3 2
         (runSession 4 [OpSnapshot dirXY "t1"; OpSnapshot dirX "t2"; OpPrune 1] emptyStore)
       = (Ok n, runSession 4 [OpSnapshot dirXY "t1"; OpSnapshot dirX "t2"; OpPrune 1]
                  emptyStore).
Proof.
  exact (proj1 (session_sizes_never_fail 4
                  [OpSnapshot dirXY "t1"; OpSnapshot dirX "t2"; OpPrune 1] 2
                  plain_session_example)).
Defined.

(** ** The asynchronous reconstruction on a cold cache *)

Lemma async_loadSnapshotWithCache_coherent sid sv :
  cacheCoherent sv →
  ∃ sv', Async.loadSnapshotWithCache sid sv
         = (match snapshots (Async.db sv) !! sid with
            | Some snap => Ok snap
            | None => Throw (FailedToLoadSnapshot sid)
            end, sv')
         ∧ Async.db sv' = Async.db sv ∧ cacheCoherent sv'.
Proof.
  intros Hcoh. unfold Async.loadSnapshotWithCache.
  destruct (Async.snapshotCache sv !! sid) as [snap|] eqn:Hc.
  - exists sv. rewrite (Hcoh _ _ Hc). done.
  - destruct (snapshots (Async.db sv) !! sid) as [snap|] eqn:Hd.
    + eexists. split; [reflexivity|]. split; [done|].
      intros k s. unfold Async.set_snapshotCache. simpl.
      destruct (decide (k = sid)) as [->|Hne].
      * rewrite lookup_insert_eq. by intros [= <-].
      * rewrite lookup_insert_ne by done. apply Hcoh.
    + by exists sv.
Qed.

Lemma async_buildChain_pure fuel :
  ∀ current acc sv,
    cacheCoherent sv →
    ∃ sv', Async.buildChain fuel current acc sv
           = (chainOf fuel (snapshots (Async.db sv)) current acc, sv')
           ∧ Async.db sv' = Async.db sv.
Proof.
  induction fuel as [|fuel IH]; intros current acc sv Hcoh.
  - destruct current; by eexists.
  - destruct current as [c|]; [|by eexists]. simpl.
    destruct (async_loadSnapshotWithCache_coherent c sv Hcoh) as (sv1 & E & Hdb & Hcoh1).
    destruct (snapshots (Async.db sv) !! c) as [snap|] eqn:Hc.
    + destruct (IH (parent snap) (snap :: acc) sv1 Hcoh1) as (sv2 & E2 & Hdb2).
      exists sv2. rewrite (bind_Ok _ _ _ _ _ E), E2, Hdb. split; [done|]. congruence.
    + exists sv1. by rewrite (bind_Throw _ _ _ _ _ E).
Qed.

Lemma async_replay_loop (chain : list Snapshot) (flat : Flat) (sv : Async.Service) :
  ∃ sv', foldM (λ flat snap,
             let flat := applyChanges (changes snap) flat in
             modify (Async.set_flatCache (id snap) flat);;
             mret flat) flat chain sv
         = (Ok (foldl (λ flat snap, applyChanges (changes snap) flat) flat chain), sv').
Proof.
  revert flat sv. induction chain as [|snap chain IH]; intros flat sv.
  - by eexists.
  - destruct (IH (applyChanges (changes snap) flat)
                 (Async.set_flatCache (id snap) (applyChanges (changes snap) flat) sv))
      as (sv' & E).
    exists sv'. cbn [foldM foldl]. erewrite bind_Ok; [exact E|].
    erewrite bind_Ok; [reflexivity|]. reflexivity.
Qed.

Lemma async_reconstruct_cold fuel sid sv :
  cacheCoherent sv → Async.flatCache sv !! sid = None →
  ∃ sv', Async.reconstructSnapshot fuel sid sv
         = (match chainOf fuel (snapshots (Async.db sv)) (Some sid) [] with
            | Ok chain => Ok (replay chain)
            | Throw e => Throw e
            | OutOfFuel => OutOfFuel
            end, sv').
Proof.
  intros Hcoh Hfc. unfold Async.reconstructSnapshot.
  erewrite bind_Ok by (unfold gets; reflexivity). rewrite Hfc.
  destruct (async_buildChain_pure fuel (Some sid) [] sv Hcoh) as (sv1 & E & _).
  destruct (chainOf fuel (snapshots (Async.db sv)) (Some sid) []) as [chain|e|].
  - rewrite (bind_Ok _ _ _ _ _ E).
    destruct (async_replay_loop chain ∅ sv1) as (sv2 & E2). by exists sv2.
  - exists sv1. unfold mbind, M_bind. by rewrite E.
  - exists sv1. unfold mbind, M_bind. by rewrite E.
Qed.

Lemma chainOf_acc fuel snaps :
  ∀ current acc chain,
    chainOf fuel snaps current acc = Ok chain
    ↔ ∃ front, chainOf fuel snaps current [] = Ok front ∧ chain = front ++ acc.
Proof.
  induction fuel as [|fuel IH]; intros current acc chain.
  - destruct current as [c|]; simpl.
    + split; [done|]. by intros (front & ? & _).
    + split.
      * intros [= <-]. by exists [].
      * intros (front & [= <-] & ->). done.
  - destruct current as [c|]; simpl.
    + destruct (snaps !! c) as [snap|].
      * rewrite (IH (parent snap) (snap :: acc)). split.
        -- intros (front & Hf & ->). exists (front ++ [snap]). split.
           ++ apply (IH (parent snap) [snap]). by exists front.
           ++ by rewrite <- app_assoc.
        -- intros (front & Hf & ->).
           apply (IH (parent snap) [snap]) in Hf as (front' & Hf & ->).
           exists front'. split; [done|]. by rewrite <- app_assoc.
      * split; [done|]. by intros (front & ? & _).
    + split.
      * intros [= <-]. by exists [].
      * intros (front & [= <-] & ->). done.
Qed.

Lemma chainOf_insert_fresh fuel snaps n s :
  snaps !! n = None →
  ∀ current acc chain,
    chainOf fuel snaps current acc = Ok chain →
    chainOf fuel (<[n := s]> snaps) current acc = Ok chain.
Proof.
  intros Hn. induction fuel as [|fuel IH]; intros current acc chain.
  - by destruct current.
  - destruct current as [c|]; simpl; [|done].
    destruct (snaps !! c) as [snap|] eqn:Hc; [|done].
    rewrite lookup_insert_ne by congruence. rewrite Hc. apply IH.
Qed.

Lemma sync_reconstruct_chain st fuel :
  wfStore st →
  ∀ sid chain,
    chainOf fuel (snapshots st) (Some sid) [] = Ok chain →
    Sync.reconstructSnapshot fuel sid st = (Ok (replay chain), st).
Proof.
  intros Hwf. induction fuel as [|fuel IH]; intros sid chain; simpl; [done|].
  destruct (snapshots st !! sid) as [snap|] eqn:Hsnap; [|done].
  intros Hchain. apply chainOf_acc in Hchain as (front & Hfront & ->).
  rewrite (bind_Ok _ _ _ _ _ (sync_loadSnapshot_pure st sid)), Hsnap. simpl.
  unfold replay. rewrite foldl_app. simpl.
  destruct (parent snap) as [p|] eqn:Hp.
  - destruct (Hwf _ _ Hsnap) as (_ & _ & Hpar). destruct (Hpar p Hp) as [Hpos _].
    assert (truthy p = true) as ->.
    { unfold truthy. apply negb_true_iff, Z.eqb_neq. lia. }
    by rewrite (bind_Ok _ _ _ _ _ (IH p front Hfront)).
  - destruct fuel; simpl in Hfront; by injection Hfront as <-.
Qed.

(** X27. On a cold cache the asynchronous [reconstructSnapshot] computes
    what the synchronous one computes: whenever it returns a flat state for
    an id of a well-formed store, the synchronous variant returns the same
    flat state with the same fuel, and the database is untouched. (The
    asynchronous variant fails where a record of the chain is missing; the
    synchronous one reads a missing record as empty.) *)
Theorem async_reconstruct_agrees_with_sync (st : Store) (fuel : nat) (sid : Z)
    (flat : Flat) (sv' : Async.Service) :
  wfStore st →
  Async.reconstructSnapshot fuel sid (Async.newService st) = (Ok flat, sv') →
  Sync.reconstructSnapshot fuel sid st = (Ok flat, st) ∧ Async.db sv' = st.
Proof.
  intros Hwf E. split.
  - destruct (async_reconstruct_cold fuel sid (Async.newService st)) as (sv1 & E1).
    { intros k s Hk. simpl in Hk. by rewrite lookup_empty in Hk. }
    { simpl. apply lookup_empty. }
    rewrite E in E1. simpl in E1.
    destruct (chainOf fuel (snapshots st) (Some sid) []) as [chain|e|] eqn:Hchain;
      [|discriminate|discriminate].
    injection E1 as -> _. by apply sync_reconstruct_chain.
  - pose proof (async_reconstruct_db fuel sid (Async.newService st)) as H.
    by rewrite E in H.
Qed.

Lemma async_reconstruct_agrees_with_sync_witness :
  Sync.reconstructSnapshot 4 3 storeXY_X_X = (Ok {[ "a.txt" := hashX ]}, storeXY_X_X).
Proof.
  assert (E : Async.reconstructSnapshot 4 3 (Async.newService storeXY_X_X)
              = (Ok {[ "a.txt" := hashX ]},
                 stateAfter (Async.reconstructSnapshot 4 3)
                   (Async.newService storeXY_X_X)))
    by by_evaluation.
  exact (proj1 (async_reconstruct_agrees_with_sync storeXY_X_X 4 3 {[ "a.txt" := hashX ]}
                  (stateAfter (Async.reconstructSnapshot 4 3)
                     (Async.newService storeXY_X_X))
                  (proj1 wfStore_examples) E)).
Defined.

(** ** Snapshot, then restore: the asynchronous round trip *)

Lemma flattenEntryWithContent_snd prefix acc entry node :
  snd (Async.flattenEntryWithContent prefix acc entry node)
  = snd acc ++ snd (Async.flattenEntryWithContent prefix (∅, []) entry node).
Proof. by destruct node. Qed.

Lemma flattenListWithContent_snd prefix (sub : list (string * Node)) :
  ∀ acc : Flat * list Async.FileWithContent,
    snd (foldl (λ a en, Async.flattenEntryWithContent prefix a (fst en) (snd en)) acc sub)
    = snd acc
      ++ snd (foldl (λ a en, Async.flattenEntryWithContent prefix a (fst en) (snd en))
                    (∅, []) sub).
Proof.
  induction sub as [|en sub IH]; intros acc; cbn [foldl].
  - simpl. by rewrite app_nil_r.
  - rewrite IH, (IH (Async.flattenEntryWithContent prefix (∅, []) en.1 en.2)).
    rewrite (flattenEntryWithContent_snd prefix acc). by rewrite app_assoc.
Qed.

Lemma contentOfFiles_app l1 l2 acc :
  contentOfFiles (l1 ++ l2) acc = contentOfFiles l2 (contentOfFiles l1 acc).
Proof. unfold contentOfFiles. by rewrite foldl_app. Qed.

Lemma filesOfEntry_content node :
  ∀ prefix acc entry,
    filesOfEntry prefix acc entry node
    = contentOfFiles (snd (Async.flattenEntryWithContent prefix (∅, []) entry node)) acc.
Proof.
  induction node as [content|entries IH] using Node_ind'; intros prefix acc entry.
  - reflexivity.
  - cbn [filesOfEntry Async.flattenEntryWithContent snd]. rewrite app_nil_l.
    generalize (relPathOf prefix entry). intros rel. revert acc.
    induction IH as [|en entries Hen _ IHentries]; intros acc; cbn [foldl].
    + reflexivity.
    + rewrite IHentries, Hen.
      rewrite (flattenListWithContent_snd rel entries
                 (Async.flattenEntryWithContent rel (∅, []) en.1 en.2)).
      by rewrite contentOfFiles_app.
Qed.

Lemma filesOf_content dirPath :
  filesOf dirPath = contentOfFiles (snd (Async.flattenDirWithContent dirPath "")) ∅.
Proof.
  unfold filesOf, Async.flattenDirWithContent.
  generalize (∅ : gmap string (list byte)). 
  induction dirPath as [|en dirPath IH]; intros acc; cbn [foldl].
  - reflexivity.
  - rewrite IH, filesOfEntry_content.
    rewrite (flattenListWithContent_snd "" dirPath
               (Async.flattenEntryWithContent "" (∅, []) en.1 en.2)).
    by rewrite contentOfFiles_app.
Qed.

Lemma restored_content files (stored : gmap string (list byte)) :
  (∀ f, f ∈ files → stored !! Async.hash f = Some (Async.content f)) →
  ∀ p, match flatOfFiles files ∅ !! p with
       | Some h => stored !! h
       | None => None
       end = contentOfFiles files ∅ !! p.
Proof.
  induction files as [|f files IH] using rev_ind; intros Hall p.
  - simpl. by rewrite !lookup_empty.
  - rewrite flatOfFiles_app, contentOfFiles_app. simpl.
    destruct (decide (Async.path f = p)) as [<-|Hne].
    + rewrite !lookup_insert_eq. apply Hall, elem_of_app. right. by left.
    + rewrite !lookup_insert_ne by done. apply IH.
      intros g Hg. apply Hall, elem_of_app. by left.
Qed.

Lemma storeFiles_content files (stored : gmap string (list byte)) :
  (∀ f g, f ∈ files → g ∈ files → Async.hash f = Async.hash g →
          Async.content f = Async.content g) →
  (∀ f c, f ∈ files → stored !! Async.hash f = Some c → c = Async.content f) →
  ∀ f, f ∈ files → storeFiles files stored !! Async.hash f = Some (Async.content f).
Proof.
  intros Hcoll Hstored f Hf.
  destruct (storeFiles_spec files stored) as (_ & Hall & Hsrc).
  destruct (Hall f Hf) as [c Hc]. rewrite Hc. f_equal.
  destruct (Hsrc _ _ Hc) as [Hold|(g & Hg & Hh & <-)].
  - by apply Hstored.
  - by apply Hcoll.
Qed.

(** X28. The asynchronous round trip, each command in a fresh process.
    Take a snapshot of a directory on a well-formed database whose ids are
    safe integers, then restore that snapshot into an empty directory: the
    restore returns, and the restored files are exactly the files of the
    directory, path by path and byte for byte. Preconditions: the tree is
    one a directory on disk can be; the scan lists no path twice; no path
    in the scan or in the flat state of the latest persisted snapshot is
    the name of an [Object.prototype] member; and no two different contents
    among the scanned files and the blobs already stored share a digest. *)
Theorem async_round_trip (fuel : nat) (dirPath : list (string * Node)) (now : string)
    (st : Store) (s : Snapshot) (sv' : Async.Service) :
  wfStore st →
  (∀ k, is_Some (snapshots st !! k) → isSafeInteger k) →
  realDirectory dirPath = true →
  NoDup (Async.path <$> snd (Async.flattenDirWithContent dirPath "")) →
  Forall plainKey (Async.path <$> snd (Async.flattenDirWithContent dirPath "")) →
  (∀ parentFlat, asyncPredecessor fuel (Async.newService st) parentFlat →
                 ∀ p, is_Some (parentFlat !! p) → plainKey p) →
  (∀ f g, f ∈ snd (Async.flattenDirWithContent dirPath "") →
          g ∈ snd (Async.flattenDirWithContent dirPath "") →
          Async.hash f = Async.hash g → Async.content f = Async.content g) →
  (∀ f c, f ∈ snd (Async.flattenDirWithContent dirPath "") →
          blobs st !! Async.hash f = Some c → c = Async.content f) →
  Async.createSnapshot fuel dirPath now (Async.newService st) = (Ok s, sv') →
  ∃ sv'', Async.restoreSnapshot (S fuel) (id s) ∅ (Async.newService (Async.db sv'))
          = (Ok (filesOf dirPath), sv'')
          ∧ Async.db sv'' = Async.db sv'.
Proof.
  intros Hwf _ _ Hnd _ _ Hcoll Hstored E.
  set (files := snd (Async.flattenDirWithContent dirPath "")) in *.
  destruct (async_createSnapshot_classifies _ _ _ _ _ _ Hnd E)
    as (parentFlat & Hpred & Hadd & Hmod & _ & Hdel).
  pose proof (delta_transforms _ _ _ Hadd Hmod Hdel) as Hdelta.
  destruct (async_createSnapshot_spec _ _ _ _ _ _ E) as (parentFlat' & Hpred' & Hs & Hdb).
  rewrite <- (asyncPredecessor_functional _ _ _ _ Hpred Hpred') in Hs. clear Hpred'.
  fold files in Hdb.
  assert (Hfresh : snapshots st !! id s = None).
  { rewrite (async_createSnapshot_id _ _ _ _ _ _ E). simpl.
    destruct (snapshots st !! newIdOf _) eqn:Hl; [|done].
    assert (Hlt := newIdOf_above (snapshots st) _ (mk_is_Some _ _ Hl)). lia. }
  simpl in Hdb.
  (* the chain of the new snapshot *)
  assert (Hchain : ∃ chain,
    chainOf (S fuel) (<[id s := s]> (snapshots st)) (Some (id s)) [] = Ok chain
    ∧ replay chain = Async.flattenDir dirPath "").
  { simpl. rewrite lookup_insert_eq. unfold asyncPredecessor in Hpred. simpl in Hpred.
    assert (Hpar : parent s = match maxId (map_to_list (snapshots st)).*1 with
                              | Some l =>
                                  if truthy l
                                  then parentIdOf (Some (default (sentinel l)
                                                           (snapshots st !! l)))
                                  else None
                              | None => None
                              end) by (by rewrite Hs).
    destruct (maxId (map_to_list (snapshots st)).*1) as [l|] eqn:Hmax.
    - apply maxId_elem in Hmax. apply list_elem_of_fmap in Hmax as ([l' rec] & -> & Hin).
      apply elem_of_map_to_list in Hin. simpl in *.
      destruct (Hwf _ _ Hin) as (Hid & Hpos & _).
      assert (Ht : truthy l' = true).
      { unfold truthy. apply negb_true_iff, Z.eqb_neq. lia. }
      rewrite Ht, Hin in Hpred, Hpar. simpl in Hpred, Hpar.
      unfold parentIdOf in Hpar. rewrite Hid, Ht in Hpar. rewrite Hid in Hpred.
      destruct Hpred as [sv1 Hrec].
      destruct (async_reconstruct_cold fuel l' (Async.newService st)) as (sv2 & E2).
      { intros k x Hk. simpl in Hk. by rewrite lookup_empty in Hk. }
      { simpl. apply lookup_empty. }
      rewrite Hrec in E2. simpl in E2.
      destruct (chainOf fuel (snapshots st) (Some l') []) as [chain|e|] eqn:Hc;
        [|discriminate|discriminate].
      injection E2 as Hpf _.
      exists (chain ++ [s]). rewrite Hpar. split.
      + apply chainOf_acc. exists chain. split; [|done].
        by apply chainOf_insert_fresh.
      + unfold replay. rewrite foldl_app. simpl. fold (replay chain).
        by rewrite <- Hpf.
    - exists [s]. rewrite Hpar. split; [by destruct fuel|].
      unfold replay. simpl. by rewrite <- Hpred. }
  destruct Hchain as (chain & Hchain & Hreplay).
  destruct (async_reconstruct_cold (S fuel) (id s) (Async.newService (Async.db sv')))
    as (sv2 & Hrec).
  { intros k x Hk. simpl in Hk. by rewrite lookup_empty in Hk. }
  { simpl. apply lookup_empty. }
  cbn [Async.db Async.newService] in Hrec. rewrite Hdb in Hrec.
  cbn [snapshots] in Hrec. rewrite Hchain, Hreplay in Hrec. rewrite <- Hdb in Hrec.
  assert (Hdb2 : Async.db sv2 = Async.db sv').
  { pose proof (async_reconstruct_db (S fuel) (id s) (Async.newService (Async.db sv')))
      as H. by rewrite Hrec in H. }
  pose proof (storeFiles_content files (blobs st) Hcoll Hstored) as Hcontent.
  assert (Hflat : Async.flattenDir dirPath "" = flatOfFiles files ∅).
  { unfold Async.flattenDir. apply flattenDirWithContent_flat. }
  assert (Hpresent : ∀ p h, Async.flattenDir dirPath "" !! p = Some h →
                            is_Some (blobs (Async.db sv2) !! h)).
  { intros p h Hp. rewrite Hflat in Hp.
    apply (flatOfFiles_lookup files p h Hnd) in Hp as (f & Hf & _ & <-).
    rewrite Hdb2, Hdb. simpl. rewrite (Hcontent f Hf). by eexists. }
  exists sv2. split; [|exact Hdb2].
  unfold Async.restoreSnapshot. rewrite (bind_Ok _ _ _ _ _ Hrec).
  rewrite async_restore_loop.
  2:{ apply Forall_forall. intros [p h] Hin. apply elem_of_map_to_list in Hin.
      simpl. by eapply Hpresent. }
  f_equal. f_equal. apply map_eq. intros p.
  rewrite (restore_overlay_lookup _ _ _ _ Hpresent).
  rewrite filesOf_content. fold files. rewrite Hflat, Hdb2, Hdb. simpl.
  rewrite <- (restored_content files _ Hcontent p).
  destruct (flatOfFiles files ∅ !! p); [done|]. apply lookup_empty.
Qed.

Lemma async_round_trip_witness :
  ∃ sv'',
    Async.restoreSnapshot 5 4 ∅
      (Async.newService
         (Async.db (stateAfter (Async.createSnapshot 4 dirXY "t4")
                      (Async.newService storeXY_X_X))))
    = (Ok (filesOf dirXY), sv'').
Proof.
  pose (s := {| id := 4; date := "t4"; parent := Some 3;
                changes := {| added := {[ "b.txt" := hashY ]}; modified := ∅;
                              deleted := [] |} |}).
  assert (E : Async.createSnapshot 4 dirXY "t4" (Async.newService storeXY_X_X)
              = (Ok s, stateAfter (Async.createSnapshot 4 dirXY "t4")
                         (Async.newService storeXY_X_X)))
    by by_evaluation.
  assert (Hsafe : forallb (λ k, bool_decide (isSafeInteger k))
                          (map_to_list (snapshots storeXY_X_X)).*1 = true)
    by by_evaluation.
  assert (Hreal : realDirectory dirXY = true) by by_evaluation.
  assert (Hnd : NoDup (Async.path <$> snd (Async.flattenDirWithContent dirXY "")))
    by (apply (bool_decide_unpack _); vm_compute; exact I).
  assert (Hplain : Forall plainKey (Async.path <$> snd (Async.flattenDirWithContent dirXY "")))
    by (apply (bool_decide_unpack _); vm_compute; exact I).
  assert (Hpred : asyncPredecessor 4 (Async.newService storeXY_X_X) {[ "a.txt" := hashX ]}).
  { unfold asyncPredecessor.
    replace (maxId (map_to_list (snapshots (Async.db (Async.newService storeXY_X_X)))).*1)
      with (Some 3) by (symmetry; by_evaluation).
    change (truthy 3) with true. cbv beta iota.
    exists (stateAfter (Async.reconstructSnapshot 4 3) (Async.newService storeXY_X_X)).
    by_evaluation. }
  assert (Hpk : forallb (λ kv, bool_decide (plainKey kv.1))
                        (map_to_list ({[ "a.txt" := hashX ]} : Flat)) = true)
    by by_evaluation.
  assert (Hcoll : ∀ f g, f ∈ snd (Async.flattenDirWithContent dirXY "") →
                         g ∈ snd (Async.flattenDirWithContent dirXY "") →
                         Async.hash f = Async.hash g → Async.content f = Async.content g).
  { intros f g Hf Hg Hh. apply list_elem_of_In in Hf, Hg. vm_compute in Hf, Hg.
    destruct Hf as [<-|[<-|[]]]; destruct Hg as [<-|[<-|[]]];
      first [reflexivity | vm_compute in Hh; discriminate]. }
  assert (Hstored : ∀ f c, f ∈ snd (Async.flattenDirWithContent dirXY "") →
                           blobs storeXY_X_X !! Async.hash f = Some c →
                           c = Async.content f).
  { intros f c Hf Hc. apply list_elem_of_In in Hf. vm_compute in Hf.
    destruct Hf as [<-|[<-|[]]]; vm_compute in Hc; injection Hc as <-; reflexivity. }
  destruct (async_round_trip 4 dirXY "t4" storeXY_X_X s
              (stateAfter (Async.createSnapshot 4 dirXY "t4")
                 (Async.newService storeXY_X_X))
              (proj1 wfStore_examples) (safe_ids_check _ Hsafe) Hreal Hnd Hplain
              (λ pf Hpf, eq_ind _ (λ x : Flat, ∀ p, is_Some (x !! p) → plainKey p)
                           (plain_keys_check _ Hpk) _
                           (asyncPredecessor_functional _ _ _ _ Hpred Hpf))
              Hcoll Hstored E)
    as (sv'' & H & _).
  exists sv''. exact H.
Defined.

(** ** Listing and the size of the database *)


#[local] Instance byId_total : Total byId.
Proof. intros a b. unfold byId. lia. Qed.

#[local] Instance byId_trans : Transitive byId.
Proof. intros a b c. unfold byId. lia. Qed.


Lemma foldl_size_permutation (l1 l2 : list (string * list byte)) :
  l1 ≡ₚ l2 →
  ∀ total, foldl (λ total kc, total + Z.of_nat (length (snd kc))) total l1
           = foldl (λ total kc, total + Z.of_nat (length (snd kc))) total l2.
Proof.
  induction 1 as [|x l1 l2 _ IH|x y l|l1 l2 l3 _ IH1 _ IH2]; intros total; simpl.
  - done.
  - apply IH.
  - f_equal. lia.
  - by rewrite IH1.
Qed.

Lemma foldl_size_shift (l : list (string * list byte)) (a b : Z) :
  foldl (λ total kc, total + Z.of_nat (length (snd kc))) (a + b) l
  = a + foldl (λ total kc, total + Z.of_nat (length (snd kc))) b l.
Proof.
  revert b. induction l as [|x l IH]; intros b; simpl; [done|].
  rewrite <- IH. f_equal. lia.
Qed.

(** X30. Deduplication as [dbSize] sees it: storing a content whose digest
    is already in the blob store leaves the size of the database as it was;
    storing a content with a new digest grows it by exactly the length of
    the content. Both variants. *)
Theorem storeBlob_dbSize (content : list byte) (st : Store) (sv : Async.Service) :
  (∃ n, fst (Sync.dbSize st) = Ok n
        ∧ fst (Sync.dbSize (stateAfter (Sync.storeBlob content) st))
          = Ok (n + match blobs st !! hashContent content with
                    | Some _ => 0
                    | None => Z.of_nat (length content)
                    end))
  ∧ (∃ n, fst (Async.dbSize sv) = Ok n
          ∧ fst (Async.dbSize (stateAfter (Async.storeBlob content) sv))
            = Ok (n + match blobs (Async.db sv) !! hashContent content with
                      | Some _ => 0
                      | None => Z.of_nat (length content)
                      end)).
Proof.
  assert (Hgen : ∀ stored : gmap string (list byte),
    foldl (λ total kc, total + Z.of_nat (length (snd kc))) 0
          (map_to_list (match stored !! hashContent content with
                        | Some _ => stored
                        | None => <[hashContent content := content]> stored
                        end))
    = foldl (λ total kc, total + Z.of_nat (length (snd kc))) 0 (map_to_list stored)
      + match stored !! hashContent content with
        | Some _ => 0
        | None => Z.of_nat (length content)
        end).
  { intros stored. destruct (stored !! hashContent content) eqn:Hb; [lia|].
    rewrite (foldl_size_permutation _ _ (map_to_list_insert _ _ _ Hb)). simpl.
    rewrite (Z.add_comm 0), foldl_size_shift. lia. }
  split; eexists; (split; [reflexivity|]).
  - unfold stateAfter. rewrite sync_storeBlob_spec. unfold Sync.dbSize, gets. simpl.
    f_equal. apply Hgen.
  - unfold stateAfter. rewrite async_storeBlob_as_sync.
    unfold stateAfter. rewrite sync_storeBlob_spec.
    unfold Async.dbSize, gets. simpl. f_equal. apply Hgen.
Qed.
